(** * Vidya AI study assistant: the live voice session, the planner's exam
      list, the quiz history and the quiz generator

    A shallow embedding of the functions of the web application that its
    specification makes statements about, followed by the proofs of these
    statements.

    The embedding:
    - [PCM]: [createBlob], [decode] and [decodeAudioData] of the LiveTutor
      component, with the host functions they call ([btoa], [atob], the
      typed-array conversions, [createBuffer]);
    - [LiveTutor]: the component's state and its handlers ([stopSession],
      [startSession], [onopen], [onaudioprocess], [onmessage], [onclose],
      [onerror]), with the calls they make on host objects kept in a log;
    - [StudyPlanner]: [addExam] and [removeExam];
    - [QuizGenerator]: [handleOptionSelect], [calculateScore] and
      [finishQuiz];
    - [GeminiService]: [cleanJSON] and [generateQuiz].

    The modules [QuizSpec], [PCMSpec] and [LiveTutorSpec] hold the
    vocabulary of the statements; the modules [PCMProofs],
    [LiveTutorProofs], [StudyPlannerProofs], [QuizGeneratorProofs] and
    [GeminiServiceProofs] hold the proofs.

    Further modules embed more of the same files: [LiveTutorMachine] (the
    handlers as the steps of a machine, the asynchronous ones cut at their
    suspensions), [GeminiServicePlan] ([generateStudyPlan]), [QuizSession]
    ([nextQuestion], [prevQuestion], [handleGenerate], [renderQuiz], the
    review of the results view and [formatTime]), [ExamList]
    ([updateExam]), [PlanTasks] ([clearCompletedForDay], [sortTasks],
    [toggleTaskCompletion] and the counts of a day), [PlanNotes]
    ([startEditingNote] and [saveNote]), [ExamCountdown] ([getNextExam]),
    [VisualAids] ([generateEducationalImage] and the component's
    [handleGenerate]) and [StudySpots] ([findStudySpots],
    [handleFindSpots] and what the view shows).
    Their properties are proved in the modules [PCMExtra],
    [LiveTutorExtra], [GeminiServiceExtra], [QuizGeneratorExtra],
    [ExamListExtra], [PlanTasksExtra], [PlanNotesExtra],
    [ExamCountdownExtra], [VisualAidsExtra] and [StudySpotsExtra].

    JavaScript numbers are IEEE 754 values. They are modelled by the
    Standard Library's [spec_float] (sign, mantissa, exponent); arithmetic
    on the playback clock and on the quiz clock is binary64 arithmetic
    ([SFadd 53 1024] and the like). An exception that leaves a function is
    the result [None]. *)

From Stdlib Require Import ZArith QArith Qabs Lia List String Ascii Bool.
From Stdlib Require Import Floats.SpecFloat.
From Stdlib Require DecimalString DecimalZ DecimalPos.
From stdpp Require Import base option list gmap.

Local Open Scope Z_scope.

(** ** JavaScript loops *)

(** [for (let i = 0; i < n; i++) body(i)] acting on a state of type [S]. *)
Definition for_loop {S : Type} (n : nat) (body : nat -> S -> S) (s : S) : S :=
  fold_left (fun acc i => body i acc) (seq 0 n) s.

(** ** PCM encoding and decoding (LiveTutor.tsx, helpers) *)

Module PCM.

(** *** Numbers *)

(** The real number a finite float stands for; zero for the others, which
    the predicate [is_finite] tells apart. *)
Definition F2Q (x : spec_float) : Q :=
  match x with
  | S754_finite s m e =>
      let a := match e with
               | Zneg k => Qmake (Zpos m) (Pos.pow 2 k)
               | _ => inject_Z (Zpos m * 2 ^ e)
               end in
      if s then Qopp a else a
  | _ => 0%Q
  end.

Definition is_finite (x : spec_float) : bool :=
  match x with
  | S754_finite _ _ _ | S754_zero _ => true
  | _ => false
  end.

(** [x * 32768] for [x] read from a [Float32Array]. The product is computed
    in binary64; a binary32 value scaled by [2^15] is representable there
    (24-bit mantissa, exponent far from the binary64 limits), so the product
    is exact: same sign and mantissa, exponent plus 15. *)
Definition mul32768 (x : spec_float) : spec_float :=
  match x with
  | S754_finite s m e => S754_finite s m (e + 15)
  | _ => x
  end.

(** ECMAScript [truncate]: the integer part, rounding toward zero. *)
Definition truncate (x : spec_float) : Z :=
  match x with
  | S754_finite s m e =>
      let a := Z.shiftl (Zpos m) e in
      if s then - a else a
  | _ => 0
  end.

(** ECMAScript [ToInt16], the conversion applied by a store into an
    [Int16Array]: NaN, the infinities and the zeros give 0; otherwise the
    integer part modulo [2^16], read as a signed 16-bit number. *)
Definition ToInt16 (x : spec_float) : Z :=
  let int16bit := truncate x mod 65536 in
  if 32768 <=? int16bit then int16bit - 65536 else int16bit.

(** ECMAScript [ToUint8], the conversion applied by a store into a
    [Uint8Array]. *)
Definition ToUint8 (n : Z) : Z := n mod 256.

(** [z / 32768.0] for [z] read from an [Int16Array]; the quotient is exact
    in binary64 and in binary32. *)
Definition div32768 (z : Z) : spec_float :=
  match z with
  | Z0 => S754_zero false
  | Zpos m => S754_finite false m (-15)
  | Zneg m => S754_finite true m (-15)
  end.

(** *** Typed-array views *)

(** [new Uint8Array(int16.buffer)]: the bytes of the 16-bit elements, least
    significant byte first (the byte order of the platforms browsers run
    on). *)
Definition bytes_of_int16 (z : Z) : list Z :=
  let u := z mod 65536 in [u mod 256; u / 256].

Definition Uint8Array_of_Int16Array (a : list Z) : list Z :=
  flat_map bytes_of_int16 a.

Definition int16_of_bytes (lo hi : Z) : Z :=
  let u := lo + 256 * hi in
  if 32768 <=? u then u - 65536 else u.

(** [new Int16Array(data.buffer)]: a [RangeError] ([None]) when the byte
    length is odd. *)
Fixpoint Int16Array_of_buffer (bytes : list Z) : option (list Z) :=
  match bytes with
  | [] => Some []
  | [_] => None
  | lo :: hi :: rest =>
      match Int16Array_of_buffer rest with
      | Some a => Some (int16_of_bytes lo hi :: a)
      | None => None
      end
  end.

(** *** Base64: the host's [btoa] and [atob] *)

Definition b64alphabet : list ascii :=
  list_ascii_of_string
    "ABCDEFGHIJKLMNOPQRSTUVWXYZabcdefghijklmnopqrstuvwxyz0123456789+/".

Definition b64char (i : Z) : ascii := nth (Z.to_nat i) b64alphabet "A"%char.

Fixpoint index_from (c : ascii) (l : list ascii) (i : Z) : option Z :=
  match l with
  | [] => None
  | d :: l' => if Ascii.eqb c d then Some i else index_from c l' (i + 1)
  end.

Definition b64index (c : ascii) : option Z := index_from c b64alphabet 0.

(** RFC 4648 section 4: three bytes give four characters; one or two
    remaining bytes give two or three characters and padding. *)
Fixpoint b64encode (bs : list Z) : list ascii :=
  match bs with
  | [] => []
  | [a] => [b64char (a / 4); b64char (a mod 4 * 16); "="%char; "="%char]
  | [a; b] =>
      [b64char (a / 4); b64char (a mod 4 * 16 + b / 16);
       b64char (b mod 16 * 4); "="%char]
  | a :: b :: c :: rest =>
      b64char (a / 4) :: b64char (a mod 4 * 16 + b / 16)
      :: b64char (b mod 16 * 4 + c / 64) :: b64char (c mod 64)
      :: b64encode rest
  end.

(** [btoa(binary)]: [binary] is a string given by its code units; an
    [InvalidCharacterError] ([None]) when a code unit exceeds 255. *)
Definition btoa (binary : list Z) : option string :=
  if forallb (fun c => (0 <=? c) && (c <=? 255)) binary
  then Some (string_of_list_ascii (b64encode binary))
  else None.

Definition is_ascii_whitespace (c : ascii) : bool :=
  match nat_of_ascii c with
  | 9%nat | 10%nat | 12%nat | 13%nat | 32%nat => true
  | _ => false
  end.

(** Removes one or two trailing [=]. *)
Fixpoint strip_padding (l : list ascii) : list ascii :=
  match l with
  | [] => []
  | c :: l' =>
      if Ascii.eqb c "="%char
         && (match l' with
             | [] => true
             | [d] => Ascii.eqb d "="%char
             | _ => false
             end)
      then []
      else c :: strip_padding l'
  end.

Fixpoint b64indices (l : list ascii) : option (list Z) :=
  match l with
  | [] => Some []
  | c :: l' =>
      match b64index c, b64indices l' with
      | Some i, Some r => Some (i :: r)
      | _, _ => None
      end
  end.

(** Four sextets give three bytes; at the end, 18 bits drop their last two
    and give two bytes, 12 bits drop their last four and give one. *)
Fixpoint b64decode (ix : list Z) : list Z :=
  match ix with
  | a :: b :: c :: d :: rest =>
      let n := ((a * 64 + b) * 64 + c) * 64 + d in
      n / 65536 :: n / 256 mod 256 :: n mod 256 :: b64decode rest
  | [a; b; c] =>
      let n := ((a * 64 + b) * 64 + c) / 4 in [n / 256; n mod 256]
  | [a; b] => [(a * 64 + b) / 16]
  | _ => []
  end.

(** [atob(data)], the forgiving-base64 decode of the HTML standard: ASCII
    whitespace is removed; when the length is a multiple of four, one or two
    trailing [=] are removed; a length that leaves remainder one, or a
    character outside the alphabet, is an [InvalidCharacterError] ([None]).
    The result is a string given by its code units. *)
Definition atob (data : string) : option (list Z) :=
  let d := List.filter (fun c => negb (is_ascii_whitespace c))
                  (list_ascii_of_string data) in
  let d := if (Z.of_nat (length d) mod 4 =? 0) then strip_padding d else d in
  if Z.of_nat (length d) mod 4 =? 1 then None
  else match b64indices d with
       | Some ix => Some (b64decode ix)
       | None => None
       end.

(** *** The component's helpers *)

Record Blob := { mimeType : string; data : string }.

(** [createBlob]: [None] stands for an exception leaving the function. *)
Definition createBlob (data : list spec_float) : option Blob :=
  let l := length data in
  let int16 := replicate l 0 in
  let int16 :=
    for_loop l (fun i a => <[i := ToInt16 (mul32768 (nth i data S754_nan))]> a)
             int16 in
  let uint8 := Uint8Array_of_Int16Array int16 in
  let binary :=
    for_loop (length uint8) (fun i b => b ++ [nth i uint8 0]) [] in
  match btoa binary with
  | Some base64 => Some {| mimeType := "audio/pcm;rate=16000"; data := base64 |}
  | None => None
  end.

(** [decode]: base64 to bytes. *)
Definition decode (base64 : string) : option (list Z) :=
  match atob base64 with
  | Some binary =>
      let bytes := replicate (length binary) 0 in
      Some (for_loop (length binary)
                     (fun i a => <[i := ToUint8 (nth i binary 0)]> a) bytes)
  | None => None
  end.

Record AudioBuffer := {
  sampleRate : Z;
  channels : list (list spec_float)   (* one [Float32Array] per channel *)
}.

(** The sample rates and the numbers of channels [createBuffer] accepts.
    The Web Audio API obliges every host to accept the rates from 8000 to
    96000 Hz and up to 32 channels, and lets it refuse what is outside; the
    model is the host that accepts exactly these. (The component passes
    24000 and 1.) *)
Definition supported_rate (rate : Z) : bool :=
  (8000 <=? rate) && (rate <=? 96000).

Definition supported_channels (nchannels : nat) : bool :=
  Nat.leb 1 nchannels && Nat.leb nchannels 32.

(** [ctx.createBuffer(channels, frameCount, rate)]: silent channels. The
    Web Audio API raises a [NotSupportedError] ([None]) when the number of
    frames is zero, or the number of channels or the rate is outside the
    supported range; the frame count has been converted to an integer by
    truncation. *)
Definition createBuffer (nchannels : nat) (frameCount : nat) (rate : Z)
  : option AudioBuffer :=
  if negb (supported_channels nchannels) || Nat.eqb frameCount 0
     || negb (supported_rate rate)
  then None
  else Some {| sampleRate := rate;
               channels := replicate nchannels
                             (replicate frameCount (S754_zero false)) |}.

(** [decodeAudioData(data, ctx, rate, channels)]. *)
Definition decodeAudioData (data : list Z) (rate : Z) (nchannels : nat)
  : option AudioBuffer :=
  match Int16Array_of_buffer data with
  | None => None
  | Some dataInt16 =>
      let frameCount := (length dataInt16 / nchannels)%nat in
      match createBuffer nchannels frameCount rate with
      | None => None
      | Some buffer =>
          Some {| sampleRate := sampleRate buffer;
                  channels :=
                    for_loop nchannels (fun c chans =>
                      <[c := for_loop frameCount (fun i channelData =>
                               <[i := div32768
                                        (nth (i * nchannels + c) dataInt16 0)]>
                                 channelData)
                               (nth c chans [])]> chans)
                      (channels buffer) |}
      end
  end.

End PCM.

(** ** The live voice session (LiveTutor.tsx) *)

Module LiveTutor.

Import PCM.

(** *** Numbers of the playback clock *)

Definition number_add : spec_float -> spec_float -> spec_float := SFadd 53 1024.
Definition number_div : spec_float -> spec_float -> spec_float := SFdiv 53 1024.
Definition number_of_Z (n : Z) : spec_float := binary_normalize 53 1024 n 0 false.
Definition zero : spec_float := S754_zero false.

(** [Math.max(a, b)]: NaN when an argument is NaN, the larger argument
    otherwise, [+0] being larger than [-0]. *)
Definition Math_max (a b : spec_float) : spec_float :=
  match SFcompare a b with
  | None => S754_nan
  | Some Lt => b
  | Some Gt => a
  | Some Eq => match a with S754_zero true => b | _ => a end
  end.

(** [audioBuffer.duration]: the number of frames over the sample rate. *)
Definition duration (b : AudioBuffer) : spec_float :=
  number_div (number_of_Z (Z.of_nat (length (nth 0 (channels b) []))))
             (number_of_Z (sampleRate b)).

(** *** Host objects and the calls made on them *)

Record AudioContext := { contextId : nat; contextRate : Z }.
Record Session := { sessionId : nat }.
Record MediaStream := { streamId : nat }.
Record AudioBufferSourceNode := { nodeId : nat; buffer : AudioBuffer }.

(** How [navigator.mediaDevices.getUserMedia] settles. *)
Inductive MicResult := MicGranted (stream : MediaStream) | MicRejected.

Inductive HostCall :=
| NewAudioContext (c : AudioContext)
| GetUserMedia (result : MicResult)
| ConnectLiveSession
| SessionClose (session : Session)
| ContextClose (c : AudioContext)
| SourceStart (source : AudioBufferSourceNode) (when : spec_float)
| SourceStop (source : AudioBufferSourceNode)
| SendRealtimeInput (media : Blob)
| TrackStop (stream : MediaStream).

(** A capture stream is released by stopping its tracks. *)
Definition released (stream : MediaStream) (calls : list HostCall) : Prop :=
  In (TrackStop stream) calls.

(** *** The component's state: React state, refs, and the host calls issued
    so far (oldest first) *)

Record State := {
  isConnected : bool;
  error : string;
  isSpeaking : bool;
  inputContextRef : option AudioContext;
  outputContextRef : option AudioContext;
  sessionRef : option Session;
  nextStartTimeRef : spec_float;
  sourcesRef : list AudioBufferSourceNode;   (* a [Set], in insertion order *)
  calls : list HostCall;
  fresh : nat                                (* identity of the next host object *)
}.

Definition initial : State :=
  {| isConnected := false; error := ""; isSpeaking := false;
     inputContextRef := None; outputContextRef := None; sessionRef := None;
     nextStartTimeRef := zero; sourcesRef := []; calls := []; fresh := 0 |}.

Definition setIsConnected (b : bool) (s : State) : State :=
  {| isConnected := b; error := error s; isSpeaking := isSpeaking s;
     inputContextRef := inputContextRef s; outputContextRef := outputContextRef s;
     sessionRef := sessionRef s; nextStartTimeRef := nextStartTimeRef s;
     sourcesRef := sourcesRef s; calls := calls s; fresh := fresh s |}.

Definition setError (e : string) (s : State) : State :=
  {| isConnected := isConnected s; error := e; isSpeaking := isSpeaking s;
     inputContextRef := inputContextRef s; outputContextRef := outputContextRef s;
     sessionRef := sessionRef s; nextStartTimeRef := nextStartTimeRef s;
     sourcesRef := sourcesRef s; calls := calls s; fresh := fresh s |}.

Definition setIsSpeaking (b : bool) (s : State) : State :=
  {| isConnected := isConnected s; error := error s; isSpeaking := b;
     inputContextRef := inputContextRef s; outputContextRef := outputContextRef s;
     sessionRef := sessionRef s; nextStartTimeRef := nextStartTimeRef s;
     sourcesRef := sourcesRef s; calls := calls s; fresh := fresh s |}.

Definition set_inputContextRef (c : option AudioContext) (s : State) : State :=
  {| isConnected := isConnected s; error := error s; isSpeaking := isSpeaking s;
     inputContextRef := c; outputContextRef := outputContextRef s;
     sessionRef := sessionRef s; nextStartTimeRef := nextStartTimeRef s;
     sourcesRef := sourcesRef s; calls := calls s; fresh := fresh s |}.

Definition set_outputContextRef (c : option AudioContext) (s : State) : State :=
  {| isConnected := isConnected s; error := error s; isSpeaking := isSpeaking s;
     inputContextRef := inputContextRef s; outputContextRef := c;
     sessionRef := sessionRef s; nextStartTimeRef := nextStartTimeRef s;
     sourcesRef := sourcesRef s; calls := calls s; fresh := fresh s |}.

Definition set_sessionRef (x : option Session) (s : State) : State :=
  {| isConnected := isConnected s; error := error s; isSpeaking := isSpeaking s;
     inputContextRef := inputContextRef s; outputContextRef := outputContextRef s;
     sessionRef := x; nextStartTimeRef := nextStartTimeRef s;
     sourcesRef := sourcesRef s; calls := calls s; fresh := fresh s |}.

Definition set_nextStartTimeRef (t : spec_float) (s : State) : State :=
  {| isConnected := isConnected s; error := error s; isSpeaking := isSpeaking s;
     inputContextRef := inputContextRef s; outputContextRef := outputContextRef s;
     sessionRef := sessionRef s; nextStartTimeRef := t;
     sourcesRef := sourcesRef s; calls := calls s; fresh := fresh s |}.

Definition set_sourcesRef (l : list AudioBufferSourceNode) (s : State) : State :=
  {| isConnected := isConnected s; error := error s; isSpeaking := isSpeaking s;
     inputContextRef := inputContextRef s; outputContextRef := outputContextRef s;
     sessionRef := sessionRef s; nextStartTimeRef := nextStartTimeRef s;
     sourcesRef := l; calls := calls s; fresh := fresh s |}.

(** Issues a host call. *)
Definition call (c : HostCall) (s : State) : State :=
  {| isConnected := isConnected s; error := error s; isSpeaking := isSpeaking s;
     inputContextRef := inputContextRef s; outputContextRef := outputContextRef s;
     sessionRef := sessionRef s; nextStartTimeRef := nextStartTimeRef s;
     sourcesRef := sourcesRef s; calls := calls s ++ [c]; fresh := fresh s |}.

(** Allocates a host object. *)
Definition alloc (s : State) : State :=
  {| isConnected := isConnected s; error := error s; isSpeaking := isSpeaking s;
     inputContextRef := inputContextRef s; outputContextRef := outputContextRef s;
     sessionRef := sessionRef s; nextStartTimeRef := nextStartTimeRef s;
     sourcesRef := sourcesRef s; calls := calls s; fresh := S (fresh s) |}.

(** [sourcesRef.current.forEach(source => source.stop())]. *)
Definition stop_sources (s : State) : State :=
  fold_left (fun acc source => call (SourceStop source) acc) (sourcesRef s) s.

(** *** stopSession *)

Definition stopSession (s : State) : State :=
  let s := match sessionRef s with
           | Some session => set_sessionRef None (call (SessionClose session) s)
           | None => s
           end in
  let s := match inputContextRef s with
           | Some c => set_inputContextRef None (call (ContextClose c) s)
           | None => s
           end in
  let s := match outputContextRef s with
           | Some c => set_outputContextRef None (call (ContextClose c) s)
           | None => s
           end in
  let s := stop_sources s in
  let s := set_sourcesRef [] s in
  let s := setIsConnected false s in
  setIsSpeaking false s.

(** *** startSession *)

(** What the host answers while [startSession] runs. *)
Inductive AudioSetup := AudioContextAvailable | AudioContextMissing.
Inductive ConnectResult := SessionResolved (session : Session) | SessionRejected.

(** The [catch] block. *)
Definition startSession_catch (s : State) : State :=
  stopSession (setError "Failed to access microphone or connect." s).

(** From the start of [startSession] to its suspension at
    [await sessionPromise]. The boolean tells whether the function is
    suspended there ([true]) or has finished in its [catch] block
    ([false]). *)
Definition startSession_begin (audio : AudioSetup) (mic : MicResult) (s : State)
  : State * bool :=
  let s := setError "" s in
  match audio with
  | AudioContextMissing => (startSession_catch s, false)
  | AudioContextAvailable =>
      let inputCtx := {| contextId := fresh s; contextRate := 16000 |} in
      let s := alloc (call (NewAudioContext inputCtx) s) in
      let outputCtx := {| contextId := fresh s; contextRate := 24000 |} in
      let s := alloc (call (NewAudioContext outputCtx) s) in
      let s := set_inputContextRef (Some inputCtx) s in
      let s := set_outputContextRef (Some outputCtx) s in
      let s := call (GetUserMedia mic) s in
      match mic with
      | MicRejected => (startSession_catch s, false)
      | MicGranted stream =>
          let s := call ConnectLiveSession s in
          (s, true)
      end
  end.

(** The continuation of [startSession] when [sessionPromise] settles. *)
Definition startSession_resume (r : ConnectResult) (s : State) : State :=
  match r with
  | SessionResolved session => set_sessionRef (Some session) s
  | SessionRejected => startSession_catch s
  end.

(** [startSession] with no callback running before the promise settles. *)
Definition startSession (audio : AudioSetup) (mic : MicResult)
    (r : ConnectResult) (s : State) : State :=
  let '(s, suspended) := startSession_begin audio mic s in
  if suspended then startSession_resume r s else s.

(** *** The session callbacks *)

Definition onopen (s : State) : State := setIsConnected true s.

(** [processor.onaudioprocess], once [sessionPromise] is fulfilled: one
    [sendRealtimeInput] with the frame's blob. *)
Definition onaudioprocess (inputData : list spec_float) (s : State) : State :=
  match createBlob inputData with
  | Some pcmBlob => call (SendRealtimeInput pcmBlob) s
  | None => s
  end.

(** The fields of a [LiveServerMessage] the handler reads:
    [msg.serverContent?.modelTurn?.parts?.[0]?.inlineData?.data], [None]
    when a link of the chain is absent, and the truth of
    [msg.serverContent?.interrupted]. *)
Record LiveServerMessage := {
  inlineData : option string;
  interrupted : bool
}.

(** The ['ended'] listener of a source. *)
Definition onended (source : AudioBufferSourceNode) (s : State) : State :=
  let s := set_sourcesRef
             (List.filter (fun x => negb (Nat.eqb (nodeId x) (nodeId source)))
                          (sourcesRef s)) s in
  if Nat.eqb (length (sourcesRef s)) 0 then setIsSpeaking false s else s.

(** The body of [if (msg.serverContent?.interrupted)]. *)
Definition interrupt (s : State) : State :=
  let s := stop_sources s in
  let s := set_sourcesRef [] s in
  let s := set_nextStartTimeRef zero s in
  setIsSpeaking false s.

Definition after_audio (msg : LiveServerMessage) (s : State) : State :=
  if interrupted msg then interrupt s else s.

(** [onmessage(msg)], run while the output context's clock reads
    [currentTime]. The awaited [decodeAudioData] does no input or output, so
    no other handler runs in between. An exception of [decode] or
    [decodeAudioData] rejects the handler's promise and ends it. *)
Definition onmessage (msg : LiveServerMessage) (currentTime : spec_float)
    (s : State) : State :=
  match inlineData msg with
  | Some base64Audio =>
      if String.eqb base64Audio "" then after_audio msg s
      else
        let s := setIsSpeaking true s in
        match outputContextRef s with
        | None => s
        | Some ctx =>
            let s := set_nextStartTimeRef
                       (Math_max (nextStartTimeRef s) currentTime) s in
            match match decode base64Audio with
                  | Some bytes => decodeAudioData bytes 24000 1
                  | None => None
                  end with
            | None => s
            | Some audioBuffer =>
                let source := {| nodeId := fresh s; buffer := audioBuffer |} in
                let s := alloc s in
                let s := call (SourceStart source (nextStartTimeRef s)) s in
                let s := set_nextStartTimeRef
                           (number_add (nextStartTimeRef s)
                                       (duration audioBuffer)) s in
                let s := set_sourcesRef (sourcesRef s ++ [source]) s in
                after_audio msg s
            end
        end
  | None => after_audio msg s
  end.

Definition onclose (s : State) : State := stopSession (setIsConnected false s).

Definition onerror (s : State) : State :=
  stopSession (setError "Connection error." s).

(** The start times passed to [source.start], in call order. *)
Fixpoint scheduled_starts (l : list HostCall) : list spec_float :=
  match l with
  | [] => []
  | SourceStart _ when :: l' => when :: scheduled_starts l'
  | _ :: l' => scheduled_starts l'
  end.

End LiveTutor.

(** ** The planner's exam list (StudyPlanner.tsx) *)

Module StudyPlanner.

Record Exam := { name : string; date : string }.

Definition blank : Exam := {| name := ""; date := "" |}.

(** [l.filter((x, i) => p(x, i))], the index counted from [i]. *)
Fixpoint filter_index {A : Type} (p : A -> nat -> bool) (l : list A) (i : nat)
  : list A :=
  match l with
  | [] => []
  | x :: l' =>
      if p x i then x :: filter_index p l' (S i) else filter_index p l' (S i)
  end.

Definition addExam (exams : list Exam) : list Exam := exams ++ [blank].

Definition removeExam (idx : nat) (exams : list Exam) : list Exam :=
  if (1 <? length exams)%nat
  then filter_index (fun _ i => negb (Nat.eqb i idx)) exams 0
  else [blank].

End StudyPlanner.

(** ** The quiz and its history (QuizGenerator.tsx) *)

Module QuizGenerator.

Record QuizQuestion := {
  question : string;
  options : list string;
  correctAnswer : string;
  explanation : string
}.

Inductive Difficulty := Easy | Medium | Hard.

Record QuizResult := {
  date : string;
  topic : string;
  score : nat;
  total : nat;
  difficulty : Difficulty
}.

Inductive View := SETUP | QUIZ | RESULT.

Record State := {
  st_topic : string;
  st_difficulty : Difficulty;
  view : View;
  quiz : list QuizQuestion;
  answers : gmap nat string;       (* the object [{[key: number]: string}] *)
  currentQuestionIndex : nat;
  history : list QuizResult
}.

(** [l.forEach((x, idx) => f(x, idx))] acting on a state of type [S], the
    index counted from [idx]. *)
Fixpoint forEach {A S : Type} (f : A -> nat -> S -> S) (l : list A) (idx : nat)
    (s : S) : S :=
  match l with
  | [] => s
  | x :: l' => forEach f l' (Datatypes.S idx) (f x idx s)
  end.

Definition handleOptionSelect (option : string) (s : State) : State :=
  {| st_topic := st_topic s; st_difficulty := st_difficulty s; view := view s;
     quiz := quiz s;
     answers := <[currentQuestionIndex s := option]> (answers s);
     currentQuestionIndex := currentQuestionIndex s; history := history s |}.

(** [answers[idx] === q.correctAnswer]: an absent answer is [undefined] and
    equals no string. *)
Definition answered_correctly (answers : gmap nat string) (q : QuizQuestion)
    (idx : nat) : bool :=
  match answers !! idx with
  | Some a => String.eqb a (correctAnswer q)
  | None => false
  end.

Definition calculateScore (s : State) : nat :=
  forEach (fun q idx score =>
             if answered_correctly (answers s) q idx then Datatypes.S score
             else score)
          (quiz s) 0%nat 0%nat.

(** [finishQuiz], run on the day [new Date().toLocaleDateString()] prints as
    [today]. *)
Definition finishQuiz (today : string) (s : State) : State :=
  let score := calculateScore s in
  let result := {| date := today; topic := st_topic s; score := score;
                   total := length (quiz s); difficulty := st_difficulty s |} in
  {| st_topic := st_topic s; st_difficulty := st_difficulty s; view := RESULT;
     quiz := quiz s; answers := answers s;
     currentQuestionIndex := currentQuestionIndex s;
     history := take 10 (result :: history s) |}.

(** What happens between two finished quizzes: the form is filled in, a quiz
    is generated and answered. Only the history is carried over. *)
Record Round := {
  r_today : string;
  r_topic : string;
  r_difficulty : Difficulty;
  r_quiz : list QuizQuestion;
  r_answers : gmap nat string
}.

Definition play (r : Round) (s : State) : State :=
  {| st_topic := r_topic r; st_difficulty := r_difficulty r; view := QUIZ;
     quiz := r_quiz r; answers := r_answers r;
     currentQuestionIndex := 0%nat; history := history s |}.

Definition round (s : State) (r : Round) : State :=
  finishQuiz (r_today r) (play r s).

End QuizGenerator.

(** ** The quiz generator of the service layer (geminiService.ts) *)

Module GeminiService.

(** Text is a list of UTF-16 code units. *)
Definition units (s : string) : list Z :=
  map (fun c => Z.of_nat (nat_of_ascii c)) (list_ascii_of_string s).

(** The class [\s] of regular expressions, which is also what [trim]
    removes: ECMAScript white space and line terminators. *)
Definition is_space (c : Z) : bool :=
  (9 <=? c) && (c <=? 13) || (c =? 32) || (c =? 160) || (c =? 5760)
  || (8192 <=? c) && (c <=? 8202) || (c =? 8232) || (c =? 8233)
  || (c =? 8239) || (c =? 8287) || (c =? 12288) || (c =? 65279).

Fixpoint drop_spaces (t : list Z) : list Z :=
  match t with
  | c :: t' => if is_space c then drop_spaces t' else t
  | [] => []
  end.

(** The rest of [t] after the prefix [p], when [t] starts with [p]. *)
Fixpoint strip_prefix (p t : list Z) : option (list Z) :=
  match p, t with
  | [], _ => Some t
  | a :: p', b :: t' => if a =? b then strip_prefix p' t' else None
  | _ :: _, [] => None
  end.

(** [t.replace(/^<fence>\s*/, "")]. *)
Definition replace_leading (fence : list Z) (t : list Z) : list Z :=
  match strip_prefix fence t with
  | Some rest => drop_spaces rest
  | None => t
  end.

(** [t.replace(/\s*```$/, "")]: the leftmost match starts at the white space
    that precedes the closing fence. *)
Definition replace_trailing (fence : list Z) (t : list Z) : list Z :=
  match strip_prefix (rev fence) (rev t) with
  | Some rest => rev (drop_spaces rest)
  | None => t
  end.

Definition trim (t : list Z) : list Z :=
  rev (drop_spaces (rev (drop_spaces t))).

Definition cleanJSON (text : list Z) : list Z :=
  match text with
  | [] => units "[]"
  | _ =>
      let cleaned :=
        replace_trailing (units "```")
          (replace_leading (units "```")
             (replace_leading (units "```json") text)) in
      trim cleaned
  end.

(** Values of [JSON.parse]. A number keeps its lexeme. *)
#[warnings="-register-all"]
Inductive JSON :=
| JNull
| JBool (b : bool)
| JNumber (lexeme : list Z)
| JString (s : list Z)
| JArray (items : list JSON)
| JObject (members : list (list Z * JSON)).

(** How [ai.models.generateContent] settles: rejected, or fulfilled with a
    response whose [text] is a string or [undefined]. *)
Inductive ApiOutcome :=
| ApiRejected
| ApiResponse (text : option (list Z)).

(** How an [async] function settles. *)
Inductive Settled (A : Type) :=
| Fulfilled (a : A)
| Rejected.
Arguments Fulfilled {A} a.
Arguments Rejected {A}.

Section GenerateQuiz.

(** The host's [JSON.parse]; [None] is a [SyntaxError]. *)
Variable JSON_parse : list Z -> option JSON.

Definition generateQuiz (api : ApiOutcome) : Settled JSON :=
  match api with
  | ApiRejected => Rejected
  | ApiResponse text =>
      match text with
      | None | Some [] => Fulfilled (JArray [])
      | Some text =>
          match JSON_parse (cleanJSON text) with
          | Some questions => Fulfilled questions
          | None => Fulfilled (JArray [])
          end
      end
  end.

End GenerateQuiz.

(** *** A parser of the JSON grammar (RFC 8259), to compute with

    It stands for the host's [JSON.parse] where a definite parser is
    needed. *)

Definition is_json_space (c : Z) : bool :=
  (c =? 32) || (c =? 9) || (c =? 10) || (c =? 13).

Fixpoint skip_ws (t : list Z) : list Z :=
  match t with
  | c :: t' => if is_json_space c then skip_ws t' else t
  | [] => []
  end.

Definition is_digit (c : Z) : bool := (48 <=? c) && (c <=? 57).

Fixpoint take_digits (t : list Z) : list Z * list Z :=
  match t with
  | c :: t' =>
      if is_digit c then let '(ds, r) := take_digits t' in (c :: ds, r)
      else ([], t)
  | [] => ([], [])
  end.

Definition hex_value (c : Z) : option Z :=
  if is_digit c then Some (c - 48)
  else if (65 <=? c) && (c <=? 70) then Some (c - 55)
  else if (97 <=? c) && (c <=? 102) then Some (c - 87)
  else None.

(** The characters of a string after its opening quote, up to the closing
    one. *)
Fixpoint parse_chars (t : list Z) (acc : list Z) : option (list Z * list Z) :=
  match t with
  | [] => None
  | c :: t1 =>
      if c =? 34 then Some (rev acc, t1)
      else if c =? 92 then
        match t1 with
        | e :: t2 =>
            if (e =? 34) || (e =? 92) || (e =? 47) then parse_chars t2 (e :: acc)
            else if e =? 98 then parse_chars t2 (8 :: acc)
            else if e =? 102 then parse_chars t2 (12 :: acc)
            else if e =? 110 then parse_chars t2 (10 :: acc)
            else if e =? 114 then parse_chars t2 (13 :: acc)
            else if e =? 116 then parse_chars t2 (9 :: acc)
            else if e =? 117 then
              match t2 with
              | h1 :: h2 :: h3 :: h4 :: t3 =>
                  match hex_value h1, hex_value h2, hex_value h3, hex_value h4 with
                  | Some a, Some b, Some c3, Some d =>
                      parse_chars t3 ((((a * 16 + b) * 16 + c3) * 16 + d) :: acc)
                  | _, _, _, _ => None
                  end
              | _ => None
              end
            else None
        | [] => None
        end
      else if c <? 32 then None
      else parse_chars t1 (c :: acc)
  end.

(** The digits after a decimal point, with the point. *)
Definition parse_fraction (t : list Z) : option (list Z * list Z) :=
  match t with
  | c :: t1 =>
      if c =? 46 then
        let '(fs, r) := take_digits t1 in
        match fs with
        | [] => None
        | _ => Some (46 :: fs, r)
        end
      else Some ([], t)
  | [] => Some ([], t)
  end.

(** An exponent, with its letter and sign. *)
Definition parse_exponent (t : list Z) : option (list Z * list Z) :=
  match t with
  | e :: t1 =>
      if (e =? 101) || (e =? 69) then
        let '(sg, t2) :=
          match t1 with
          | g :: r => if (g =? 43) || (g =? 45) then ([g], r) else ([], t1)
          | [] => ([], t1)
          end in
        let '(es, r) := take_digits t2 in
        match es with
        | [] => None
        | _ => Some (e :: sg ++ es, r)
        end
      else Some ([], t)
  | [] => Some ([], t)
  end.

(** A number: its lexeme and the rest. *)
Definition parse_number (t : list Z) : option (list Z * list Z) :=
  let '(sign, t) := match t with
                    | c :: t1 => if c =? 45 then ([45], t1) else ([], t)
                    | [] => ([], t)
                    end in
  let '(int, t) := take_digits t in
  match int with
  | [] => None
  | d :: ds =>
      if (d =? 48) && negb (Nat.eqb (length ds) 0) then None
      else
        match parse_fraction t with
        | None => None
        | Some (fs, t) =>
            match parse_exponent t with
            | None => None
            | Some (es, t) => Some (sign ++ int ++ fs ++ es, t)
            end
        end
  end.

(** A value and the rest. [fuel] bounds the nesting; the elements of an
    array and the members of an object are counted by the length of the
    text that holds them. *)
Fixpoint parse_value (fuel : nat) (t : list Z) : option (JSON * list Z) :=
  match fuel with
  | O => None
  | S fuel' =>
      let parse_elements :=
        fix parse_elements (n : nat) (t : list Z) (acc : list JSON)
          : option (JSON * list Z) :=
          match n with
          | O => None
          | S n' =>
              match parse_value fuel' t with
              | Some (v, r) =>
                  match skip_ws r with
                  | c :: r' =>
                      if c =? 44 then parse_elements n' r' (v :: acc)
                      else if c =? 93 then Some (JArray (rev (v :: acc)), r')
                      else None
                  | [] => None
                  end
              | None => None
              end
          end in
      let parse_members :=
        fix parse_members (n : nat) (t : list Z) (acc : list (list Z * JSON))
          : option (JSON * list Z) :=
          match n with
          | O => None
          | S n' =>
              match skip_ws t with
              | q :: r =>
                  match (if q =? 34 then parse_chars r [] else None) with
                  | Some (k, r) =>
                      match skip_ws r with
                      | colon :: r =>
                          match (if colon =? 58 then parse_value fuel' r
                                 else None) with
                          | Some (v, r) =>
                              match skip_ws r with
                              | c :: r' =>
                                  if c =? 44
                                  then parse_members n' r' ((k, v) :: acc)
                                  else if c =? 125
                                  then Some (JObject (rev ((k, v) :: acc)), r')
                                  else None
                              | [] => None
                              end
                          | None => None
                          end
                      | [] => None
                      end
                  | None => None
                  end
              | [] => None
              end
          end in
      match skip_ws t with
      | [] => None
      | c :: r =>
          if c =? 34 then
            match parse_chars r [] with
            | Some (str, r) => Some (JString str, r)
            | None => None
            end
          else if c =? 91 then
            match skip_ws r with
            | d :: r' =>
                if d =? 93 then Some (JArray [], r')
                else parse_elements (length r) r []
            | [] => None
            end
          else if c =? 123 then
            match skip_ws r with
            | d :: r' =>
                if d =? 125 then Some (JObject [], r')
                else parse_members (length r) r []
            | [] => None
            end
          else
            match strip_prefix (units "true") (c :: r),
                  strip_prefix (units "false") (c :: r),
                  strip_prefix (units "null") (c :: r) with
            | Some r', _, _ => Some (JBool true, r')
            | _, Some r', _ => Some (JBool false, r')
            | _, _, Some r' => Some (JNull, r')
            | None, None, None =>
                match parse_number (c :: r) with
                | Some (lexeme, r') => Some (JNumber lexeme, r')
                | None => None
                end
            end
      end
  end.

Definition JSON_parse_grammar (t : list Z) : option JSON :=
  match parse_value (S (length t)) t with
  | Some (v, r) => match skip_ws r with [] => Some v | _ => None end
  | None => None
  end.

End GeminiService.

(** ** The specification's vocabulary *)

(** The quiz history in the specification's words. *)
Module QuizSpec.

Import QuizGenerator.

(** The count of questions whose stored answer equals [correctAnswer]. *)
Definition correct_count (answers : gmap nat string)
    (quiz : list QuizQuestion) : nat :=
  length (List.filter
            (fun iq => bool_decide
                         (answers !! fst iq = Some (correctAnswer (snd iq))))
            (imap pair quiz)).

(** The result a finished round enters into the history. *)
Definition result_of (r : Round) : QuizResult :=
  {| date := r_today r; topic := r_topic r;
     score := correct_count (r_answers r) (r_quiz r);
     total := length (r_quiz r); difficulty := r_difficulty r |}.

End QuizSpec.

(** The encoder's contract in the specification's words, and the round trip
    it speaks of. *)
Module PCMSpec.

Import PCM.

Definition is_byte (b : Z) : Prop := 0 <= b < 256.
Definition is_int16 (z : Z) : Prop := -32768 <= z < 32768.

(** A sample multiplied by 32768 and stored as a 16-bit signed integer. *)
Definition s16 (x : spec_float) : Z := ToInt16 (mul32768 x).

(** The two bytes of a 16-bit signed integer in two's complement, little
    end first. *)
Definition le16 (z : Z) : list Z := [z mod 256; z / 256 mod 256].

Definition pcm_s16le (samples : list spec_float) : list Z :=
  flat_map (fun x => le16 (s16 x)) samples.

Definition base64 (bytes : list Z) : string :=
  string_of_list_ascii (b64encode bytes).

Definition encode (samples : list spec_float) : Blob :=
  {| mimeType := "audio/pcm;rate=16000"; data := base64 (pcm_s16le samples) |}.

(** The same in the specification's words, from the sample's value as a
    rational number: the product with 32768, its integer part (rounding
    toward zero), and the signed 16-bit integer congruent to it modulo
    [2^16]. *)
Definition integer_part (q : Q) : Z := Z.quot (Qnum q) (Zpos (Qden q)).

Definition int16_of (n : Z) : Z := (n + 32768) mod 65536 - 32768.

Definition scaled_int16 (x : spec_float) : Z :=
  int16_of (integer_part (F2Q x * inject_Z 32768)).

(** What a clamping encoder would store. *)
Definition s16_clamped (x : spec_float) : Z :=
  Z.max (-32768) (Z.min 32767 (truncate (mul32768 x))).

(** [decodeAudioData(decode(createBlob(x).data), ctx, 24000, 1)], first
    channel. *)
Definition round_trip (x : list spec_float) : option (list spec_float) :=
  match createBlob x with
  | Some blob =>
      match decode (data blob) with
      | Some bytes =>
          match decodeAudioData bytes 24000 1 with
          | Some buffer => Some (nth 0 (channels buffer) [])
          | None => None
          end
      | None => None
      end
  | None => None
  end.

(** A sample in [-1.0, 1.0], and in [-1.0, 1.0). *)
Definition in_closed_range (v : spec_float) : Prop :=
  is_finite v = true /\ (-1 <= F2Q v)%Q /\ (F2Q v <= 1)%Q.

Definition in_half_open_range (v : spec_float) : Prop :=
  is_finite v = true /\ (-1 <= F2Q v)%Q /\ (F2Q v < 1)%Q.

(** Two buffers of equal length that differ by at most [1/32768] at every
    index. *)
Definition within_quantization (x y : list spec_float) : Prop :=
  length y = length x
  /\ forall (i : nat) (xi yi : spec_float),
       x !! i = Some xi -> y !! i = Some yi ->
       (Qabs (F2Q yi - F2Q xi) <= 1 # 32768)%Q.

(** Samples of binary32. *)
Definition one : spec_float := S754_finite false 8388608 (-23).
Definition minus_one : spec_float := S754_finite true 8388608 (-23).
Definition half : spec_float := S754_finite false 8388608 (-24).
Definition one_and_a_half : spec_float := S754_finite false 12582912 (-23).

End PCMSpec.

(** The session's states and the playback schedule in the specification's
    words. *)
Module LiveTutorSpec.

Import PCM LiveTutor.

(** Session and audio-context references null, source set empty. *)
Definition torn_down (s : State) : Prop :=
  sessionRef s = None /\ inputContextRef s = None
  /\ outputContextRef s = None /\ sourcesRef s = [].

(** The state Disconnected. *)
Definition Disconnected (s : State) : Prop :=
  isConnected s = false /\ isSpeaking s = false /\ torn_down s.

(** The host calls a handler issued: those of [s'] after those of [s]. *)
Definition issued (s s' : State) : list HostCall :=
  drop (length (calls s)) (calls s').

(** The calls that release the duplex connection or an audio context. *)
Definition is_release (c : HostCall) : bool :=
  match c with
  | SessionClose _ | ContextClose _ => true
  | _ => false
  end.

Definition is_stop (c : HostCall) : bool :=
  match c with
  | SourceStop _ => true
  | _ => false
  end.

(** Every stop of a source comes before every release. *)
Definition drained_before_release (l : list HostCall) : Prop :=
  forall (i j : nat) (c d : HostCall),
    l !! i = Some c -> l !! j = Some d ->
    is_stop c = true -> is_release d = true -> (i < j)%nat.

(** Every release comes before every stop of a source. *)
Definition released_before_drain (l : list HostCall) : Prop :=
  forall (i j : nat) (c d : HostCall),
    l !! i = Some c -> l !! j = Some d ->
    is_release c = true -> is_stop d = true -> (i < j)%nat.

(** The releases [stopSession] issues in [s]. *)
Definition releases (s : State) : list HostCall :=
  match sessionRef s with Some x => [SessionClose x] | None => [] end
  ++ match inputContextRef s with Some c => [ContextClose c] | None => [] end
  ++ match outputContextRef s with Some c => [ContextClose c] | None => [] end.

(** The payload of a message decodes to [buffer]. *)
Definition decodes_to (base64Audio : string) (buffer : AudioBuffer) : Prop :=
  exists bytes, decode base64Audio = Some bytes
                /\ decodeAudioData bytes 24000 1 = Some buffer.

(** A message that carries an audio chunk and no interruption. *)
Definition is_chunk (msg : LiveServerMessage) (buffer : AudioBuffer) : Prop :=
  exists base64Audio,
    inlineData msg = Some base64Audio /\ base64Audio <> ""%string
    /\ decodes_to base64Audio buffer /\ interrupted msg = false.


(** Messages handled one after the other, each with the clock time at which
    it is handled. *)
Definition handle_all (msgs : list (LiveServerMessage * spec_float))
    (s : State) : State :=
  fold_left (fun acc mt => onmessage (fst mt) (snd mt) acc) msgs s.

(** The schedule of chunks given by arrival time and duration, from a
    cursor: the start times. *)
Fixpoint schedule (cursor : spec_float)
    (chunks : list (spec_float * spec_float)) : list spec_float :=
  match chunks with
  | [] => []
  | (t, d) :: rest =>
      let start := Math_max cursor t in
      start :: schedule (number_add start d) rest
  end.

(** Numbers equal as [===] has it. *)
Definition same_number (a b : spec_float) : Prop := SFeqb a b = true.







(** *** A session to compute with *)

Definition stream0 : MediaStream := {| streamId := 0 |}.
Definition session0 : Session := {| sessionId := 0 |}.

(** Three frames of silence at 24 kHz, and the message that carries them. *)
Definition silence : AudioBuffer :=
  {| sampleRate := 24000; channels := [[zero; zero; zero]] |}.

Definition chunk : LiveServerMessage :=
  {| inlineData := Some "AAAAAAAA"%string; interrupted := false |}.



Definition only_interrupted : LiveServerMessage :=
  {| inlineData := None; interrupted := true |}.

(** Start, open, and one chunk handled at clock time 1. *)
Definition connected : State :=
  onopen (startSession AudioContextAvailable (MicGranted stream0)
                       (SessionResolved session0) initial).

Definition speaking : State := onmessage chunk (number_of_Z 1) connected.

End LiveTutorSpec.

(** ** The session as a machine *)

(** What can happen to the LiveTutor component, in any order: the host's
    callbacks and the two buttons. *)
Module LiveTutorMachine.

Import PCM LiveTutor.

(** [startSession] and [onmessage] are asynchronous: other handlers run
    while they are suspended at an [await]. They are cut at these points. *)

(** [startSession] up to its suspension at [await getUserMedia]; [mic] is
    what the host will answer. The boolean tells whether the function is
    suspended there. *)
Definition startSession_setup (audio : AudioSetup) (mic : MicResult)
    (s : State) : State * bool :=
  let s := setError "" s in
  match audio with
  | AudioContextMissing => (startSession_catch s, false)
  | AudioContextAvailable =>
      let inputCtx := {| contextId := fresh s; contextRate := 16000 |} in
      let s := alloc (call (NewAudioContext inputCtx) s) in
      let outputCtx := {| contextId := fresh s; contextRate := 24000 |} in
      let s := alloc (call (NewAudioContext outputCtx) s) in
      let s := set_inputContextRef (Some inputCtx) s in
      let s := set_outputContextRef (Some outputCtx) s in
      (call (GetUserMedia mic) s, true)
  end.

(** From the answer of [getUserMedia] to the suspension at
    [await sessionPromise]. *)
Definition startSession_media (mic : MicResult) (s : State) : State * bool :=
  match mic with
  | MicRejected => (startSession_catch s, false)
  | MicGranted stream => (call ConnectLiveSession s, true)
  end.

(** [onmessage] up to its suspension at [await decodeAudioData(...)], or to
    its end where it does not get there. [decode] runs before the
    suspension; an exception of it ends the handler. *)
Definition onmessage_begin (msg : LiveServerMessage) (currentTime : spec_float)
    (s : State) : State * bool :=
  match inlineData msg with
  | Some base64Audio =>
      if String.eqb base64Audio "" then (after_audio msg s, false)
      else
        let s := setIsSpeaking true s in
        match outputContextRef s with
        | None => (s, false)
        | Some ctx =>
            let s := set_nextStartTimeRef
                       (Math_max (nextStartTimeRef s) currentTime) s in
            match decode base64Audio with
            | Some bytes => (s, true)
            | None => (s, false)
            end
        end
  | None => (after_audio msg s, false)
  end.

(** The state in which [onmessage] leaves [s] once it has started a source
    for [buffer] at the cursor. *)
Definition scheduled_at_cursor (buffer : AudioBuffer) (s : State) : State :=
  {| isConnected := isConnected s; error := error s;
     isSpeaking := isSpeaking s;
     inputContextRef := inputContextRef s;
     outputContextRef := outputContextRef s; sessionRef := sessionRef s;
     nextStartTimeRef := number_add (nextStartTimeRef s) (duration buffer);
     sourcesRef := sourcesRef s ++ [{| nodeId := fresh s; buffer := buffer |}];
     calls := calls s
              ++ [SourceStart {| nodeId := fresh s; buffer := buffer |}
                              (nextStartTimeRef s)];
     fresh := S (fresh s) |}.

(** The continuation of [onmessage] after the suspension: the promise of
    [decodeAudioData] is rejected where [createBuffer] raised, and the
    handler ends; otherwise the chunk is scheduled on the context the
    handler read before the suspension. *)
Definition onmessage_resume (msg : LiveServerMessage) (s : State) : State :=
  match inlineData msg with
  | Some base64Audio =>
      match match decode base64Audio with
            | Some bytes => decodeAudioData bytes 24000 1
            | None => None
            end with
      | None => s
      | Some audioBuffer =>
          after_audio msg (scheduled_at_cursor audioBuffer s)
      end
  | None => s
  end.

Inductive Event :=
| Start (audio : AudioSetup) (mic : MicResult)  (* the start button *)
| Media (mic : MicResult)           (* [getUserMedia] settles *)
| Settle (r : ConnectResult)        (* [sessionPromise] settles *)
| Open
| AudioProcess (inputData : list spec_float)
| Message (msg : LiveServerMessage) (currentTime : spec_float)
| Decoded (msg : LiveServerMessage) (* [decodeAudioData] settles *)
| Ended (source : AudioBufferSourceNode)
| Close
| Error
| Stop.                             (* the stop button, or the unmount *)

(** One handler, or one piece of an asynchronous handler between two
    suspensions, run to its end. The machine does not ask that a
    continuation follows its beginning: it has every run of the component
    among its runs, and more. *)
Definition step (s : State) (e : Event) : State :=
  match e with
  | Start audio mic => fst (startSession_setup audio mic s)
  | Media mic => fst (startSession_media mic s)
  | Settle r => startSession_resume r s
  | Open => onopen s
  | AudioProcess inputData => onaudioprocess inputData s
  | Message msg currentTime => fst (onmessage_begin msg currentTime s)
  | Decoded msg => onmessage_resume msg s
  | Ended source => onended source s
  | Close => onclose s
  | Error => onerror s
  | Stop => stopSession s
  end.

Definition run (events : list Event) : State := fold_left step events initial.

(** A log in which every call is permitted by the calls before it. *)
Inductive each_permitted (permitted : list HostCall -> HostCall -> Prop)
  : list HostCall -> Prop :=
| permitted_nil : each_permitted permitted []
| permitted_snoc (l : list HostCall) (c : HostCall) :
    each_permitted permitted l -> permitted l c ->
    each_permitted permitted (l ++ [c]).

(** [source.stop()] raises an [InvalidStateError] on a source that was not
    started; it is permitted on a source started before and not stopped
    yet. *)
Definition stop_permitted (before : list HostCall) (c : HostCall) : Prop :=
  match c with
  | SourceStop source =>
      (exists when, In (SourceStart source when) before)
      /\ ~ In (SourceStop source) before
  | _ => True
  end.

(** [ctx.close()] is rejected on a closed context; it is permitted on a
    context created before and not closed yet. *)
Definition close_permitted (before : list HostCall) (c : HostCall) : Prop :=
  match c with
  | ContextClose ctx =>
      In (NewAudioContext ctx) before /\ ~ In (ContextClose ctx) before
  | _ => True
  end.

(** Calls that are neither a start nor a stop of a source, and calls that
    neither create nor close a context. *)
Definition no_source_call (c : HostCall) : Prop :=
  match c with
  | SourceStart _ _ | SourceStop _ => False
  | _ => True
  end.

Definition no_context_call (c : HostCall) : Prop :=
  match c with
  | NewAudioContext _ | ContextClose _ => False
  | _ => True
  end.

(** The calls [l'] are permitted one after the other, after [l]. *)
Fixpoint permitted_from (permitted : list HostCall -> HostCall -> Prop)
    (l l' : list HostCall) : Prop :=
  match l' with
  | [] => True
  | c :: rest => permitted l c /\ permitted_from permitted (l ++ [c]) rest
  end.

(** What the component keeps true of its sources: the tracked sources are
    distinct, started and not stopped; the sources started have identities
    below the next one; every stop was permitted. *)
Definition SourcesInv (s : State) : Prop :=
  NoDup (sourcesRef s)
  /\ (forall source, In source (sourcesRef s) ->
        (exists when, In (SourceStart source when) (calls s))
        /\ ~ In (SourceStop source) (calls s))
  /\ (forall source when, In (SourceStart source when) (calls s) ->
        (nodeId source < fresh s)%nat)
  /\ each_permitted stop_permitted (calls s).

(** What it keeps true of its audio contexts: both references are set or
    none; a referenced context was created and is not closed; the two are
    distinct; the contexts created have identities below the next one;
    every close was permitted. *)
Definition ContextsInv (s : State) : Prop :=
  (inputContextRef s = None <-> outputContextRef s = None)
  /\ (forall c, inputContextRef s = Some c \/ outputContextRef s = Some c ->
        In (NewAudioContext c) (calls s) /\ ~ In (ContextClose c) (calls s))
  /\ (forall c c', inputContextRef s = Some c -> outputContextRef s = Some c' ->
        c <> c')
  /\ (forall c, In (NewAudioContext c) (calls s) -> (contextId c < fresh s)%nat)
  /\ each_permitted close_permitted (calls s).

(** The events that are no piece of [onmessage]. *)
Definition no_message (e : Event) : Prop :=
  match e with
  | Message _ _ | Decoded _ => False
  | _ => True
  end.

(** The ['ended'] events of the sources [l], one after the other. *)
Definition all_ended (l : list AudioBufferSourceNode) (s : State) : State :=
  fold_left (fun acc source => onended source acc) l s.

End LiveTutorMachine.

(** ** More of the service layer *)

Module GeminiServicePlan.

Import GeminiService.

Definition all_space (t : list Z) : bool := forallb is_space t.

(** A code unit that is neither white space nor a backtick. *)
Definition plain (c : Z) : bool := negb (is_space c) && negb (c =? 96).

(** A text whose first and last code units are plain. *)
Definition bare (body : list Z) : bool :=
  match body with
  | [] => false
  | a :: _ => plain a && plain (List.last body a)
  end.

Section GenerateStudyPlan.

(** The host's [JSON.parse]; [None] is a [SyntaxError]. *)
Variable JSON_parse : list Z -> option JSON.

(** [generateStudyPlan], from the settling of [generateContent] on. *)
Definition generateStudyPlan (api : ApiOutcome) : Settled JSON :=
  match api with
  | ApiRejected => Rejected
  | ApiResponse text =>
      match text with
      | None | Some [] => Fulfilled (JArray [])
      | Some text =>
          match JSON_parse (cleanJSON text) with
          | Some plan => Fulfilled plan
          | None => Fulfilled (JArray [])
          end
      end
  end.

End GenerateStudyPlan.

End GeminiServicePlan.

(** ** More of the quiz *)

Module QuizSession.

Import QuizGenerator.

Definition setCurrentQuestionIndex (i : nat) (s : State) : State :=
  {| st_topic := st_topic s; st_difficulty := st_difficulty s; view := view s;
     quiz := quiz s; answers := answers s;
     currentQuestionIndex := i; history := history s |}.

(** [nextQuestion]. The test is on numbers: [quiz.length - 1] is -1 for an
    empty quiz. *)
Definition nextQuestion (s : State) : State :=
  if (Z.of_nat (currentQuestionIndex s) <? Z.of_nat (length (quiz s)) - 1)%Z
  then setCurrentQuestionIndex (currentQuestionIndex s + 1) s
  else s.

Definition prevQuestion (s : State) : State :=
  if (0 <? Z.of_nat (currentQuestionIndex s))%Z
  then setCurrentQuestionIndex (currentQuestionIndex s - 1) s
  else s.

(** What the user does in the quiz view. *)
Inductive Action :=
| Select (option : string)
| Next
| Prev.

Definition act (s : State) (a : Action) : State :=
  match a with
  | Select option => handleOptionSelect option s
  | Next => nextQuestion s
  | Prev => prevQuestion s
  end.

(** The review of [renderResults]: the border of a question's card is
    green, gray or red. [isSkipped] is [!userAnswer]: no answer, or the
    empty string. *)
Inductive Mark := Correct | Skipped | Wrong.

Definition review_mark (answers : gmap nat string) (q : QuizQuestion)
    (idx : nat) : Mark :=
  let userAnswer := answers !! idx in
  let isCorrect := match userAnswer with
                   | Some a => String.eqb a (correctAnswer q)
                   | None => false
                   end in
  let isSkipped := match userAnswer with
                   | Some a => String.eqb a ""
                   | None => true
                   end in
  if isCorrect then Correct else if isSkipped then Skipped else Wrong.

Definition review (s : State) : list Mark :=
  imap (fun idx q => review_mark (answers s) q idx) (quiz s).

Definition is_correct (m : Mark) : bool :=
  match m with
  | Correct => true
  | _ => false
  end.

(** *** Generating a quiz, and the quiz view *)

(** [handleGenerate], from the click to the settling of [generateQuiz],
    with the alerts it raises; [r] is how [generateQuiz] settles, its value
    taken as the [QuizQuestion[]] it is declared to be. The loading flag
    and the timer are not part of [State]. *)
Definition handleGenerate (r : GeminiService.Settled (list QuizQuestion))
    (s : State) : State * list string :=
  match GeminiService.trim (GeminiService.units (st_topic s)) with
  | [] => (s, [])                      (* [if (!topic.trim()) return] *)
  | _ =>
      match r with
      | GeminiService.Fulfilled questions =>
          ({| st_topic := st_topic s; st_difficulty := st_difficulty s;
              view := QUIZ; quiz := questions; answers := ∅;
              currentQuestionIndex := 0%nat; history := history s |}, [])
      | GeminiService.Rejected =>
          ({| st_topic := st_topic s; st_difficulty := st_difficulty s;
              view := view s; quiz := []; answers := ∅;
              currentQuestionIndex := currentQuestionIndex s;
              history := history s |},
           ["Failed to generate quiz. Please try again."%string])
      end
  end.

(** What [renderQuiz] shows of the state: the question, the counter
    ("Question i/n"), the options with the selected one marked, whether
    the previous button is disabled, and whether the button on the right
    is the one that submits. (The progress bar and the clock are left
    out.) *)
Record QuizView := {
  shown : string;
  counter : nat * nat;
  choices : list (string * bool);
  prevDisabled : bool;
  submitShown : bool
}.

(** [renderQuiz]. Where the index is not one of the quiz,
    [quiz[currentQuestionIndex]] is [undefined] and reading its [question]
    raises a [TypeError] ([None]). *)
Definition renderQuiz (s : State) : option QuizView :=
  match quiz s !! currentQuestionIndex s with
  | None => None
  | Some q =>
      Some {| shown := question q;
              counter := ((currentQuestionIndex s + 1)%nat, length (quiz s));
              choices :=
                map (fun opt =>
                       (opt, match answers s !! currentQuestionIndex s with
                             | Some a => String.eqb a opt
                             | None => false
                             end))
                    (options q);
              prevDisabled := (currentQuestionIndex s =? 0)%nat;
              submitShown :=
                (Z.of_nat (currentQuestionIndex s)
                 =? Z.of_nat (length (quiz s)) - 1)%Z |}
  end.

(** *** The clock of the quiz view *)

(** Numbers are binary64 (IEEE 754) floating-point numbers. *)

(** [Math.floor]: the greatest integer not above [x]; NaN, the infinities
    and the zeros are returned as they are. *)
Definition Math_floor (x : spec_float) : spec_float :=
  match x with
  | S754_finite s m e =>
      let n := if s then Z.neg m else Z.pos m in
      let f := if 0 <=? e then n * 2 ^ e else n / 2 ^ (- e) in
      if f =? 0 then S754_zero s else LiveTutor.number_of_Z f
  | _ => x
  end.

(** [n % d]: NaN when [n] is NaN or infinite or [d] is NaN or zero; [n]
    when [d] is infinite or [n] is zero; otherwise [n - d * q] for the
    integer [q] that is the exact quotient rounded toward zero, with the
    sign of [n], also when it is zero. The remainder is computed on the
    mantissas brought to the smaller exponent and is representable. *)
Definition number_rem (n d : spec_float) : spec_float :=
  match n, d with
  | S754_nan, _ | _, S754_nan => S754_nan
  | S754_infinity _, _ => S754_nan
  | _, S754_zero _ => S754_nan
  | _, S754_infinity _ => n
  | S754_zero _, _ => n
  | S754_finite sn mn en, S754_finite _ md ed =>
      let e := Z.min en ed in
      let r := Z.rem (Z.pos mn * 2 ^ (en - e)) (Z.pos md * 2 ^ (ed - e)) in
      if r =? 0 then S754_zero sn
      else binary_normalize 53 1024 (if sn then - r else r) e false
  end.

(** The decimal numeral of an integer, with a minus sign when negative. *)
Definition decimal (n : Z) : string :=
  DecimalString.NilZero.string_of_int (Z.to_int n).

(** The integer a number is, if it is one. *)
Definition integer_value (x : spec_float) : option Z :=
  match x with
  | S754_zero _ => Some 0
  | S754_finite s m e =>
      let n := if s then Z.neg m else Z.pos m in
      if 0 <=? e then Some (n * 2 ^ e)
      else if n mod 2 ^ (- e) =? 0 then Some (n / 2 ^ (- e)) else None
  | _ => None
  end.

(** [x.toString()], also the conversion of [x] inside a template literal:
    ["NaN"], ["Infinity"], ["-Infinity"], and for an integer of magnitude
    below [10^21] its decimal numeral (["0"] for both zeros). The numerals
    of the other numbers (a fraction part, or the exponent notation from
    [10^21]) are not part of the model: [None]. *)
Definition Number_toString (x : spec_float) : option string :=
  match x with
  | S754_nan => Some "NaN"%string
  | S754_infinity s => Some (if s then "-Infinity" else "Infinity")%string
  | _ => match integer_value x with
         | Some n => if Z.abs n <? 10 ^ 21 then Some (decimal n) else None
         | None => None
         end
  end.

Fixpoint repeat_char (n : nat) (c : ascii) : string :=
  match n with
  | O => ""
  | S n' => String c (repeat_char n' c)
  end.

(** [s.padStart(targetLength, c)] with a pad of one character. *)
Definition padStart (targetLength : nat) (c : ascii) (s : string) : string :=
  repeat_char (targetLength - String.length s) c ++ s.

(** [formatTime]. [None] where a numeral is not part of the model. *)
Definition formatTime (seconds : spec_float) : option string :=
  let mins :=
    Math_floor (LiveTutor.number_div seconds (LiveTutor.number_of_Z 60)) in
  let secs := number_rem seconds (LiveTutor.number_of_Z 60) in
  match Number_toString mins, Number_toString secs with
  | Some m, Some s => Some (m ++ ":" ++ padStart 2 "0" s)%string
  | _, _ => None
  end.

(** The character of a decimal digit. *)
Definition digit_char (d : Z) : ascii := ascii_of_nat (48 + Z.to_nat d).

(** The clock as the quiz view is to show it: the minutes in decimal, a
    colon, and the seconds below sixty with two digits. *)
Definition clock (seconds : Z) : string :=
  decimal (seconds / 60) ++ ":"
  ++ String (digit_char (seconds mod 60 / 10))
       (String (digit_char (seconds mod 60 mod 10)) "").

(** [formatTime] shows [seconds] as [clock] has it; and the same for the
    [count] whole numbers from [seconds] on. *)
Definition shows_clock (seconds : Z) : bool :=
  match formatTime (LiveTutor.number_of_Z seconds) with
  | Some text => String.eqb text (clock seconds)
  | None => false
  end.

Fixpoint shows_clock_from (count : nat) (seconds : Z) : bool :=
  match count with
  | O => true
  | S count' => shows_clock seconds && shows_clock_from count' (seconds + 1)
  end.

(** *** A quiz to compute with *)

Definition question1 : QuizQuestion :=
  {| question := "2 + 2"; options := ["3"; "4"]%string; correctAnswer := "4";
     explanation := "" |}.

Definition question2 : QuizQuestion :=
  {| question := "3 + 3"; options := ["6"; "7"]%string; correctAnswer := "6";
     explanation := "" |}.

Definition started : State :=
  {| st_topic := "Sums"; st_difficulty := Easy; view := QUIZ;
     quiz := [question1; question2]; answers := ∅;
     currentQuestionIndex := 0%nat; history := [] |}.

End QuizSession.

(** ** More of the planner *)

(** *** The exam list *)

Module ExamList.

Import StudyPlanner.

Inductive Field := FieldName | FieldDate.

(** [updateExam]. The exam at [idx] is updated in place; where there is
    none, [newExams[idx]] is [undefined] and the assignment raises a
    [TypeError] ([None]). *)
Definition updateExam (idx : nat) (field : Field) (value : string)
    (exams : list Exam) : option (list Exam) :=
  match exams !! idx with
  | Some exam =>
      let exam' := match field with
                   | FieldName => {| name := value; date := date exam |}
                   | FieldDate => {| name := name exam; date := value |}
                   end in
      Some (<[idx := exam']> exams)
  | None => None
  end.

(** What the user does with the exam list. A handler that raises leaves
    the state as it is. *)
Inductive Operation :=
| AddExam
| RemoveExam (idx : nat)
| UpdateExam (idx : nat) (field : Field) (value : string).

Definition operate (exams : list Exam) (op : Operation) : list Exam :=
  match op with
  | AddExam => addExam exams
  | RemoveExam idx => removeExam idx exams
  | UpdateExam idx field value =>
      match updateExam idx field value exams with
      | Some exams' => exams'
      | None => exams
      end
  end.

End ExamList.

(** *** The tasks of the plan *)

Module PlanTasks.

Inductive Priority := High | Medium | Low.

Record Task := {
  subject : string;
  topic : string;
  duration : string;
  priority : Priority;
  completed : option bool;         (* [completed?: boolean] *)
  notes : option string            (* [notes?: string] *)
}.

(** One day of the plan. *)
Record StudyPlan := {
  date : string;
  tasks : list Task
}.

(** The truth of [t.completed]: [undefined] is false. *)
Definition is_completed (t : Task) : bool :=
  match completed t with
  | Some b => b
  | None => false
  end.

(** The counts of a day's card: [totalTasks], [completedCount] and
    [isAllDone]. *)
Definition totalTasks (day : StudyPlan) : nat := length (tasks day).

Definition completedCount (day : StudyPlan) : nat :=
  length (List.filter is_completed (tasks day)).

Definition isAllDone (day : StudyPlan) : bool :=
  (0 <? totalTasks day)%nat && (completedCount day =? totalTasks day)%nat.

Definition set_tasks (l : list Task) (day : StudyPlan) : StudyPlan :=
  {| date := date day; tasks := l |}.

(** [clearCompletedForDay]. Where the plan has no day [dayIdx],
    [newPlan[dayIdx]] is [undefined] and reading its [tasks] raises a
    [TypeError] ([None]). *)
Definition clearCompletedForDay (dayIdx : nat) (plan : list StudyPlan)
  : option (list StudyPlan) :=
  match plan !! dayIdx with
  | Some day =>
      Some (<[dayIdx := set_tasks (List.filter (fun t => negb (is_completed t))
                                               (tasks day)) day]> plan)
  | None => None
  end.

(** [Array.prototype.sort] with a comparator: a stable sort. An element is
    put before the first element of the sorted rest that it does not come
    after. *)
Fixpoint insert_sorted {A : Type} (cmp : A -> A -> Z) (x : A) (l : list A)
  : list A :=
  match l with
  | [] => [x]
  | y :: l' => if (cmp x y <=? 0)%Z then x :: l else y :: insert_sorted cmp x l'
  end.

Fixpoint Array_sort {A : Type} (cmp : A -> A -> Z) (l : list A) : list A :=
  match l with
  | [] => []
  | x :: l' => insert_sorted cmp x (Array_sort cmp l')
  end.

Definition weight (p : Priority) : Z :=
  match p with
  | High => 3
  | Medium => 2
  | Low => 1
  end.

Inductive Criterion := ByPriority | Default.

Section SortTasks.

(** The host's [a.localeCompare(b)]. *)
Variable localeCompare : string -> string -> Z.

Definition sortTasks (dayIdx : nat) (criterion : Criterion)
    (plan : list StudyPlan) : option (list StudyPlan) :=
  match plan !! dayIdx with
  | Some day =>
      let sorted :=
        match criterion with
        | ByPriority =>
            Array_sort (fun a b => weight (priority b) - weight (priority a))%Z
                       (tasks day)
        | Default =>
            Array_sort (fun a b => localeCompare (subject a) (subject b))
                       (tasks day)
        end in
      Some (<[dayIdx := set_tasks sorted day]> plan)
  | None => None
  end.

End SortTasks.

(** How [toggleTaskCompletion] ends. *)
Inductive Toggled :=
| NewPlan (plan : list StudyPlan)
| TypeError
    (* no day [dayIndex]: the copy of [undefined] has no [tasks], and
       spreading [undefined] into an array raises *)
| SparseTasks.
    (* a day, but no task [taskIndex]: the copy of [undefined] is an empty
       object, which gets [completed: true] and is stored at [taskIndex],
       beyond the end of the array; such arrays are not [Task] lists *)

Definition toggleTaskCompletion (dayIndex taskIndex : nat)
    (plan : list StudyPlan) : Toggled :=
  match plan !! dayIndex with
  | None => TypeError
  | Some day =>
      match tasks day !! taskIndex with
      | None => SparseTasks
      | Some task =>
          let newTask :=
            {| subject := subject task; topic := topic task;
               duration := duration task; priority := priority task;
               completed := Some (negb (is_completed task));
               notes := notes task |} in
          NewPlan (<[dayIndex := set_tasks (<[taskIndex := newTask]> (tasks day))
                                           day]> plan)
      end
  end.

Definition has_priority (p : Priority) (t : Task) : bool :=
  match p, priority t with
  | High, High | Medium, Medium | Low, Low => true
  | _, _ => false
  end.

(** *** A plan to compute with *)

Definition task (s : string) (p : Priority) (c : option bool) : Task :=
  {| subject := s; topic := ""; duration := "60 mins"; priority := p;
     completed := c; notes := None |}.

Definition monday : StudyPlan :=
  {| date := "2025-01-06";
     tasks := [task "Physics" Low (Some true); task "Chemistry" High None;
               task "Biology" Medium (Some false);
               task "Bangla" High (Some true)] |}.

Definition tuesday : StudyPlan :=
  {| date := "2025-01-07"; tasks := [task "English" Medium None] |}.

End PlanTasks.

(** *** The notes of the tasks *)

Module PlanNotes.

Import PlanTasks.

(** The plan with the state of the inline note editor. *)
Record Editor := {
  plan : list StudyPlan;
  editingNote : option (nat * nat);    (* [{dayIdx, taskIdx}] or [null] *)
  noteContent : string
}.

(** [setPlan(prev => update(prev))]; an update that raises is [None]. *)
Definition setPlan (update : list StudyPlan -> option (list StudyPlan))
    (e : Editor) : option Editor :=
  match update (plan e) with
  | Some p => Some {| plan := p; editingNote := editingNote e;
                      noteContent := noteContent e |}
  | None => None
  end.

Definition setNoteContent (c : string) (e : Editor) : Editor :=
  {| plan := plan e; editingNote := editingNote e; noteContent := c |}.

(** [startEditingNote]: [currentNote || ''] is the note, or the empty
    string for [undefined]. *)
Definition startEditingNote (dayIdx taskIdx : nat) (currentNote : option string)
    (e : Editor) : Editor :=
  {| plan := plan e; editingNote := Some (dayIdx, taskIdx);
     noteContent := match currentNote with
                    | Some n => n
                    | None => ""
                    end |}.

Definition set_notes (n : string) (t : Task) : Task :=
  {| subject := subject t; topic := topic t; duration := duration t;
     priority := priority t; completed := completed t; notes := Some n |}.

(** [saveNote]. The update raises a [TypeError] where the plan has no day
    [dayIdx] or the day no task [taskIdx]. *)
Definition saveNote (e : Editor) : option Editor :=
  match editingNote e with
  | None => Some e
  | Some (dayIdx, taskIdx) =>
      match plan e !! dayIdx with
      | None => None
      | Some day =>
          match tasks day !! taskIdx with
          | None => None
          | Some t =>
              Some {| plan := <[dayIdx :=
                                  set_tasks (<[taskIdx :=
                                                 set_notes (noteContent e) t]>
                                               (tasks day)) day]> (plan e);
                      editingNote := None; noteContent := "" |}
          end
      end
  end.

End PlanNotes.

(** *** The countdown to the next exam *)

Module ExamCountdown.

Import StudyPlanner.

Definition number_sub : spec_float -> spec_float -> spec_float :=
  SFsub 53 1024.

Definition Math_abs : spec_float -> spec_float := SFabs.

(** [Math.ceil]: the least integer not below [x]; [-0] for a negative [x]
    above -1. *)
Definition Math_ceil (x : spec_float) : spec_float :=
  match x with
  | S754_finite s m e =>
      let n := if s then Z.neg m else Z.pos m in
      let c := if 0 <=? e then n * 2 ^ e else - ((- n) / 2 ^ (- e)) in
      if c =? 0 then S754_zero s else LiveTutor.number_of_Z c
  | _ => x
  end.

Section GetNextExam.

(** The host's clock and calendar: [new Date(text).getTime()], a whole
    number of milliseconds, or [None] for the NaN of an invalid date; and
    the time value of [today] after [setHours(0, 0, 0, 0)]. *)
Variable Date_getTime : string -> option Z.
Variable today : Z.

(** [e.date && new Date(e.date) >= today]: a comparison with NaN is
    false. *)
Definition upcoming (e : Exam) : bool :=
  negb (String.eqb (date e) "")
  && match Date_getTime (date e) with
     | Some t => today <=? t
     | None => false
     end.

(** The comparator [new Date(a.date).getTime() - new Date(b.date).getTime()]
    up to its sign, which is all that [sort] reads: the difference of two
    time values has the sign of their difference as integers, and a NaN
    counts as zero. *)
Definition by_date (a b : Exam) : Z :=
  match Date_getTime (date a), Date_getTime (date b) with
  | Some x, Some y => x - y
  | _, _ => 0
  end.

Definition time_value (e : Exam) : spec_float :=
  match Date_getTime (date e) with
  | Some t => LiveTutor.number_of_Z t
  | None => S754_nan
  end.

(** [getNextExam]: the exam and its [daysLeft], or [null]. *)
Definition getNextExam (exams : list Exam) : option (Exam * spec_float) :=
  if (length exams =? 0)%nat then None
  else
    let sortedExams :=
      PlanTasks.Array_sort by_date (List.filter upcoming exams) in
    match sortedExams with
    | [] => None
    | next :: _ =>
        let diffTime :=
          Math_abs (number_sub (time_value next) (LiveTutor.number_of_Z today))
        in
        let diffDays :=
          Math_ceil (LiveTutor.number_div diffTime
                       (LiveTutor.number_of_Z (1000 * 60 * 60 * 24))) in
        Some (next, diffDays)
    end.

End GetNextExam.

(** *** A calendar to compute with: two dates as the host reads them
        (midnight UTC), and midnight of 6 January 2025 in Dhaka (UTC+6) *)

Definition calendar (text : string) : option Z :=
  if String.eqb text "2025-01-06" then Some 1736121600000
  else if String.eqb text "2025-01-08" then Some 1736294400000
  else None.

Definition midnight_in_Dhaka : Z := 1736100000000.

End ExamCountdown.

(** ** The image generator (VisualAids.tsx, geminiService.ts) *)

Module VisualAids.

(** A part of the response: the [data] of its [inlineData], if it has
    one. *)
Record Part := { inlineData : option string }.

(** How [generateContent] settles: rejected with an error, whose [message]
    may be absent, or fulfilled with a response, whose
    [candidates?.[0]?.content?.parts] may be absent. *)
Inductive ImageApi :=
| ImageApiRejected (message : option string)
| ImageApiResponse (parts : option (list Part)).

(** How [generateEducationalImage] settles: fulfilled with a URL or
    [null], or rejected. *)
Inductive ImageResult :=
| ImageUrl (url : option string)
| ImageFailed (message : option string).

(** [for (const part of parts) if (part.inlineData) return ...]. *)
Fixpoint first_inline (parts : list Part) : option string :=
  match parts with
  | [] => None
  | part :: rest =>
      match inlineData part with
      | Some data => Some ("data:image/png;base64," ++ data)%string
      | None => first_inline rest
      end
  end.

(** [generateEducationalImage]: its two branches differ in the request
    only. *)
Definition generateEducationalImage (highQuality : bool) (api : ImageApi)
  : ImageResult :=
  match api with
  | ImageApiRejected message => ImageFailed message
  | ImageApiResponse parts =>
      ImageUrl (first_inline (match parts with
                              | Some l => l
                              | None => []
                              end))
  end.

Record State := {
  prompt : string;
  resultUrl : option string;
  loading : bool;
  error : string;
  highQuality : bool
}.

(** [handleGenerate], from the click to the settling of the request. *)
Definition handleGenerate (api : ImageApi) (s : State) : State :=
  if String.eqb (prompt s) "" then s
  else
    match generateEducationalImage (highQuality s) api with
    | ImageUrl (Some url) =>
        if String.eqb url ""
        then {| prompt := prompt s; resultUrl := None; loading := false;
                error := "Failed to generate image.";
                highQuality := highQuality s |}
        else {| prompt := prompt s; resultUrl := Some url; loading := false;
                error := ""; highQuality := highQuality s |}
    | ImageUrl None =>
        {| prompt := prompt s; resultUrl := None; loading := false;
           error := "Failed to generate image.";
           highQuality := highQuality s |}
    | ImageFailed message =>
        {| prompt := prompt s; resultUrl := None; loading := false;
           error := match message with
                    | Some m => if String.eqb m "" then "Generation failed."
                                else m
                    | None => "Generation failed."
                    end;
           highQuality := highQuality s |}
    end.

End VisualAids.

(** ** The study spots (StudySpots.tsx, geminiService.ts) *)

Module StudySpots.

(** A grounding chunk: its [maps] entry, if it has one; a place is stood
    for by its title. *)
Record Chunk := { maps : option string }.

Inductive SpotsApi :=
| SpotsApiRejected
| SpotsApiResponse (text : option string) (groundingChunks : option (list Chunk)).

(** What happens after the click. *)
Inductive Search :=
| NoGeolocation                    (* [navigator.geolocation] is absent *)
| PositionError                    (* the error callback *)
| Position (api : SpotsApi).       (* the success callback *)

Record Spots := { text : option string; places : list string }.

(** [groundingChunks.map(c => c.maps).filter(Boolean)]. *)
Fixpoint places_of (chunks : list Chunk) : list string :=
  match chunks with
  | [] => []
  | c :: rest =>
      match maps c with
      | Some place => place :: places_of rest
      | None => places_of rest
      end
  end.

(** [findStudySpots]; [None] is a rejection. *)
Definition findStudySpots (api : SpotsApi) : option Spots :=
  match api with
  | SpotsApiRejected => None
  | SpotsApiResponse text chunks =>
      Some {| text := text;
              places := places_of (match chunks with
                                   | Some l => l
                                   | None => []
                                   end) |}
  end.

Record State := {
  spots : list string;
  introText : option string;
  loading : bool;
  locationError : string
}.

(** [handleFindSpots], from the click to the end of the callback. *)
Definition handleFindSpots (search : Search) (s : State) : State :=
  match search with
  | NoGeolocation =>
      {| spots := spots s; introText := introText s; loading := false;
         locationError := "Geolocation is not supported by your browser." |}
  | PositionError =>
      {| spots := spots s; introText := introText s; loading := false;
         locationError := "Unable to retrieve your location." |}
  | Position api =>
      match findStudySpots api with
      | Some result =>
          {| spots := places result; introText := text result;
             loading := false; locationError := "" |}
      | None =>
          {| spots := spots s; introText := introText s; loading := false;
             locationError := "Failed to fetch study spots from Gemini." |}
      end
  end.

(** What the view shows: the button that starts a search, the error, the
    results. *)
Record Shown := {
  locateButton : bool;
  errorShown : option string;
  resultsShown : option (option string * list string)
}.

Definition render (s : State) : Shown :=
  {| locateButton := (length (spots s) =? 0)%nat && negb (loading s);
     errorShown := if String.eqb (locationError s) "" then None
                   else Some (locationError s);
     resultsShown := if (0 <? length (spots s))%nat
                     then Some (introText s, spots s) else None |}.

End StudySpots.

(** * Proofs *)

(** ** Loops *)

Module Loops.

Lemma for_loop_S {S : Type} (n : nat) (body : nat -> S -> S) (s : S) :
  for_loop (Datatypes.S n) body s = body n (for_loop n body s).
Proof. unfold for_loop. rewrite seq_S, fold_left_app. reflexivity. Qed.

Lemma for_loop_fill {A : Type} (f : nat -> A) (d : A) (n k : nat) :
  (k <= n)%nat ->
  for_loop k (fun i a => <[i := f i]> a) (replicate n d)
  = map f (seq 0 k) ++ replicate (n - k) d.
Proof.
  induction k as [|k IH]; intros Hk.
  - simpl. rewrite Nat.sub_0_r. reflexivity.
  - rewrite for_loop_S, IH by lia.
    rewrite seq_S, map_app. simpl.
    replace (n - k)%nat with (Datatypes.S (n - Datatypes.S k)) by lia.
    rewrite insert_app_r_alt by (rewrite length_map, length_seq; lia).
    rewrite length_map, length_seq, Nat.sub_diag. simpl.
    rewrite <- app_assoc. reflexivity.
Qed.

Lemma map_nth_seq {A : Type} (l : list A) (d : A) :
  map (fun i => nth i l d) (seq 0 (length l)) = l.
Proof.
  induction l as [|x l IH]; [reflexivity|].
  simpl. f_equal. rewrite <- seq_shift, map_map. exact IH.
Qed.

Lemma for_loop_store {A B : Type} (g : A -> B) (l : list A) (d : A) (z : B) :
  for_loop (length l) (fun i a => <[i := g (nth i l d)]> a)
           (replicate (length l) z)
  = map g l.
Proof.
  rewrite (for_loop_fill (fun i => g (nth i l d))) by lia.
  rewrite Nat.sub_diag, app_nil_r.
  rewrite <- (map_map (fun i => nth i l d) g), map_nth_seq. reflexivity.
Qed.

Lemma for_loop_append {A : Type} (l : list A) (d : A) :
  for_loop (length l) (fun i b => b ++ [nth i l d]) [] = l.
Proof.
  assert (H : forall k, (k <= length l)%nat ->
            for_loop k (fun i b => b ++ [nth i l d]) [] = take k l).
  { induction k as [|k IH]; intros Hk; [reflexivity|].
    rewrite for_loop_S, IH by lia.
    destruct (lookup_lt_is_Some_2 l k ltac:(lia)) as [x Hx].
    rewrite (take_S_r l k x Hx). f_equal. f_equal.
    rewrite (nth_lookup_Some l k d x Hx). reflexivity. }
  rewrite H by lia. apply firstn_all.
Qed.

End Loops.

(** ** The encoder and the decoder *)

Module PCMProofs.

Import PCM PCMSpec Loops.

(** *** Base64 *)

Lemma b64char_facts (i : Z) :
  0 <= i < 64 ->
  b64index (b64char i) = Some i
  /\ Ascii.eqb (b64char i) "="%char = false
  /\ is_ascii_whitespace (b64char i) = false.
Proof.
  intros Hi.
  assert (H : exists n : nat, i = Z.of_nat n /\ (n < 64)%nat).
  { exists (Z.to_nat i). lia. }
  destruct H as (n & -> & Hn).
  do 64 (destruct n as [|n]; [vm_compute; auto|]).
  lia.
Qed.

Lemma list_ind3 {A : Type} (P : list A -> Prop) :
  P [] -> (forall a, P [a]) -> (forall a b, P [a; b]) ->
  (forall a b c l, P l -> P (a :: b :: c :: l)) ->
  forall l, P l.
Proof.
  intros H0 H1 H2 H3 l.
  assert (H : P l /\ (forall a, P (a :: l)) /\ (forall a b, P (a :: b :: l))).
  { induction l as [|x l (IH0 & IH1 & IH2)]; repeat split; auto. }
  apply H.
Qed.

Lemma sextets_range (a b c : Z) :
  is_byte a -> is_byte b -> is_byte c ->
  0 <= a / 4 < 64 /\ 0 <= a mod 4 * 16 + b / 16 < 64
  /\ 0 <= b mod 16 * 4 + c / 64 < 64 /\ 0 <= c mod 64 < 64
  /\ 0 <= a mod 4 * 16 < 64 /\ 0 <= b mod 16 * 4 < 64.
Proof. unfold is_byte. intros. repeat split; Z.div_mod_to_equations; lia. Qed.

Lemma sextets_join3 (a b c : Z) :
  is_byte a -> is_byte b -> is_byte c ->
  let n := ((a / 4 * 64 + (a mod 4 * 16 + b / 16)) * 64
            + (b mod 16 * 4 + c / 64)) * 64 + c mod 64 in
  n / 65536 = a /\ n / 256 mod 256 = b /\ n mod 256 = c.
Proof.
  intros Ha Hb Hc n. unfold is_byte in *.
  assert (Hn : n = a * 65536 + b * 256 + c)
    by (subst n; Z.div_mod_to_equations; lia).
  rewrite Hn. repeat split; Z.div_mod_to_equations; lia.
Qed.

Lemma sextets_join2 (a b : Z) :
  is_byte a -> is_byte b ->
  let n := ((a / 4 * 64 + (a mod 4 * 16 + b / 16)) * 64 + b mod 16 * 4) / 4 in
  n / 256 = a /\ n mod 256 = b.
Proof.
  intros Ha Hb n. unfold is_byte in *.
  assert (Hn : n = a * 256 + b) by (subst n; Z.div_mod_to_equations; lia).
  rewrite Hn. split; Z.div_mod_to_equations; lia.
Qed.

Lemma sextets_join1 (a : Z) :
  is_byte a -> (a / 4 * 64 + a mod 4 * 16) / 16 = a.
Proof. unfold is_byte. intros Ha. Z.div_mod_to_equations; lia. Qed.

#[local] Arguments b64char : simpl never.
#[local] Arguments b64index : simpl never.

Ltac b64_facts i :=
  let H := fresh "Hix" in
  let Heq := fresh "Hpad" in
  let Hws := fresh "Hws" in
  destruct (b64char_facts i) as (H & Heq & Hws); [lia|].

Lemma b64_round_trip (bs : list Z) :
  Forall is_byte bs ->
  List.filter (fun c => negb (is_ascii_whitespace c)) (b64encode bs)
  = b64encode bs
  /\ Z.of_nat (length (b64encode bs)) mod 4 = 0
  /\ Z.of_nat (length (strip_padding (b64encode bs))) mod 4 <> 1
  /\ exists ix, b64indices (strip_padding (b64encode bs)) = Some ix
                /\ b64decode ix = bs.
Proof.
  induction bs as [|a|a b|a b c rest IH] using list_ind3; intros Hbs.
  - repeat split; [discriminate|]. exists []. split; reflexivity.
  - inversion_clear Hbs as [|? ? Ha _].
    pose proof (sextets_range a 0 0 Ha) as Hr.
    unfold is_byte in Hr.
    destruct Hr as (R1 & _ & _ & _ & R2 & _); [lia | lia |].
    b64_facts (a / 4). b64_facts (a mod 4 * 16).
    cbn [b64encode List.filter strip_padding length].
    rewrite Hws, Hws0, Hpad, Hpad0. cbn.
    repeat split; [discriminate|].
    rewrite Hix, Hix0. eexists; split; [reflexivity|].
    cbn. f_equal. apply sextets_join1; exact Ha.
  - inversion_clear Hbs as [|? ? Ha Hbs']. inversion_clear Hbs' as [|? ? Hb _].
    pose proof (sextets_range a b 0 Ha Hb) as Hr.
    unfold is_byte in Hr.
    destruct Hr as (R1 & R2 & _ & _ & _ & R3); [lia |].
    b64_facts (a / 4). b64_facts (a mod 4 * 16 + b / 16). b64_facts (b mod 16 * 4).
    cbn [b64encode List.filter strip_padding length].
    rewrite Hws, Hws0, Hws1, Hpad, Hpad0, Hpad1. cbn.
    repeat split; [discriminate|].
    rewrite Hix, Hix0, Hix1. eexists; split; [reflexivity|].
    cbn. destruct (sextets_join2 a b Ha Hb) as [E1 E2].
    cbv zeta in E1, E2. rewrite E1, E2. reflexivity.
  - inversion_clear Hbs as [|? ? Ha Hbs']. inversion_clear Hbs' as [|? ? Hb Hbs].
    inversion_clear Hbs as [|? ? Hc Hrest].
    destruct (IH Hrest) as (IHf & IHl & IHs & ix & IHi & IHd).
    destruct (sextets_range a b c Ha Hb Hc) as (R1 & R2 & R3 & R4 & _ & _).
    b64_facts (a / 4). b64_facts (a mod 4 * 16 + b / 16).
    b64_facts (b mod 16 * 4 + c / 64). b64_facts (c mod 64).
    cbn [b64encode List.filter strip_padding length].
    rewrite Hws, Hws0, Hws1, Hws2, Hpad, Hpad0, Hpad1, Hpad2.
    cbn [negb andb b64indices length].
    rewrite IHf, Hix, Hix0, Hix1, Hix2, IHi.
    repeat split.
    + rewrite !Nat2Z.inj_succ. Z.div_mod_to_equations; lia.
    + rewrite !Nat2Z.inj_succ. Z.div_mod_to_equations; lia.
    + eexists; split; [reflexivity|].
      cbn [b64decode]. rewrite IHd.
      destruct (sextets_join3 a b c Ha Hb Hc) as (E1 & E2 & E3).
      cbv zeta in E1, E2, E3. cbv zeta. rewrite E1, E2, E3. reflexivity.
Qed.

Lemma btoa_bytes (bs : list Z) :
  Forall is_byte bs -> btoa bs = Some (string_of_list_ascii (b64encode bs)).
Proof.
  intros H. unfold btoa.
  replace (forallb _ bs) with true; [reflexivity|].
  symmetry. apply forallb_forall. intros x Hx.
  rewrite List.Forall_forall in H. specialize (H x Hx). unfold is_byte in H.
  apply andb_true_intro. split; lia.
Qed.

Lemma atob_btoa (bs : list Z) :
  Forall is_byte bs ->
  atob (string_of_list_ascii (b64encode bs)) = Some bs.
Proof.
  intros H. destruct (b64_round_trip bs H) as (Hf & Hl & Hs & ix & Hi & Hd).
  unfold atob. rewrite list_ascii_of_string_of_list_ascii, Hf.
  apply Z.eqb_eq in Hl. rewrite Hl.
  apply Z.eqb_neq in Hs. rewrite Hs, Hi, Hd. reflexivity.
Qed.

Lemma ToInt16_range (x : spec_float) : is_int16 (ToInt16 x).
Proof.
  unfold is_int16, ToInt16. cbv zeta.
  pose proof (Z.mod_pos_bound (truncate x) 65536 ltac:(lia)).
  destruct (Z.leb_spec 32768 (truncate x mod 65536)); lia.
Qed.

Lemma bytes_of_int16_bytes (z : Z) : Forall is_byte (bytes_of_int16 z).
Proof.
  unfold bytes_of_int16, is_byte. cbv zeta.
  repeat constructor; Z.div_mod_to_equations; lia.
Qed.

Lemma Uint8Array_bytes (a : list Z) :
  Forall is_byte (Uint8Array_of_Int16Array a).
Proof.
  unfold Uint8Array_of_Int16Array.
  induction a as [|z a IH]; [constructor|].
  cbn [flat_map]. apply Forall_app. split; [apply bytes_of_int16_bytes | exact IH].
Qed.

Lemma int16_of_bytes_of_int16 (z : Z) :
  is_int16 z ->
  int16_of_bytes (z mod 65536 mod 256) (z mod 65536 / 256) = z.
Proof.
  unfold is_int16, int16_of_bytes. intros Hz. cbv zeta.
  destruct (Z.leb_spec 32768 (z mod 65536 mod 256 + 256 * (z mod 65536 / 256)));
    Z.div_mod_to_equations; lia.
Qed.

Lemma Int16Array_of_buffer_view (a : list Z) :
  Forall is_int16 a ->
  Int16Array_of_buffer (Uint8Array_of_Int16Array a) = Some a.
Proof.
  unfold Uint8Array_of_Int16Array.
  induction 1 as [|z a Hz _ IH]; [reflexivity|].
  cbn [flat_map bytes_of_int16 app Int16Array_of_buffer].
  rewrite IH, int16_of_bytes_of_int16 by exact Hz. reflexivity.
Qed.

Lemma createBlob_eq (data : list spec_float) :
  createBlob data
  = Some {| mimeType := "audio/pcm;rate=16000";
            data := string_of_list_ascii
                      (b64encode
                         (Uint8Array_of_Int16Array
                            (map (fun x => ToInt16 (mul32768 x)) data))) |}.
Proof.
  unfold createBlob. cbv zeta.
  rewrite (for_loop_store (fun x => ToInt16 (mul32768 x)) data S754_nan 0).
  rewrite for_loop_append.
  rewrite btoa_bytes by apply Uint8Array_bytes. reflexivity.
Qed.

Lemma map_ToUint8_bytes (bs : list Z) :
  Forall is_byte bs -> map ToUint8 bs = bs.
Proof.
  induction 1 as [|b bs Hb _ IH]; [reflexivity|].
  cbn [map]. rewrite IH. f_equal. unfold ToUint8, is_byte in *.
  apply Z.mod_small. lia.
Qed.

Lemma decode_b64encode (bs : list Z) :
  Forall is_byte bs ->
  decode (string_of_list_ascii (b64encode bs)) = Some bs.
Proof.
  intros H. unfold decode. rewrite atob_btoa by exact H.
  rewrite (for_loop_store ToUint8 bs 0 0), map_ToUint8_bytes by exact H.
  reflexivity.
Qed.

Lemma decodeAudioData_mono (bytes : list Z) (rate : Z) (a : list Z) :
  Int16Array_of_buffer bytes = Some a -> a <> [] ->
  supported_rate rate = true ->
  decodeAudioData bytes rate 1
  = Some {| sampleRate := rate; channels := [map div32768 a] |}.
Proof.
  intros Ha Hne Hrate. unfold decodeAudioData. rewrite Ha.
  rewrite Nat.div_1_r. unfold createBuffer.
  replace (Nat.eqb (length a) 0) with false
    by (destruct a; [congruence | reflexivity]).
  rewrite Hrate.
  cbn [supported_channels Nat.leb andb Nat.eqb orb negb sampleRate channels
       replicate].
  rewrite for_loop_S. unfold for_loop at 2. cbn [seq fold_left nth].
  cbn [insert list_insert].
  rewrite (for_loop_fill (fun i => div32768 (nth (i * 1 + 0) a 0))) by lia.
  rewrite Nat.sub_diag, app_nil_r.
  unfold for_loop. cbn [seq fold_left insert list_insert].
  do 3 f_equal.
  transitivity (map div32768 (map (fun i => nth i a 0) (seq 0 (length a))));
    [|rewrite map_nth_seq; reflexivity].
  rewrite map_map. apply map_ext. intros i. f_equal. f_equal. lia.
Qed.

Lemma F2Q_div32768 (z : Z) : (F2Q (div32768 z) == z # 32768)%Q.
Proof. destruct z; reflexivity. Qed.

Lemma ToInt16_small (x : spec_float) :
  -32768 <= truncate x < 32768 -> ToInt16 x = truncate x.
Proof.
  intros H. unfold ToInt16. cbv zeta.
  destruct (Z.leb_spec 32768 (truncate x mod 65536));
    Z.div_mod_to_equations; lia.
Qed.

Lemma shiftl_scaled (m : positive) (k : positive) :
  Z.shiftl (Zpos m) (Zneg k + 15) = Zpos m * 32768 / 2 ^ Zpos k.
Proof.
  replace (Zneg k + 15) with (15 + Zneg k) by lia.
  rewrite <- Z.shiftl_shiftl by lia.
  rewrite (Z.shiftl_mul_pow2 (Zpos m) 15) by lia.
  rewrite Z.shiftl_div_pow2 by lia.
  reflexivity.
Qed.

Lemma Qabs_Qmake_diff (a m : Z) (c P : positive) :
  - Zpos P <= a * Zpos P - m * Zpos c <= Zpos P ->
  (Qabs ((a # c) - (m # P)) <= 1 # c)%Q.
Proof.
  intros H. apply Qabs_Qle_condition.
  unfold Qle, Qminus, Qplus, Qopp. cbn [Qnum Qden].
  rewrite !Pos2Z.inj_mul. nia.
Qed.

(** The value of a finite float with a negative exponent, and what the
    encoder stores for it. *)
Lemma truncate_scaled (s : bool) (m k : positive) :
  truncate (mul32768 (S754_finite s m (Zneg k)))
  = if s then - (Zpos m * 32768 / 2 ^ Zpos k)
    else Zpos m * 32768 / 2 ^ Zpos k.
Proof. cbn [mul32768 truncate]. rewrite shiftl_scaled. reflexivity. Qed.

Lemma quantization_error_frac (s : bool) (m k : positive) :
  (if s then Zpos m <= 2 ^ Zpos k else Zpos m < 2 ^ Zpos k) ->
  let x := S754_finite s m (Zneg k) in
  (Qabs (F2Q (div32768 (ToInt16 (mul32768 x))) - F2Q x) <= 1 # 32768)%Q.
Proof.
  intros Hm x. subst x.
  assert (HP : 0 < 2 ^ Zpos k) by (apply Z.pow_pos_nonneg; lia).
  assert (HPp : Zpos (2 ^ k) = 2 ^ Zpos k) by apply Pos2Z.inj_pow.
  pose proof (Z.mul_div_le (Zpos m * 32768) (2 ^ Zpos k) HP) as Hd1.
  pose proof (Z.mul_succ_div_gt (Zpos m * 32768) (2 ^ Zpos k) HP) as Hd2.
  pose proof (truncate_scaled s m k) as Ht.
  rewrite F2Q_div32768.
  set (a := Zpos m * 32768 / 2 ^ Zpos k) in *.
  destruct s.
  - rewrite ToInt16_small by (rewrite Ht; nia).
    rewrite Ht. cbn [F2Q].
    change (- (Zpos m # 2 ^ k))%Q with (- Zpos m # 2 ^ k)%Q.
    apply Qabs_Qmake_diff. rewrite HPp. nia.
  - rewrite ToInt16_small by (rewrite Ht; nia).
    rewrite Ht. cbn [F2Q].
    apply Qabs_Qmake_diff. rewrite HPp. nia.
Qed.

Lemma quantization_error (x : spec_float) :
  is_finite x = true -> (-1 <= F2Q x)%Q -> (F2Q x < 1)%Q ->
  (Qabs (F2Q (div32768 (ToInt16 (mul32768 x))) - F2Q x) <= 1 # 32768)%Q.
Proof.
  intros Hfin Hlo Hhi.
  destruct x as [[|]|[|]| |s m e]; try discriminate Hfin;
    [vm_compute; discriminate | vm_compute; discriminate |].
  destruct e as [|p|k].
  - (* exponent zero: the only value in range is -1 *)
    cbn [F2Q] in Hlo, Hhi. rewrite Z.pow_0_r, Z.mul_1_r in Hlo, Hhi.
    destruct s; unfold Qlt, Qle, inject_Z, Qopp in Hlo, Hhi;
      cbn [Qnum Qden] in Hlo, Hhi; [|lia].
    assert (m = 1%positive) by lia. subst m. vm_compute. discriminate.
  - cbn [F2Q] in Hlo, Hhi.
    assert (2 <= 2 ^ Zpos p) by (apply (Z.pow_le_mono_r 2 1 (Zpos p)); lia).
    destruct s; unfold Qlt, Qle, inject_Z, Qopp in Hlo, Hhi;
      cbn [Qnum Qden] in Hlo, Hhi; nia.
  - apply quantization_error_frac.
    assert (HPp : Zpos (2 ^ k) = 2 ^ Zpos k) by apply Pos2Z.inj_pow.
    cbn [F2Q] in Hlo, Hhi.
    destruct s; unfold Qlt, Qle, Qopp in Hlo, Hhi;
      cbn [Qnum Qden] in Hlo, Hhi; lia.
Qed.

(** *** Test vectors *)

(** The vectors of RFC 4648, section 10. *)
Example btoa_rfc4648 :
  btoa [102] = Some "Zg=="%string
  /\ btoa [102; 111] = Some "Zm8="%string
  /\ btoa [102; 111; 111] = Some "Zm9v"%string
  /\ btoa [102; 111; 111; 98; 97; 114] = Some "Zm9vYmFy"%string
  /\ btoa [102; 256] = None.
Proof. repeat split. Qed.

(** [atob] accepts white space and missing padding, and refuses a length
    that leaves remainder one. *)
Example atob_forgiving :
  atob "Zm9vYmFy" = Some [102; 111; 111; 98; 97; 114]
  /\ atob "Zm9v YmE=" = Some [102; 111; 111; 98; 97]
  /\ atob "Zm9vYg" = Some [102; 111; 111; 98]
  /\ atob "Zm9vY" = None
  /\ atob "Zm9v*mFy" = None.
Proof. repeat split. Qed.

(** 0.5 is stored as 16384, -1.0 as -32768, and 1.5 wraps to -16384. *)
Example createBlob_samples :
  createBlob [half; minus_one; one_and_a_half]
  = Some {| mimeType := "audio/pcm;rate=16000"; data := "AEAAgADA" |}
  /\ decode "AEAAgADA" = Some [0; 64; 0; 128; 0; 192]
  /\ round_trip [half; minus_one; one_and_a_half]
     = Some [S754_finite false 16384 (-15); S754_finite true 32768 (-15);
             S754_finite true 16384 (-15)].
Proof. repeat split. Qed.

(** The exponent shift of [mul32768] is the binary64 product: at 0.5, at
    1.5, at the smallest and the largest magnitudes of binary32 and at a
    sample with a full mantissa. *)
Example mul32768_is_the_binary64_product :
  Forall (fun x =>
            Qeq_bool (F2Q (SFmul 53 1024 x
                                 (binary_normalize 53 1024 32768 0 false)))
                     (F2Q (mul32768 x)) = true)
         [half; one_and_a_half; S754_finite false 1 (-149);
          S754_finite true 16777215 104; S754_finite false 11184811 (-25)].
Proof. repeat constructor. Qed.

(** What a store into an [Int16Array] makes of NaN, of the infinities, of
    a fraction and of the products that leave the 16-bit range. *)
Example ToInt16_values :
  ToInt16 S754_nan = 0
  /\ ToInt16 (S754_infinity false) = 0
  /\ ToInt16 (S754_finite true 3 (-1)) = -1
  /\ ToInt16 (mul32768 one) = -32768
  /\ ToInt16 (mul32768 (S754_finite false 1 1)) = 0
  /\ ToInt16 (mul32768 (S754_finite true 3 (-1))) = 16384.
Proof. repeat split. Qed.

(** A payload with an odd number of bytes is refused by [Int16Array]. *)
Example decodeAudioData_odd :
  decode "AAAA" = Some [0; 0; 0] /\ decodeAudioData [0; 0; 0] 24000 1 = None.
Proof. split; reflexivity. Qed.

(** *** The encoder's contract *)

Lemma le16_bytes_of_int16 (z : Z) : le16 z = bytes_of_int16 z.
Proof.
  unfold le16, bytes_of_int16. cbv zeta.
  f_equal; [|f_equal]; Z.div_mod_to_equations; lia.
Qed.

Lemma pcm_s16le_view (samples : list spec_float) :
  pcm_s16le samples = Uint8Array_of_Int16Array (map s16 samples).
Proof.
  unfold pcm_s16le, Uint8Array_of_Int16Array.
  induction samples as [|x l IH]; [reflexivity|].
  cbn [flat_map map]. rewrite IH, le16_bytes_of_int16. reflexivity.
Qed.

Lemma createBlob_encode (samples : list spec_float) :
  createBlob samples = Some (encode samples).
Proof.
  rewrite createBlob_eq. unfold encode, base64.
  rewrite pcm_s16le_view. reflexivity.
Qed.

Lemma pcm_s16le_length (samples : list spec_float) :
  length (pcm_s16le samples) = (2 * length samples)%nat.
Proof.
  unfold pcm_s16le. induction samples as [|x l IH]; [reflexivity|].
  cbn [flat_map le16 app length]. rewrite IH. lia.
Qed.

Lemma s16_wraps (x : spec_float) :
  (s16 x - truncate (mul32768 x)) mod 65536 = 0.
Proof.
  unfold s16, ToInt16. cbv zeta.
  destruct (Z.leb_spec 32768 (truncate (mul32768 x) mod 65536));
    Z.div_mod_to_equations; lia.
Qed.

(** The integer part of the product, from the sample's value. *)
Lemma truncate_integer_part (s : bool) (m : positive) (e : Z) :
  truncate (mul32768 (S754_finite s m e))
  = integer_part (F2Q (S754_finite s m e) * inject_Z 32768).
Proof.
  unfold integer_part. destruct e as [|p|k].
  - cbn [mul32768 truncate F2Q]. change (0 + 15) with 15.
    rewrite Z.shiftl_mul_pow2 by lia. change (2 ^ 15) with 32768.
    rewrite Z.pow_0_r, Z.mul_1_r.
    destruct s; unfold Qmult, Qopp, inject_Z; cbn [Qnum Qden];
      change (Zpos (1 * 1)) with 1; rewrite Z.quot_1_r; lia.
  - cbn [mul32768 truncate F2Q].
    rewrite Z.shiftl_mul_pow2 by lia. rewrite Z.pow_add_r by lia.
    change (2 ^ 15) with 32768.
    destruct s; unfold Qmult, Qopp, inject_Z; cbn [Qnum Qden];
      change (Zpos (1 * 1)) with 1; rewrite Z.quot_1_r; lia.
  - assert (HP : 0 < 2 ^ Zpos k) by (apply Z.pow_pos_nonneg; lia).
    rewrite truncate_scaled. cbn [F2Q].
    destruct s; unfold Qmult, Qopp, inject_Z; cbn [Qnum Qden];
      rewrite Pos.mul_1_r, Pos2Z.inj_pow.
    + rewrite Z.mul_opp_l, Z.quot_opp_l by lia.
      rewrite Z.quot_div_nonneg by lia. reflexivity.
    + rewrite Z.quot_div_nonneg by lia. reflexivity.
Qed.

Lemma ToInt16_int16_of (v : spec_float) : ToInt16 v = int16_of (truncate v).
Proof.
  unfold ToInt16, int16_of. cbv zeta.
  destruct (Z.leb_spec 32768 (truncate v mod 65536));
    Z.div_mod_to_equations; lia.
Qed.

(** What is stored for a sample, from the sample's value. *)
Lemma s16_scaled (x : spec_float) :
  (is_finite x = true -> s16 x = scaled_int16 x)
  /\ (is_finite x = false -> s16 x = 0).
Proof.
  split; intros Hfin.
  - unfold s16, scaled_int16. rewrite ToInt16_int16_of.
    destruct x as [s| | |s m e]; try discriminate.
    + destruct s; reflexivity.
    + rewrite truncate_integer_part. reflexivity.
  - destruct x as [s|s| |s m e]; try discriminate; reflexivity.
Qed.

Lemma onaudioprocess_frames (frames : list (list spec_float))
    (s : LiveTutor.State) :
  LiveTutor.calls
    (fold_left (fun acc frame => LiveTutor.onaudioprocess frame acc) frames s)
  = LiveTutor.calls s
    ++ map (fun frame => LiveTutor.SendRealtimeInput (encode frame)) frames.
Proof.
  revert s. induction frames as [|f l IH]; intros s.
  - cbn. rewrite app_nil_r. reflexivity.
  - cbn [fold_left map]. rewrite IH.
    unfold LiveTutor.onaudioprocess. rewrite createBlob_encode.
    cbn [LiveTutor.call LiveTutor.calls]. rewrite <- app_assoc. reflexivity.
Qed.

(** C6. For every [Float32Array], [createBlob] returns (it raises no
    exception) the object whose [mimeType] is ["audio/pcm;rate=16000"] and
    whose [data] is the base64 text of the samples, each multiplied by 32768
    and stored as a 16-bit signed little-endian integer: two bytes per
    sample, which [decode] gives back. The stored integer is the product's
    integer part reduced modulo [2^16], not clamped: for a finite sample of
    value [v] it is the signed 16-bit integer congruent to the integer part
    of [v * 32768], and 0 for NaN and the infinities; 1.5 is stored as
    -16384, where clamping would store 32767. The result is a function of
    the samples alone, and [onaudioprocess] sends one message per captured
    frame, in capture order. *)
Theorem createBlob_contract (samples : list spec_float) :
  createBlob samples
  = Some {| mimeType := "audio/pcm;rate=16000";
            data := base64 (pcm_s16le samples) |}
  /\ length (pcm_s16le samples) = (2 * length samples)%nat
  /\ decode (base64 (pcm_s16le samples)) = Some (pcm_s16le samples)
  /\ (forall x, is_int16 (s16 x)
                /\ (s16 x - truncate (mul32768 x)) mod 65536 = 0)
  /\ (forall x, (is_finite x = true ->
                 s16 x = int16_of (integer_part (F2Q x * inject_Z 32768)))
                /\ (is_finite x = false -> s16 x = 0))
  /\ (s16 one_and_a_half = -16384 /\ s16_clamped one_and_a_half = 32767)
  /\ (forall (frames : list (list spec_float)) (s : LiveTutor.State),
        LiveTutor.calls
          (fold_left (fun acc frame => LiveTutor.onaudioprocess frame acc)
                     frames s)
        = LiveTutor.calls s
          ++ map (fun frame => LiveTutor.SendRealtimeInput (encode frame))
                 frames).
Proof.
  split; [apply createBlob_encode|].
  split; [apply pcm_s16le_length|].
  split.
  { unfold base64. apply decode_b64encode.
    rewrite pcm_s16le_view. apply Uint8Array_bytes. }
  split.
  { intros x. split; [apply ToInt16_range | apply s16_wraps]. }
  split; [exact s16_scaled|].
  split; [split; reflexivity|].
  apply onaudioprocess_frames.
Qed.

(** A half and one and a half, in one frame. *)
Lemma createBlob_contract_witness :
  is_finite one_and_a_half = true
  /\ createBlob [half; one_and_a_half]
     = Some {| mimeType := "audio/pcm;rate=16000"; data := "AEAAwA==" |}
  /\ s16 one_and_a_half
     = int16_of (integer_part (F2Q one_and_a_half * inject_Z 32768))
  /\ int16_of (integer_part (F2Q one_and_a_half * inject_Z 32768)) = -16384.
Proof.
  pose proof (createBlob_contract [half; one_and_a_half])
    as (Hb & _ & _ & _ & Hs & _).
  split; [reflexivity|]. split; [rewrite Hb; reflexivity|].
  split; [exact (proj1 (Hs one_and_a_half) eq_refl) | reflexivity].
Defined.

(** *** The round trip *)

Lemma round_trip_eq (x : list spec_float) :
  x <> [] -> round_trip x = Some (map (fun v => div32768 (s16 v)) x).
Proof.
  intros Hne.
  unfold round_trip. rewrite createBlob_eq. cbn [data].
  rewrite decode_b64encode by apply Uint8Array_bytes.
  rewrite (decodeAudioData_mono _ 24000 (map s16 x)).
  - cbn [channels nth]. rewrite map_map. reflexivity.
  - apply Int16Array_of_buffer_view.
    apply List.Forall_forall. intros z Hz.
    apply in_map_iff in Hz. destruct Hz as (v & <- & _).
    apply ToInt16_range.
  - destruct x; [congruence | discriminate].
  - reflexivity.
Qed.

(** C1, as amended. For every buffer that is not empty and whose samples
    all lie in [-1.0, 1.0), decoding the encoded form yields a buffer of the
    same length that differs from it by at most 1/32768 at every index. *)
Theorem pcm_round_trip (x : list spec_float) :
  x <> [] -> Forall in_half_open_range x ->
  exists y, round_trip x = Some y /\ within_quantization x y.
Proof.
  intros Hne Hx. exists (map (fun v => div32768 (s16 v)) x).
  split; [apply round_trip_eq, Hne|].
  split; [apply length_map|].
  intros i xi yi Hxi Hyi.
  rewrite list_lookup_fmap, Hxi in Hyi. cbn in Hyi.
  injection Hyi as <-.
  rewrite List.Forall_forall in Hx.
  destruct (Hx xi) as (Hfin & Hlo & Hhi).
  { apply list_elem_of_In. apply list_elem_of_lookup. exists i. exact Hxi. }
  apply quantization_error; assumption.
Qed.

Lemma pcm_round_trip_witness :
  [half; minus_one; S754_zero false] <> []
  /\ Forall in_half_open_range [half; minus_one; S754_zero false]
  /\ exists y, round_trip [half; minus_one; S754_zero false] = Some y
               /\ within_quantization [half; minus_one; S754_zero false] y.
Proof.
  split; [discriminate|]. split.
  - repeat constructor; vm_compute; congruence.
  - apply (pcm_round_trip [half; minus_one; S754_zero false]).
    + discriminate.
    + repeat constructor; vm_compute; congruence.
Defined.

(** C1, as stated, fails at the sample 1.0: it is stored as -32768 and
    decoded as -1.0. It also fails at the empty buffer, for which
    [createBuffer] raises an exception. *)
Lemma pcm_round_trip_one_counterexample :
  (Forall in_closed_range [one]
   /\ round_trip [one] = Some [S754_finite true 32768 (-15)]
   /\ ~ (exists y, round_trip [one] = Some y /\ within_quantization [one] y))
  /\ (Forall in_closed_range [] /\ round_trip [] = None).
Proof.
  split; [|split; [constructor | vm_compute; reflexivity]].
  split; [repeat constructor; vm_compute; congruence|].
  split; [vm_compute; reflexivity|].
  intros (y & Hy & _ & Hq).
  assert (Hr : round_trip [one] = Some [S754_finite true 32768 (-15)])
    by (vm_compute; reflexivity).
  rewrite Hr in Hy. injection Hy as <-.
  specialize (Hq 0%nat one (S754_finite true 32768 (-15)) eq_refl eq_refl).
  vm_compute in Hq. apply Hq. reflexivity.
Qed.

End PCMProofs.

(** ** The live voice session *)

Module LiveTutorProofs.

Import PCM LiveTutor LiveTutorSpec.

(** *** Comparison of numbers *)

Lemma SFcompare_antisym (a b : spec_float) (c : comparison) :
  SFcompare a b = Some c -> SFcompare b a = Some (CompOpp c).
Proof.
  destruct a as [sa|sa| |sa ma ea], b as [sb|sb| |sb mb eb];
    cbn [SFcompare]; try discriminate;
    try (destruct sa; intros [= <-]; reflexivity);
    try (destruct sb; intros [= <-]; reflexivity);
    try (destruct sa, sb; intros [= <-]; reflexivity).
  intros [= <-]. f_equal.
  rewrite (Z.compare_antisym ea eb).
  change (Pcompare mb ma Eq) with (Pos.compare mb ma).
  change (Pcompare ma mb Eq) with (Pos.compare ma mb).
  rewrite (Pos.compare_antisym ma mb).
  destruct sa, sb; try reflexivity;
    destruct (ea ?= eb); try reflexivity;
    destruct (ma ?= mb)%positive; reflexivity.
Qed.

Lemma SFcompare_refl (a b : spec_float) (c : comparison) :
  SFcompare a b = Some c -> SFcompare a a = Some Eq.
Proof.
  destruct a as [sa|sa| |sa ma ea]; cbn [SFcompare].
  - reflexivity.
  - destruct sa; reflexivity.
  - destruct b; discriminate.
  - intros _. f_equal. rewrite Z.compare_refl.
    change (Pcompare ma ma Eq) with (Pos.compare ma ma).
    rewrite Pos.compare_refl. destruct sa; reflexivity.
Qed.

(** [Math.max(cursor, t)] is the cursor when [t <= cursor]. *)
Lemma Math_max_cursor (cursor t : spec_float) :
  SFleb t cursor = true -> same_number (Math_max cursor t) cursor.
Proof.
  unfold SFleb, same_number, SFeqb, Math_max. intros H.
  destruct (SFcompare t cursor) as [c|] eqn:Hc; [|discriminate].
  pose proof (SFcompare_antisym _ _ _ Hc) as Hc'.
  pose proof (SFcompare_refl _ _ _ Hc') as Hr.
  rewrite Hc'. destruct c; try discriminate; cbn [CompOpp].
  - destruct cursor as [[|]| | |]; rewrite ?Hc, ?Hr; reflexivity.
  - rewrite Hr. reflexivity.
Qed.


(** *** The handlers, field by field *)

Lemma stop_calls (l : list AudioBufferSourceNode) (s : State) :
  fold_left (fun acc source => call (SourceStop source) acc) l s
  = {| isConnected := isConnected s; error := error s;
       isSpeaking := isSpeaking s; inputContextRef := inputContextRef s;
       outputContextRef := outputContextRef s; sessionRef := sessionRef s;
       nextStartTimeRef := nextStartTimeRef s; sourcesRef := sourcesRef s;
       calls := calls s ++ map SourceStop l; fresh := fresh s |}.
Proof.
  revert s. induction l as [|x l IH]; intros s.
  - destruct s. cbn. rewrite app_nil_r. reflexivity.
  - cbn [fold_left]. rewrite IH. cbn. rewrite <- app_assoc. reflexivity.
Qed.

Lemma stopSession_eq (s : State) :
  stopSession s
  = {| isConnected := false; error := error s; isSpeaking := false;
       inputContextRef := None; outputContextRef := None; sessionRef := None;
       nextStartTimeRef := nextStartTimeRef s; sourcesRef := [];
       calls := calls s ++ releases s ++ map SourceStop (sourcesRef s);
       fresh := fresh s |}.
Proof.
  unfold stopSession, stop_sources, releases.
  destruct s as [ic er sp [ci|] [co|] [ss|] nx srcs cl fr];
    cbn; rewrite stop_calls; cbn; rewrite <- ?app_assoc; reflexivity.
Qed.

Lemma interrupt_eq (s : State) :
  interrupt s
  = {| isConnected := isConnected s; error := error s; isSpeaking := false;
       inputContextRef := inputContextRef s;
       outputContextRef := outputContextRef s; sessionRef := sessionRef s;
       nextStartTimeRef := zero; sourcesRef := [];
       calls := calls s ++ map SourceStop (sourcesRef s);
       fresh := fresh s |}.
Proof.
  unfold interrupt, stop_sources. rewrite stop_calls. reflexivity.
Qed.

Lemma issued_app (s s' : State) (l : list HostCall) :
  calls s' = calls s ++ l -> issued s s' = l.
Proof. intros H. unfold issued. rewrite H. apply drop_app_length. Qed.

Lemma stopSession_issued (s : State) :
  issued s (stopSession s) = releases s ++ map SourceStop (sourcesRef s).
Proof. apply issued_app. rewrite stopSession_eq. reflexivity. Qed.

Lemma stopSession_Disconnected (s : State) : Disconnected (stopSession s).
Proof. rewrite stopSession_eq. repeat split. Qed.

(** *** Stop *)

(** C4. [stopSession] in a session that is already torn down (session and
    audio-context references null, source set empty) issues no host call, so
    nothing can raise, and changes nothing but the two flags, which it
    clears: in the state Disconnected it is the identity. Called twice in a
    row from any state, the second call issues no host call and leaves the
    state of the first, which is Disconnected. *)
Theorem stopSession_idempotent :
  (forall s : State,
     torn_down s ->
     issued s (stopSession s) = []
     /\ stopSession s = setIsSpeaking false (setIsConnected false s)
     /\ Disconnected (stopSession s)
     /\ (Disconnected s -> stopSession s = s))
  /\ (forall s : State,
        issued (stopSession s) (stopSession (stopSession s)) = []
        /\ stopSession (stopSession s) = stopSession s
        /\ Disconnected (stopSession (stopSession s))).
Proof.
  assert (H : forall s : State,
            torn_down s ->
            stopSession s = setIsSpeaking false (setIsConnected false s)).
  { intros s (Hs & Hi & Ho & Hq). rewrite stopSession_eq.
    unfold releases. rewrite Hs, Hi, Ho, Hq. cbn. rewrite app_nil_r.
    unfold setIsSpeaking, setIsConnected. cbn.
    rewrite Hs, Hi, Ho, Hq. reflexivity. }
  assert (H' : forall s : State, Disconnected s -> stopSession s = s).
  { intros s (Hc & Hp & Ht). rewrite (H s Ht).
    destruct s. cbn in *. subst. reflexivity. }
  split.
  - intros s Ht. repeat split; try apply stopSession_Disconnected.
    + rewrite stopSession_issued. destruct Ht as (Hs & Hi & Ho & Hq).
      unfold releases. rewrite Hs, Hi, Ho, Hq. reflexivity.
    + apply H, Ht.
    + apply H'.
  - intros s. pose proof (stopSession_Disconnected s) as Hd.
    rewrite (H' _ Hd). repeat split; try apply Hd.
    unfold issued. apply drop_all.
Qed.

(** A fresh component is torn down; a speaking session is stopped twice. *)
Lemma stopSession_idempotent_witness :
  torn_down initial
  /\ issued initial (stopSession initial) = []
  /\ stopSession initial = initial
  /\ stopSession (stopSession speaking) = stopSession speaking.
Proof.
  assert (Ht : torn_down initial) by (repeat split).
  assert (Hd : Disconnected initial) by (repeat split).
  destruct stopSession_idempotent as [H1 H2].
  destruct (H1 initial Ht) as (Hi & _ & _ & Hid).
  split; [exact Ht|]. split; [exact Hi|]. split; [exact (Hid Hd)|].
  exact (proj1 (proj2 (H2 speaking))).
Defined.

(** *** Teardown order *)

Lemma releases_are_releases (s : State) :
  Forall (fun c => is_release c = true /\ is_stop c = false) (releases s).
Proof.
  unfold releases.
  destruct (sessionRef s), (inputContextRef s), (outputContextRef s);
    repeat constructor.
Qed.

Lemma released_before_drain_app (l1 : list HostCall)
    (l2 : list AudioBufferSourceNode) :
  Forall (fun c => is_release c = true /\ is_stop c = false) l1 ->
  released_before_drain (l1 ++ map SourceStop l2).
Proof.
  intros H1 i j c d Hi Hj Hc Hd.
  destruct (Nat.lt_ge_cases i (length l1)) as [Hlt|Hge].
  - destruct (Nat.lt_ge_cases j (length l1)) as [Hlt'|Hge']; [|lia].
    rewrite lookup_app_l in Hj by exact Hlt'.
    rewrite List.Forall_forall in H1.
    destruct (H1 d) as [_ Hns]; [|congruence].
    apply list_elem_of_In, list_elem_of_lookup. eauto.
  - rewrite lookup_app_r in Hi by exact Hge.
    rewrite list_lookup_fmap in Hi.
    destruct (l2 !! (i - length l1)%nat); cbn in Hi; [|discriminate].
    injection Hi as <-. discriminate.
Qed.

(** C5, as amended. Every call to [stopSession] releases the duplex
    connection and the audio contexts first (session, input context, output
    context, each when present) and then, in the same synchronous call,
    stops every tracked buffer source and clears the tracking set. *)
Theorem stopSession_releases_then_drains (s : State) :
  issued s (stopSession s) = releases s ++ map SourceStop (sourcesRef s)
  /\ released_before_drain (issued s (stopSession s))
  /\ (forall source, source ∈ sourcesRef s ->
                     SourceStop source ∈ issued s (stopSession s))
  /\ sourcesRef (stopSession s) = []
  /\ sessionRef (stopSession s) = None
  /\ inputContextRef (stopSession s) = None
  /\ outputContextRef (stopSession s) = None.
Proof.
  rewrite stopSession_issued. split; [reflexivity|].
  split; [apply released_before_drain_app, releases_are_releases|].
  split.
  { intros source Hin. apply elem_of_app. right.
    apply list_elem_of_fmap. exists source. split; [reflexivity | exact Hin]. }
  rewrite stopSession_eq. repeat split.
Qed.

(** The teardown order C5 states does not hold: in a speaking session the
    releases come first and the stop of the source last. *)
Lemma stopSession_drain_order_counterexample :
  issued speaking (stopSession speaking)
  = [SessionClose session0;
     ContextClose {| contextId := 0; contextRate := 16000 |};
     ContextClose {| contextId := 1; contextRate := 24000 |};
     SourceStop {| nodeId := 2; buffer := silence |}]
  /\ ~ drained_before_release (issued speaking (stopSession speaking)).
Proof.
  assert (H : issued speaking (stopSession speaking)
              = [SessionClose session0;
                 ContextClose {| contextId := 0; contextRate := 16000 |};
                 ContextClose {| contextId := 1; contextRate := 24000 |};
                 SourceStop {| nodeId := 2; buffer := silence |}])
    by (vm_compute; reflexivity).
  split; [exact H|].
  rewrite H. intros Hd.
  specialize (Hd 3%nat 0%nat _ _ eq_refl eq_refl eq_refl eq_refl). lia.
Qed.

(** *** Messages *)

Ltac setters :=
  unfold set_sourcesRef, set_nextStartTimeRef, set_sessionRef,
    set_inputContextRef, set_outputContextRef, setIsSpeaking, setIsConnected,
    setError, call, alloc;
  cbn [isConnected error isSpeaking inputContextRef outputContextRef
       sessionRef nextStartTimeRef sourcesRef calls fresh].

Lemma onmessage_chunk (msg : LiveServerMessage) (buffer : AudioBuffer)
    (t : spec_float) (s : State) :
  is_chunk msg buffer -> outputContextRef s <> None ->
  onmessage msg t s
  = {| isConnected := isConnected s; error := error s; isSpeaking := true;
       inputContextRef := inputContextRef s;
       outputContextRef := outputContextRef s; sessionRef := sessionRef s;
       nextStartTimeRef :=
         number_add (Math_max (nextStartTimeRef s) t) (duration buffer);
       sourcesRef := sourcesRef s ++ [{| nodeId := fresh s; buffer := buffer |}];
       calls := calls s
                ++ [SourceStart {| nodeId := fresh s; buffer := buffer |}
                                (Math_max (nextStartTimeRef s) t)];
       fresh := S (fresh s) |}.
Proof.
  intros (b & Hb & Hne & (bytes & Hd & Hbuf) & Hi) Hctx.
  unfold onmessage, after_audio. rewrite Hb, Hi.
  apply String.eqb_neq in Hne. rewrite Hne.
  cbn [setIsSpeaking outputContextRef].
  destruct (outputContextRef s) as [ctx|] eqn:Ho; [|congruence].
  rewrite Hd, Hbuf. setters. rewrite Ho. reflexivity.
Qed.



Lemma silence_decodes : decodes_to "AAAAAAAA" silence.
Proof. exists [0; 0; 0; 0; 0; 0]. split; vm_compute; reflexivity. Defined.

Lemma chunk_is_chunk : is_chunk chunk silence.
Proof.
  exists "AAAAAAAA"%string.
  split; [reflexivity|]. split; [discriminate|].
  split; [exact silence_decodes | reflexivity].
Defined.



(** *** The playback schedule *)

Lemma scheduled_starts_app (l1 l2 : list HostCall) :
  scheduled_starts (l1 ++ l2) = scheduled_starts l1 ++ scheduled_starts l2.
Proof.
  induction l1 as [|c l1 IH]; [reflexivity|].
  destruct c; cbn; rewrite ?IH; reflexivity.
Qed.

(** The chunks of [msgs] are scheduled as [schedule] says, from the cursor
    of [s]. *)
Lemma handle_all_chunks (msgs : list (LiveServerMessage * spec_float))
    (buffers : list AudioBuffer) :
  Forall2 (fun mt buffer => is_chunk (fst mt) buffer) msgs buffers ->
  forall s : State,
    outputContextRef s <> None ->
    exists l,
      calls (handle_all msgs s) = calls s ++ l
      /\ scheduled_starts l
         = schedule (nextStartTimeRef s)
                    (zip (map snd msgs) (map duration buffers)).
Proof.
  induction 1 as [|[msg t] buffer msgs buffers Hc _ IH]; intros s Ho.
  - exists []. cbn. rewrite app_nil_r. split; reflexivity.
  - cbn [handle_all fold_left fst snd].
    cbn [fst] in Hc. rewrite (onmessage_chunk msg buffer t s Hc Ho).
    edestruct IH as (l & Hl & Hs); [|fold handle_all; rewrite Hl].
    + cbn [outputContextRef]. exact Ho.
    + cbn [calls nextStartTimeRef] in *. eexists. split.
      * rewrite <- app_assoc. reflexivity.
      * cbn [app scheduled_starts map zip zip_with schedule].
        cbn [map snd]. rewrite Hs. reflexivity.
Qed.

(** In a schedule, a chunk that arrives before its predecessor ends starts
    where the predecessor ends. *)
Lemma schedule_gapless (chunks : list (spec_float * spec_float)) :
  forall (cursor : spec_float) (k : nat) (start start' t d t' d' : spec_float),
    schedule cursor chunks !! k = Some start ->
    schedule cursor chunks !! S k = Some start' ->
    chunks !! k = Some (t, d) ->
    chunks !! S k = Some (t', d') ->
    SFleb t' (number_add start d) = true ->
    same_number start' (number_add start d).
Proof.
  induction chunks as [|[t0 d0] chunks IH];
    intros cursor k start start' t d t' d' Hs Hs' Hc Hc' Hle; [discriminate|].
  destruct k as [|k].
  - cbn in Hs, Hc. injection Hs as <-. injection Hc as <- <-.
    destruct chunks as [|[t1 d1] rest]; [discriminate|].
    cbn in Hs', Hc'. injection Hs' as <-. injection Hc' as <- <-.
    apply Math_max_cursor. exact Hle.
  - cbn [schedule] in Hs, Hs'. cbn in Hs, Hs', Hc, Hc'.
    exact (IH _ k _ _ _ _ _ _ Hs Hs' Hc Hc' Hle).
Qed.

Lemma schedule_length (chunks : list (spec_float * spec_float))
    (cursor : spec_float) :
  length (schedule cursor chunks) = length chunks.
Proof.
  revert cursor. induction chunks as [|[t d] chunks IH]; intros cursor;
    [reflexivity|]. cbn. rewrite IH. reflexivity.
Qed.

(** C2. With an output context, a decoded chunk is started at the maximum
    of the cursor and the clock time at which it is handled, and the cursor
    then advances by the chunk's duration. So the chunks of a sequence of
    audio messages, handled in arrival order, are started as the schedule
    says, one start per chunk; and a chunk handled before its predecessor's
    playback ends is started where the predecessor ends: no gap, no
    overlap. *)
Theorem gapless_scheduling (s : State)
    (msgs : list (LiveServerMessage * spec_float))
    (buffers : list AudioBuffer) :
  outputContextRef s <> None ->
  Forall2 (fun mt buffer => is_chunk (fst mt) buffer) msgs buffers ->
  (forall (msg : LiveServerMessage) (buffer : AudioBuffer) (t : spec_float),
     is_chunk msg buffer ->
     issued s (onmessage msg t s)
     = [SourceStart {| nodeId := fresh s; buffer := buffer |}
                    (Math_max (nextStartTimeRef s) t)]
     /\ nextStartTimeRef (onmessage msg t s)
        = number_add (Math_max (nextStartTimeRef s) t) (duration buffer))
  /\ scheduled_starts (issued s (handle_all msgs s))
     = schedule (nextStartTimeRef s)
                (zip (map snd msgs) (map duration buffers))
  /\ length (scheduled_starts (issued s (handle_all msgs s))) = length msgs
  /\ forall (k : nat) (start start' t' : spec_float) (buffer : AudioBuffer),
       scheduled_starts (issued s (handle_all msgs s)) !! k = Some start ->
       scheduled_starts (issued s (handle_all msgs s)) !! S k = Some start' ->
       buffers !! k = Some buffer ->
       map snd msgs !! S k = Some t' ->
       SFleb t' (number_add start (duration buffer)) = true ->
       same_number start' (number_add start (duration buffer)).
Proof.
  intros Ho Hc. split.
  { intros msg buffer t Hm. rewrite (onmessage_chunk msg buffer t s Hm Ho).
    split; [|reflexivity]. apply issued_app. reflexivity. }
  destruct (handle_all_chunks msgs buffers Hc s Ho) as (l & Hl & Hs).
  rewrite (issued_app _ _ _ Hl), Hs.
  pose proof (Forall2_length _ _ _ Hc) as Hlen.
  split; [reflexivity|]. split.
  { rewrite schedule_length, length_zip_with, !length_map. lia. }
  intros k start start' t' buffer Hk Hk' Hb Ht' Hle.
  assert (Hkl : (k < length msgs)%nat).
  { apply lookup_lt_Some in Hb. lia. }
  destruct (lookup_lt_is_Some_2 (map snd msgs) k) as [t Ht];
    [rewrite length_map; exact Hkl|].
  assert (HSk : (S k < length buffers)%nat).
  { apply lookup_lt_Some in Ht'. rewrite length_map in Ht'. lia. }
  destruct (lookup_lt_is_Some_2 buffers (S k) HSk) as [buffer' Hb'].
  apply (schedule_gapless _ (nextStartTimeRef s) k start start'
           t (duration buffer) t' (duration buffer') Hk Hk'); [| |exact Hle].
  - rewrite lookup_zip_with, Ht, list_lookup_fmap, Hb. reflexivity.
  - rewrite lookup_zip_with, Ht', list_lookup_fmap, Hb'. reflexivity.
Qed.

(** Three chunks of silence handled at clock times 1, 1 and 1: the second
    and the third arrive while their predecessors are playing. *)
Lemma gapless_scheduling_witness :
  outputContextRef connected <> None
  /\ Forall2 (fun mt buffer => is_chunk (fst mt) buffer)
             [(chunk, number_of_Z 1); (chunk, number_of_Z 1);
              (chunk, number_of_Z 1)]
             [silence; silence; silence]
  /\ length (scheduled_starts
               (issued connected
                  (handle_all [(chunk, number_of_Z 1); (chunk, number_of_Z 1);
                               (chunk, number_of_Z 1)] connected))) = 3%nat.
Proof.
  assert (Ho : outputContextRef connected <> None) by discriminate.
  assert (Hc : Forall2 (fun mt buffer => is_chunk (fst mt) buffer)
                 [(chunk, number_of_Z 1); (chunk, number_of_Z 1);
                  (chunk, number_of_Z 1)]
                 [silence; silence; silence])
    by (repeat constructor; exact chunk_is_chunk).
  split; [exact Ho|]. split; [exact Hc|].
  exact (proj1 (proj2 (proj2 (gapless_scheduling connected _ _ Ho Hc)))).
Defined.

(** Three chunks handled at clock times 1, 2 and 2, each lasting 3/24000
    seconds: the second arrives after the first has ended and starts at 2;
    the third arrives while the second plays and starts at its end. *)
Example schedule_with_a_late_chunk :
  scheduled_starts
    (issued connected
       (handle_all [(chunk, number_of_Z 1); (chunk, number_of_Z 2);
                    (chunk, number_of_Z 2)] connected))
  = [number_of_Z 1; number_of_Z 2;
     number_add (number_of_Z 2) (duration silence)].
Proof. vm_compute. reflexivity. Qed.

(** *** Failure while connecting *)





Lemma released_snoc (stream : MediaStream) (l : list HostCall) (c : HostCall) :
  (forall st, c <> TrackStop st) ->
  released stream (l ++ [c]) <-> released stream l.
Proof.
  intros Hc. unfold released. rewrite in_app_iff. cbn.
  split; [|tauto]. intros [H | [H | []]]; [exact H|].
  exfalso. exact (Hc stream H).
Qed.











End LiveTutorProofs.

(** ** The planner's exam list *)

Module StudyPlannerProofs.

Import StudyPlanner.

(** Filtering out the index [idx] deletes the element at [idx]. *)
Lemma filter_index_delete {A : Type} (idx : nat) (l : list A) :
  forall i : nat,
    filter_index (fun _ j => negb (Nat.eqb j idx)) l i
    = if decide (i <= idx)%nat then delete (idx - i)%nat l else l.
Proof.
  induction l as [|x l IH]; intros i.
  - destruct (decide (i <= idx)%nat); reflexivity.
  - cbn [filter_index]. rewrite IH.
    destruct (Nat.eqb_spec i idx) as [->|Hne]; cbn [negb].
    + rewrite decide_False by lia. rewrite decide_True by lia.
      rewrite Nat.sub_diag. reflexivity.
    + destruct (decide (i <= idx)%nat) as [Hle|Hgt].
      * rewrite decide_True by lia.
        replace (idx - i)%nat with (S (idx - S i)) by lia. reflexivity.
      * rewrite decide_False by lia. reflexivity.
Qed.

Lemma removeExam_many (idx : nat) (exams : list Exam) :
  (1 < length exams)%nat -> removeExam idx exams = delete idx exams.
Proof.
  intros H. unfold removeExam.
  apply Nat.ltb_lt in H. rewrite H.
  rewrite filter_index_delete, decide_True by lia.
  rewrite Nat.sub_0_r. reflexivity.
Qed.

(** C8. The exam list is never empty after [removeExam] (nor after
    [addExam]). On a list of more than one exam, [removeExam] removes
    exactly the exam at the index: the list gets one shorter, the exams
    before the index keep their places and those after it move down by one.
    When exactly one exam remains, the list becomes the single blank
    entry. *)
Theorem removeExam_keeps_one (idx : nat) (exams : list Exam) :
  removeExam idx exams <> []
  /\ addExam exams <> []
  /\ ((1 < length exams)%nat ->
      removeExam idx exams = delete idx exams
      /\ ((idx < length exams)%nat ->
          length (removeExam idx exams) = (length exams - 1)%nat
          /\ (forall i, (i < idx)%nat ->
                        removeExam idx exams !! i = exams !! i)
          /\ (forall i, (idx <= i)%nat ->
                        removeExam idx exams !! i = exams !! S i)))
  /\ (length exams = 1%nat ->
      removeExam idx exams = [{| name := ""; date := "" |}]).
Proof.
  split.
  { unfold removeExam. destruct (1 <? length exams)%nat eqn:H; [|discriminate].
    apply Nat.ltb_lt in H. rewrite filter_index_delete, decide_True by lia.
    rewrite Nat.sub_0_r. intros Hnil.
    apply (f_equal length) in Hnil.
    rewrite delete_take_drop, length_app, length_take, length_drop in Hnil.
    cbn in Hnil. lia. }
  split.
  { unfold addExam. destruct exams; discriminate. }
  split.
  - intros Hmany. rewrite (removeExam_many idx exams Hmany).
    split; [reflexivity|]. intros Hidx. split; [|split].
    + apply length_delete, lookup_lt_is_Some_2, Hidx.
    + intros i Hi. apply list_lookup_delete_lt, Hi.
    + intros i Hi. apply list_lookup_delete_ge, Hi.
  - intros Hone. unfold removeExam. rewrite Hone. reflexivity.
Qed.

Lemma removeExam_keeps_one_witness :
  (1 < length [{| name := "Physics"; date := "2025-05-01" |};
               {| name := "Chemistry"; date := "2025-05-03" |};
               {| name := "Biology"; date := "2025-05-05" |}])%nat
  /\ removeExam 1 [{| name := "Physics"; date := "2025-05-01" |};
                   {| name := "Chemistry"; date := "2025-05-03" |};
                   {| name := "Biology"; date := "2025-05-05" |}]
     = delete 1%nat [{| name := "Physics"; date := "2025-05-01" |};
                     {| name := "Chemistry"; date := "2025-05-03" |};
                     {| name := "Biology"; date := "2025-05-05" |}].
Proof.
  split; [cbn; lia|].
  apply (removeExam_keeps_one 1 _). cbn. lia.
Defined.

End StudyPlannerProofs.

(** ** The quiz history *)

Module QuizGeneratorProofs.

Import QuizGenerator QuizSpec.

(** The scoring loop counts. *)
Lemma forEach_count (answers : gmap nat string) (l : list QuizQuestion) :
  forall (idx score : nat),
    forEach (fun q i sc => if answered_correctly answers q i then S sc else sc)
            l idx score
    = (score
       + length (List.filter
                   (fun iq => bool_decide
                                (answers !! fst iq
                                 = Some (correctAnswer (snd iq))))
                   (imap (fun i q => (idx + i, q)%nat) l)))%nat.
Proof.
  induction l as [|q l IH]; intros idx score.
  - cbn. lia.
  - cbn [forEach imap List.filter fst snd]. rewrite IH.
    rewrite Nat.add_0_r.
    rewrite (imap_ext (fun i q0 => (S idx + i, q0)%nat)
                      ((fun i q0 => (idx + i, q0)%nat) ∘ S) l)
      by (intros; cbn; f_equal; lia).
    unfold answered_correctly.
    destruct (answers !! idx) as [a|] eqn:Ha.
    + destruct (String.eqb_spec a (correctAnswer q)) as [->|Hne].
      * rewrite bool_decide_eq_true_2 by reflexivity. cbn [length]. lia.
      * rewrite bool_decide_eq_false_2 by congruence. lia.
    + rewrite bool_decide_eq_false_2 by discriminate. lia.
Qed.

Lemma calculateScore_count (s : State) :
  calculateScore s = correct_count (answers s) (quiz s).
Proof.
  unfold calculateScore, correct_count. rewrite forEach_count. reflexivity.
Qed.

Lemma round_history (s : State) (r : Round) :
  history (round s r) = take 10 (result_of r :: history s).
Proof.
  unfold round, finishQuiz, result_of. cbn [history play quiz answers st_topic
                                            st_difficulty].
  rewrite calculateScore_count. reflexivity.
Qed.

Lemma take_app_take {A : Type} (n : nat) (l k : list A) :
  take n (l ++ take n k) = take n (l ++ k).
Proof.
  rewrite !take_app, take_take. f_equal. f_equal. lia.
Qed.

(** The history after a sequence of rounds. *)
Lemma rounds_history (rounds : list Round) :
  forall s : State,
    history (fold_left round rounds s)
    = match rounds with
      | [] => history s
      | _ => take 10 (rev (map result_of rounds) ++ history s)
      end.
Proof.
  induction rounds as [|r rounds IH]; intros s; [reflexivity|].
  cbn [fold_left]. rewrite IH, round_history.
  destruct rounds as [|r' rounds]; [reflexivity|].
  rewrite take_app_take.
  cbn [map rev]. rewrite <- !app_assoc. reflexivity.
Qed.

(** C9. [finishQuiz] prepends the new result, whose score is the count of
    questions whose stored answer equals [correctAnswer], and keeps the
    first ten entries. So after any sequence of finished quizzes, one at
    least, the history is the first ten of: the results of the sequence,
    newest first, followed by the history from before; it has at most ten
    entries, and after ten quizzes or more they are the ten most recent
    results, newest first. *)
Theorem finishQuiz_history (today : string) (s : State)
    (rounds : list Round) :
  history (finishQuiz today s)
  = take 10 ({| date := today; topic := st_topic s;
                score := correct_count (answers s) (quiz s);
                total := length (quiz s);
                difficulty := st_difficulty s |} :: history s)
  /\ (length (history (finishQuiz today s)) <= 10)%nat
  /\ history (fold_left round rounds s)
     = match rounds with
       | [] => history s
       | _ => take 10 (rev (map result_of rounds) ++ history s)
       end
  /\ (rounds <> [] ->
      (length (history (fold_left round rounds s)) <= 10)%nat)
  /\ ((10 <= length rounds)%nat ->
      history (fold_left round rounds s)
      = take 10 (rev (map result_of rounds))).
Proof.
  split.
  { unfold finishQuiz. cbn [history]. rewrite calculateScore_count.
    reflexivity. }
  split.
  { unfold finishQuiz. cbn [history]. rewrite length_take. lia. }
  split; [apply rounds_history|].
  rewrite rounds_history. split.
  - intros Hne. destruct rounds; [congruence|]. rewrite length_take. lia.
  - intros Hlen. destruct rounds as [|r rounds]; [cbn in Hlen; lia|].
    rewrite take_app_le; [reflexivity|].
    rewrite length_rev, length_map. exact Hlen.
Qed.

Lemma finishQuiz_history_witness :
  let r := {| r_today := "01/01/2025"; r_topic := "Optics";
              r_difficulty := Medium; r_quiz := []; r_answers := ∅ |} in
  let s := {| st_topic := ""; st_difficulty := Medium; view := SETUP;
              quiz := []; answers := ∅; currentQuestionIndex := 0%nat;
              history := [] |} in
  (10 <= length (replicate 12 r))%nat
  /\ history (fold_left round (replicate 12 r) s)
     = take 10 (rev (map result_of (replicate 12 r))).
Proof.
  intros r s. split; [cbn; lia|].
  apply (finishQuiz_history "" s (replicate 12 r)). cbn. lia.
Defined.

End QuizGeneratorProofs.

(** ** The quiz generator of the service layer *)

Module GeminiServiceProofs.

Import GeminiService.

(** A fenced answer is unwrapped; a line break after the closing fence
    keeps the fence, and the text then fails to parse. *)
Example cleanJSON_fences :
  cleanJSON (units "```json" ++ [10] ++ units "[1, 2]" ++ [10] ++ units "```")
  = units "[1, 2]"
  /\ cleanJSON (units "```" ++ [10] ++ units "[1, 2]  ```") = units "[1, 2]"
  /\ cleanJSON (units "  [1, 2] " ++ [10]) = units "[1, 2]"
  /\ cleanJSON [] = units "[]"
  /\ cleanJSON (units "```json" ++ [10] ++ units "[]" ++ [10] ++ units "```"
                ++ [10])
     = units "[]" ++ [10] ++ units "```".
Proof. repeat split. Qed.

Example JSON_parse_grammar_values :
  JSON_parse_grammar (units "[]") = Some (JArray [])
  /\ JSON_parse_grammar (units " [true, null, -1.5e3, [ ]] ")
     = Some (JArray [JBool true; JNull; JNumber (units "-1.5e3"); JArray []])
  /\ JSON_parse_grammar ([123; 34] ++ units "k" ++ [34] ++ units ": "
                         ++ [34] ++ units "v" ++ [34; 125])
     = Some (JObject [(units "k", JString (units "v"))])
  /\ JSON_parse_grammar (units "[1,") = None
  /\ JSON_parse_grammar (units "[] ```") = None
  /\ JSON_parse_grammar [] = None.
Proof. repeat split. Qed.

(** C10. Whatever the host's [JSON.parse] is, [generateQuiz] raises no
    exception on a response: it is fulfilled. If the response text is
    absent or empty, or if the text cleaned by [cleanJSON] fails to parse,
    it is fulfilled with the empty list. *)
Theorem generateQuiz_malformed (JSON_parse : list Z -> option JSON)
    (text : option (list Z)) :
  (text = None \/ text = Some []
   \/ exists t, text = Some t /\ JSON_parse (cleanJSON t) = None) ->
  generateQuiz JSON_parse (ApiResponse text) = Fulfilled (JArray [])
  /\ forall response : option (list Z),
       exists questions,
         generateQuiz JSON_parse (ApiResponse response) = Fulfilled questions.
Proof.
  intros H. split.
  - destruct H as [-> | [-> | (t & -> & Hp)]]; try reflexivity.
    cbn [generateQuiz]. destruct t; [reflexivity|]. rewrite Hp. reflexivity.
  - intros [[|c t]|]; cbn [generateQuiz]; try (eexists; reflexivity).
    destruct (JSON_parse (cleanJSON (c :: t))); eexists; reflexivity.
Qed.

(** A response cut short inside a fenced array. *)
Lemma generateQuiz_malformed_witness :
  (Some (units "```json [{") = None \/ Some (units "```json [{") = Some []
   \/ exists t, Some (units "```json [{") = Some t
                /\ JSON_parse_grammar (cleanJSON t) = None)
  /\ generateQuiz JSON_parse_grammar (ApiResponse (Some (units "```json [{")))
     = Fulfilled (JArray []).
Proof.
  assert (H : Some (units "```json [{") = None
              \/ Some (units "```json [{") = Some []
              \/ exists t, Some (units "```json [{") = Some t
                           /\ JSON_parse_grammar (cleanJSON t) = None).
  { right. right. eexists. split; [reflexivity|]. vm_compute. reflexivity. }
  split; [exact H|].
  exact (proj1 (generateQuiz_malformed JSON_parse_grammar
                  (Some (units "```json [{")) H)).
Defined.

End GeminiServiceProofs.

(** * Further properties *)

(** ** The decoder, and what the encoder does outside [-1.0, 1.0) *)

Module PCMExtra.

Import PCM PCMSpec Loops PCMProofs.

Lemma int16_of_bytes_range (lo hi : Z) :
  is_byte lo -> is_byte hi -> is_int16 (int16_of_bytes lo hi).
Proof.
  unfold is_byte, is_int16, int16_of_bytes. intros Hl Hh. cbv zeta.
  destruct (Z.leb_spec 32768 (lo + 256 * hi)); lia.
Qed.

Lemma bytes_of_int16_of_bytes (lo hi : Z) :
  is_byte lo -> is_byte hi -> bytes_of_int16 (int16_of_bytes lo hi) = [lo; hi].
Proof.
  unfold is_byte, bytes_of_int16, int16_of_bytes. intros Hl Hh. cbv zeta.
  destruct (Z.leb_spec 32768 (lo + 256 * hi));
    f_equal; [|f_equal| |f_equal]; Z.div_mod_to_equations; lia.
Qed.

(** The 16-bit view of an even number of bytes, and of an odd number. *)
Lemma Int16Array_of_buffer_even (n : nat) :
  forall bytes : list Z,
    Forall is_byte bytes -> length bytes = (2 * n)%nat ->
    exists a, Int16Array_of_buffer bytes = Some a
              /\ length a = n /\ Forall is_int16 a
              /\ Uint8Array_of_Int16Array a = bytes.
Proof.
  induction n as [|n IH]; intros bytes Hb Hl.
  - destruct bytes; [|discriminate]. exists []. repeat split. constructor.
  - destruct bytes as [|lo [|hi rest]]; try (cbn in Hl; lia).
    inversion_clear Hb as [|? ? Hlo Hb']. inversion_clear Hb' as [|? ? Hhi Hr].
    destruct (IH rest Hr) as (a & Ha & Hla & Hia & Hv); [cbn in Hl; lia|].
    exists (int16_of_bytes lo hi :: a). cbn [Int16Array_of_buffer].
    rewrite Ha. repeat split.
    + cbn. lia.
    + constructor; [apply int16_of_bytes_range; assumption | exact Hia].
    + unfold Uint8Array_of_Int16Array in *. cbn [flat_map].
      rewrite Hv, bytes_of_int16_of_bytes by assumption. reflexivity.
Qed.

Lemma Int16Array_of_buffer_odd (n : nat) :
  forall bytes : list Z,
    length bytes = (2 * n + 1)%nat -> Int16Array_of_buffer bytes = None.
Proof.
  induction n as [|n IH]; intros bytes Hl.
  - destruct bytes as [|b [|c rest]]; try (cbn in Hl; lia). reflexivity.
  - destruct bytes as [|lo [|hi rest]]; try (cbn in Hl; lia).
    cbn [Int16Array_of_buffer]. rewrite IH; [reflexivity | cbn in Hl; lia].
Qed.

Lemma div32768_range (z : Z) : is_int16 z -> in_half_open_range (div32768 z).
Proof.
  unfold is_int16, in_half_open_range. intros Hz.
  split; [destruct z; reflexivity|].
  split; [rewrite F2Q_div32768; unfold Qle; cbn [Qnum Qden]; lia|].
  rewrite F2Q_div32768. unfold Qlt. cbn [Qnum Qden]. lia.
Qed.

(** X1. [decodeAudioData], mono, at a sample rate every host accepts
    (8000 to 96000 Hz): an even, positive number of bytes gives one channel
    with half as many frames, every sample finite and in [-1.0, 1.0); an
    odd number of bytes, or none, raises an exception. *)
Theorem decodeAudioData_frames_in_range (bytes : list Z) (rate : Z) :
  Forall is_byte bytes -> 8000 <= rate <= 96000 ->
  (Nat.Even (length bytes) -> bytes <> [] ->
   exists samples,
     decodeAudioData bytes rate 1
     = Some {| sampleRate := rate; channels := [samples] |}
     /\ (2 * length samples = length bytes)%nat
     /\ Forall in_half_open_range samples)
  /\ (Nat.Odd (length bytes) \/ bytes = [] ->
      decodeAudioData bytes rate 1 = None).
Proof.
  intros Hb Hrate. split.
  - intros [n Hn] Hne.
    destruct (Int16Array_of_buffer_even n bytes Hb Hn) as (a & Ha & Hla & Hia & _).
    exists (map div32768 a). split; [|split].
    + apply decodeAudioData_mono;
        [exact Ha | | unfold supported_rate; apply andb_true_iff; lia].
      intros ->. cbn in Hla. subst n. destruct bytes; [congruence | discriminate].
    + rewrite length_map. lia.
    + apply List.Forall_forall. intros v Hv.
      apply in_map_iff in Hv. destruct Hv as (z & <- & Hz).
      apply div32768_range. rewrite List.Forall_forall in Hia. exact (Hia z Hz).
  - intros [[n Hn] | ->]; [|reflexivity].
    unfold decodeAudioData. rewrite (Int16Array_of_buffer_odd n bytes Hn).
    reflexivity.
Qed.

Lemma decodeAudioData_frames_in_range_witness :
  Forall is_byte [0; 64; 255; 127] /\ 8000 <= 24000 <= 96000
  /\ exists samples,
       decodeAudioData [0; 64; 255; 127] 24000 1
       = Some {| sampleRate := 24000; channels := [samples] |}
       /\ (2 * length samples = length [0; 64; 255; 127])%nat
       /\ Forall in_half_open_range samples.
Proof.
  assert (Hb : Forall is_byte [0; 64; 255; 127])
    by (repeat constructor; unfold is_byte; lia).
  split; [exact Hb|]. split; [lia|].
  apply (decodeAudioData_frames_in_range [0; 64; 255; 127] 24000 Hb);
    [lia | exists 2%nat; reflexivity | discriminate].
Defined.

Lemma s16_div32768 (z : Z) : is_int16 z -> s16 (div32768 z) = z.
Proof.
  unfold is_int16, s16. intros Hz.
  destruct z as [|m|m]; [reflexivity| |];
    (rewrite ToInt16_small; cbn [div32768 mul32768 truncate];
     change (-15 + 15) with 0; rewrite Z.shiftl_0_r; lia).
Qed.

(** X2. Decoding and encoding again loses nothing: the samples that
    [decodeAudioData] reads from an even, positive number of bytes are
    encoded by [createBlob] as the base64 text of these very bytes, which
    [decode] gives back. *)
Theorem decoded_audio_encodes_to_its_bytes (bytes : list Z) :
  Forall is_byte bytes -> Nat.Even (length bytes) -> bytes <> [] ->
  exists samples,
    decodeAudioData bytes 24000 1
    = Some {| sampleRate := 24000; channels := [samples] |}
    /\ createBlob samples
       = Some {| mimeType := "audio/pcm;rate=16000"; data := base64 bytes |}
    /\ decode (base64 bytes) = Some bytes.
Proof.
  intros Hb [n Hn] Hne.
  destruct (Int16Array_of_buffer_even n bytes Hb Hn) as (a & Ha & Hla & Hia & Hv).
  exists (map div32768 a). split; [|split].
  - apply decodeAudioData_mono; [exact Ha | | reflexivity].
    intros ->. cbn in Hla. subst n. destruct bytes; [congruence | discriminate].
  - rewrite createBlob_eq. unfold base64. do 4 f_equal.
    rewrite <- Hv. f_equal. rewrite map_map.
    clear -Hia. induction Hia as [|z a Hz _ IH]; [reflexivity|].
    cbn [map]. rewrite IH. f_equal. apply s16_div32768, Hz.
  - unfold base64. apply decode_b64encode, Hb.
Qed.

Lemma decoded_audio_encodes_to_its_bytes_witness :
  Forall is_byte [0; 64; 255; 127] /\ Nat.Even (length [0; 64; 255; 127])
  /\ [0; 64; 255; 127] <> []
  /\ exists samples,
       decodeAudioData [0; 64; 255; 127] 24000 1
       = Some {| sampleRate := 24000; channels := [samples] |}
       /\ createBlob samples
          = Some {| mimeType := "audio/pcm;rate=16000";
                    data := base64 [0; 64; 255; 127] |}
       /\ decode (base64 [0; 64; 255; 127]) = Some [0; 64; 255; 127].
Proof.
  assert (Hb : Forall is_byte [0; 64; 255; 127])
    by (repeat constructor; unfold is_byte; lia).
  assert (He : Nat.Even (length [0; 64; 255; 127]))
    by (exists 2%nat; reflexivity).
  assert (Hn : [0; 64; 255; 127] <> []) by discriminate.
  split; [exact Hb|]. split; [exact He|]. split; [exact Hn|].
  exact (decoded_audio_encodes_to_its_bytes [0; 64; 255; 127] Hb He Hn).
Defined.

Lemma ToInt16_wrap (v : spec_float) :
  ToInt16 v = truncate v - 65536 * ((truncate v + 32768) / 65536).
Proof.
  unfold ToInt16. cbv zeta.
  destruct (Z.leb_spec 32768 (truncate v mod 65536));
    Z.div_mod_to_equations; lia.
Qed.

Lemma Qmake_shift (t k : Z) (c : positive) :
  (t - 2 * Zpos c * k # c == (t # c) - inject_Z (2 * k))%Q.
Proof.
  unfold Qeq, Qminus, Qplus, Qopp, inject_Z. cbn [Qnum Qden].
  rewrite Pos2Z.inj_mul. ring.
Qed.

Lemma Qabs_Qmake_diff_lt (a m : Z) (c P : positive) :
  - Zpos P < a * Zpos P - m * Zpos c < Zpos P ->
  (Qabs ((a # c) - (m # P)) < 1 # c)%Q.
Proof.
  intros H. apply Qabs_Qlt_condition.
  unfold Qlt, Qminus, Qplus, Qopp. cbn [Qnum Qden].
  rewrite !Pos2Z.inj_mul. nia.
Qed.

(** Truncation moves the scaled sample by less than one. *)
Lemma truncation_error (s : bool) (m : positive) (e : Z) :
  (Qabs ((truncate (mul32768 (S754_finite s m e)) # 32768)
         - F2Q (S754_finite s m e)) < 1 # 32768)%Q.
Proof.
  destruct e as [|p|k].
  - assert (H : ((truncate (mul32768 (S754_finite s m 0)) # 32768)
                 == F2Q (S754_finite s m 0))%Q).
    { cbn [mul32768 truncate F2Q]. change (0 + 15) with 15.
      rewrite Z.shiftl_mul_pow2 by lia. rewrite Z.pow_0_r, Z.mul_1_r.
      destruct s; unfold Qeq, inject_Z, Qopp; cbn [Qnum Qden]; lia. }
    rewrite H. setoid_replace (F2Q (S754_finite s m 0) - F2Q (S754_finite s m 0))%Q
      with 0%Q using relation Qeq by ring. reflexivity.
  - assert (H : ((truncate (mul32768 (S754_finite s m (Zpos p))) # 32768)
                 == F2Q (S754_finite s m (Zpos p)))%Q).
    { cbn [mul32768 truncate F2Q].
      rewrite Z.shiftl_mul_pow2 by lia. rewrite Z.pow_add_r by lia.
      change (2 ^ 15) with 32768.
      destruct s; unfold Qeq, inject_Z, Qopp; cbn [Qnum Qden]; lia. }
    rewrite H.
    setoid_replace (F2Q (S754_finite s m (Zpos p))
                    - F2Q (S754_finite s m (Zpos p)))%Q
      with 0%Q using relation Qeq by ring. reflexivity.
  - assert (HP : 0 < 2 ^ Zpos k) by (apply Z.pow_pos_nonneg; lia).
    assert (HPp : Zpos (2 ^ k) = 2 ^ Zpos k) by apply Pos2Z.inj_pow.
    pose proof (Z.mul_div_le (Zpos m * 32768) (2 ^ Zpos k) HP) as Hd1.
    pose proof (Z.mul_succ_div_gt (Zpos m * 32768) (2 ^ Zpos k) HP) as Hd2.
    rewrite truncate_scaled. cbn [F2Q].
    set (a := Zpos m * 32768 / 2 ^ Zpos k) in *.
    destruct s.
    + change (- (Zpos m # 2 ^ k))%Q with (- Zpos m # 2 ^ k)%Q.
      apply Qabs_Qmake_diff_lt. rewrite HPp. nia.
    + apply Qabs_Qmake_diff_lt. rewrite HPp. nia.
Qed.

(** What one sample becomes. *)
Lemma sample_wraps (x : spec_float) :
  in_half_open_range (div32768 (s16 x))
  /\ (is_finite x = true ->
      exists k : Z,
        (Qabs (F2Q (div32768 (s16 x)) - (F2Q x - inject_Z (2 * k)))
         < 1 # 32768)%Q)
  /\ (is_finite x = false -> div32768 (s16 x) = S754_zero false).
Proof.
  split; [apply div32768_range, ToInt16_range|]. split.
  - intros Hfin. destruct x as [s| | |s m e]; try discriminate.
    + exists 0. destruct s; vm_compute; reflexivity.
    + exists ((truncate (mul32768 (S754_finite s m e)) + 32768) / 65536).
      set (k := (truncate (mul32768 (S754_finite s m e)) + 32768) / 65536).
      rewrite F2Q_div32768. unfold s16. rewrite ToInt16_wrap. fold k.
      replace (65536 * k) with (2 * Zpos 32768 * k) by lia.
      rewrite Qmake_shift.
      setoid_replace
        ((truncate (mul32768 (S754_finite s m e)) # 32768)
         - inject_Z (2 * k) - (F2Q (S754_finite s m e) - inject_Z (2 * k)))%Q
        with ((truncate (mul32768 (S754_finite s m e)) # 32768)
              - F2Q (S754_finite s m e))%Q using relation Qeq by ring.
      apply truncation_error.
  - intros Hfin. destruct x as [s|s| |s m e]; try discriminate; reflexivity.
Qed.

(** X3. Outside [-1.0, 1.0) the encoder wraps: for every buffer that is
    not empty, decoding the encoded form yields a buffer of the same
    length, every sample of which lies in [-1.0, 1.0) and differs by less
    than 1/32768 from the original sample shifted by an even integer; NaN
    and the infinities are decoded as 0. *)
Theorem round_trip_wraps_modulo_two (x : list spec_float) :
  x <> [] ->
  exists y,
    round_trip x = Some y /\ length y = length x
    /\ forall (i : nat) (xi yi : spec_float),
         x !! i = Some xi -> y !! i = Some yi ->
         in_half_open_range yi
         /\ (is_finite xi = true ->
             exists k : Z,
               (Qabs (F2Q yi - (F2Q xi - inject_Z (2 * k))) < 1 # 32768)%Q)
         /\ (is_finite xi = false -> yi = S754_zero false).
Proof.
  intros Hne. exists (map (fun v => div32768 (s16 v)) x).
  split; [apply round_trip_eq, Hne|]. split; [apply length_map|].
  intros i xi yi Hxi Hyi.
  rewrite list_lookup_fmap, Hxi in Hyi. cbn in Hyi. injection Hyi as <-.
  apply sample_wraps.
Qed.

Lemma round_trip_wraps_modulo_two_witness :
  [one_and_a_half; S754_nan] <> []
  /\ exists y, round_trip [one_and_a_half; S754_nan] = Some y
               /\ length y = length [one_and_a_half; S754_nan].
Proof.
  assert (Hn : [one_and_a_half; S754_nan] <> []) by discriminate.
  split; [exact Hn|].
  destruct (round_trip_wraps_modulo_two [one_and_a_half; S754_nan] Hn)
    as (y & Hy & Hl & _).
  exists y. split; assumption.
Defined.

End PCMExtra.

(** ** The session as a machine *)

Module LiveTutorExtra.

Import PCM LiveTutor LiveTutorSpec LiveTutorMachine LiveTutorProofs.

(** *** Logs of permitted calls *)

Lemma each_permitted_app (P : list HostCall -> HostCall -> Prop)
    (l' : list HostCall) :
  forall l, each_permitted P l -> permitted_from P l l' ->
            each_permitted P (l ++ l').
Proof.
  induction l' as [|c l' IH]; intros l Hl Hp.
  - rewrite app_nil_r. exact Hl.
  - destruct Hp as [Hc Hr].
    replace (l ++ c :: l') with ((l ++ [c]) ++ l')
      by (rewrite <- app_assoc; reflexivity).
    apply IH; [constructor; assumption | exact Hr].
Qed.

Lemma permitted_from_stop_neutral (l' : list HostCall) :
  forall l, Forall no_source_call l' -> permitted_from stop_permitted l l'.
Proof.
  induction l' as [|c l' IH]; intros l H; [exact I|].
  inversion_clear H as [|? ? Hc Hr]. split; [|apply IH, Hr].
  destruct c; try exact I; destruct Hc.
Qed.

Lemma permitted_from_close_neutral (l' : list HostCall) :
  forall l, Forall no_context_call l' -> permitted_from close_permitted l l'.
Proof.
  induction l' as [|c l' IH]; intros l H; [exact I|].
  inversion_clear H as [|? ? Hc Hr]. split; [|apply IH, Hr].
  destruct c; try exact I; destruct Hc.
Qed.

Lemma neutral_no_start (l : list HostCall) (source : AudioBufferSourceNode)
    (when : spec_float) :
  Forall no_source_call l -> ~ In (SourceStart source when) l.
Proof.
  intros H Hin. rewrite List.Forall_forall in H. exact (H _ Hin).
Qed.

Lemma neutral_no_stop (l : list HostCall) (source : AudioBufferSourceNode) :
  Forall no_source_call l -> ~ In (SourceStop source) l.
Proof.
  intros H Hin. rewrite List.Forall_forall in H. exact (H _ Hin).
Qed.

Lemma neutral_no_new (l : list HostCall) (c : AudioContext) :
  Forall no_context_call l -> ~ In (NewAudioContext c) l.
Proof.
  intros H Hin. rewrite List.Forall_forall in H. exact (H _ Hin).
Qed.

Lemma neutral_no_close (l : list HostCall) (c : AudioContext) :
  Forall no_context_call l -> ~ In (ContextClose c) l.
Proof.
  intros H Hin. rewrite List.Forall_forall in H. exact (H _ Hin).
Qed.

(** A stop in a log of permitted calls follows a start. *)
Lemma stopped_was_started (l : list HostCall) :
  each_permitted stop_permitted l ->
  forall source, In (SourceStop source) l ->
                 exists when, In (SourceStart source when) l.
Proof.
  induction 1 as [|l c Hl IH Hc]; intros source Hin; [destruct Hin|].
  apply in_app_iff in Hin. destruct Hin as [Hin | [-> | []]].
  - destruct (IH source Hin) as [w Hw]. exists w.
    apply in_app_iff. left. exact Hw.
  - destruct Hc as [[w Hw] _]. exists w. apply in_app_iff. left. exact Hw.
Qed.

(** The stops of distinct sources, started and not stopped, are
    permitted. *)
Lemma permitted_from_stops (sources : list AudioBufferSourceNode) :
  forall l,
    NoDup sources ->
    (forall source, In source sources ->
       (exists when, In (SourceStart source when) l)
       /\ ~ In (SourceStop source) l) ->
    permitted_from stop_permitted l (map SourceStop sources).
Proof.
  induction sources as [|x sources IH]; intros l Hnd Hs; [exact I|].
  inversion_clear Hnd as [|? ? Hx Hnd']. cbn [map permitted_from]. split.
  - apply Hs. left. reflexivity.
  - apply IH; [exact Hnd'|]. intros source Hin.
    destruct (Hs source (or_intror Hin)) as [[w Hw] Hns]. split.
    + exists w. apply in_app_iff. left. exact Hw.
    + intros H. apply in_app_iff in H. destruct H as [H | [H | []]].
      * exact (Hns H).
      * injection H as ->. apply Hx, list_elem_of_In, Hin.
Qed.

(** *** The sources *)

Lemma SourcesInv_initial : SourcesInv initial.
Proof.
  unfold SourcesInv. cbn.
  split; [constructor|]. split; [intros ? []|].
  split; [intros ? ? []|constructor].
Qed.

(** A handler that leaves the sources alone. *)
Lemma SourcesInv_neutral (s s' : State) (l : list HostCall) :
  sourcesRef s' = sourcesRef s ->
  calls s' = calls s ++ l -> Forall no_source_call l ->
  (fresh s <= fresh s')%nat ->
  SourcesInv s -> SourcesInv s'.
Proof.
  intros Hsrc Hcalls Hl Hfr (I2 & I3 & I4 & I5).
  unfold SourcesInv. rewrite Hsrc, Hcalls.
  split; [exact I2|split; [|split]].
  - intros source Hin. destruct (I3 source Hin) as [[w Hw] Hns]. split.
    + exists w. apply in_app_iff. left. exact Hw.
    + intros H. apply in_app_iff in H. destruct H as [H | H];
        [exact (Hns H) | exact (neutral_no_stop l source Hl H)].
  - intros source w H. apply in_app_iff in H. destruct H as [H | H].
    + pose proof (I4 source w H). lia.
    + destruct (neutral_no_start l source w Hl H).
  - apply each_permitted_app; [exact I5 | apply permitted_from_stop_neutral, Hl].
Qed.

(** A handler that stops every tracked source and clears the set. *)
Lemma SourcesInv_drain (s s' : State) (l : list HostCall) :
  sourcesRef s' = [] ->
  calls s' = calls s ++ l ++ map SourceStop (sourcesRef s) ->
  Forall no_source_call l -> (fresh s <= fresh s')%nat ->
  SourcesInv s -> SourcesInv s'.
Proof.
  intros Hsrc Hcalls Hl Hfr (I2 & I3 & I4 & I5).
  unfold SourcesInv. rewrite Hsrc, Hcalls.
  split; [constructor|]. split; [intros ? []|]. split.
  - intros source w H. apply in_app_iff in H. destruct H as [H | H].
    + pose proof (I4 source w H). lia.
    + apply in_app_iff in H. destruct H as [H | H].
      * destruct (neutral_no_start l source w Hl H).
      * apply in_map_iff in H. destruct H as (x & Hx & _). discriminate.
  - rewrite app_assoc. apply each_permitted_app.
    + apply each_permitted_app;
        [exact I5 | apply permitted_from_stop_neutral, Hl].
    + apply permitted_from_stops; [exact I2|].
      intros source Hin. destruct (I3 source Hin) as [[w Hw] Hns]. split.
      * exists w. apply in_app_iff. left. exact Hw.
      * intros H. apply in_app_iff in H. destruct H as [H | H];
          [exact (Hns H) | exact (neutral_no_stop l source Hl H)].
Qed.

Lemma releases_no_source_call (s : State) :
  Forall no_source_call (releases s).
Proof.
  unfold releases.
  destruct (sessionRef s), (inputContextRef s), (outputContextRef s);
    repeat constructor.
Qed.

Lemma SourcesInv_stopSession (s : State) :
  SourcesInv s -> SourcesInv (stopSession s).
Proof.
  intros H.
  apply (SourcesInv_drain s (stopSession s) (releases s));
    [| | apply releases_no_source_call | | exact H];
    rewrite stopSession_eq; cbn [sourcesRef calls fresh];
    try reflexivity; lia.
Qed.

Lemma SourcesInv_interrupt (s : State) :
  SourcesInv s -> SourcesInv (interrupt s).
Proof.
  intros H.
  apply (SourcesInv_drain s (interrupt s) []);
    [| | constructor | | exact H];
    rewrite interrupt_eq; cbn [sourcesRef calls fresh app];
    try reflexivity; lia.
Qed.

Lemma SourcesInv_scheduled (buffer : AudioBuffer) (s : State) :
  SourcesInv s -> SourcesInv (scheduled_at_cursor buffer s).
Proof.
  intros (I2 & I3 & I4 & I5).
  set (new := {| nodeId := fresh s; buffer := buffer |}).
  assert (Hnew : ~ exists w, In (SourceStart new w) (calls s)).
  { intros [w Hw]. pose proof (I4 new w Hw) as H. cbn in H. lia. }
  unfold SourcesInv, scheduled_at_cursor.
  cbn [sourcesRef calls fresh]. fold new.
  split; [|split; [|split]].
  - apply NoDup_app. split; [exact I2|]. split; [|apply NoDup_singleton].
    intros x Hx Hin. apply list_elem_of_In in Hx. apply list_elem_of_In in Hin.
    destruct Hin as [<- | []].
    apply Hnew. exact (proj1 (I3 _ Hx)).
  - intros source Hin. apply in_app_iff in Hin. split.
    + destruct Hin as [Hin | [<- | []]].
      * destruct (proj1 (I3 source Hin)) as [w Hw]. exists w.
        apply in_app_iff. left. exact Hw.
      * eexists. apply in_app_iff. right. left. reflexivity.
    + intros H. apply in_app_iff in H. destruct H as [H | [H | []]];
        [|discriminate].
      destruct Hin as [Hin | [<- | []]].
      * exact (proj2 (I3 source Hin) H).
      * apply Hnew. exact (stopped_was_started _ I5 new H).
  - intros source w H. apply in_app_iff in H. destruct H as [H | [H | []]].
    + pose proof (I4 source w H). lia.
    + injection H as <- _. cbn. lia.
  - constructor; [exact I5 | exact I].
Qed.

Lemma SourcesInv_onended (source : AudioBufferSourceNode) (s : State) :
  SourcesInv s -> SourcesInv (onended source s).
Proof.
  intros (I2 & I3 & I4 & I5). unfold onended.
  set (kept := List.filter
                 (fun x => negb (Nat.eqb (nodeId x) (nodeId source)))
                 (sourcesRef s)).
  cbn [set_sourcesRef sourcesRef].
  assert (Hsub : forall x, In x kept -> In x (sourcesRef s)).
  { intros x Hx. apply filter_In in Hx. tauto. }
  assert (Hnd : NoDup kept)
    by (apply NoDup_ListNoDup, List.NoDup_filter, NoDup_ListNoDup, I2).
  assert (Hkept : forall x, In x kept ->
            (exists when, In (SourceStart x when) (calls s))
            /\ ~ In (SourceStop x) (calls s))
    by (intros x Hx; exact (I3 x (Hsub x Hx))).
  destruct (Nat.eqb (length kept) 0); unfold SourcesInv;
    cbn [setIsSpeaking set_sourcesRef sourcesRef calls fresh]; fold kept;
    repeat split; try assumption; apply Hkept; assumption.
Qed.

Ltac sources_neutral l :=
  match goal with
  | H : SourcesInv ?s |- SourcesInv ?s' =>
      apply (SourcesInv_neutral s s' l);
      [ reflexivity
      | cbn; rewrite <- ?app_assoc, ?app_nil_r; reflexivity
      | repeat constructor | cbn; lia | exact H ]
  end.

Lemma SourcesInv_startSession_catch (s : State) :
  SourcesInv s -> SourcesInv (startSession_catch s).
Proof.
  intros H. apply SourcesInv_stopSession. sources_neutral (@nil HostCall).
Qed.

Lemma SourcesInv_after_audio (msg : LiveServerMessage) (s : State) :
  SourcesInv s -> SourcesInv (after_audio msg s).
Proof.
  intros H. unfold after_audio.
  destruct (interrupted msg); [apply SourcesInv_interrupt, H | exact H].
Qed.

Lemma SourcesInv_step (s : State) (e : Event) :
  SourcesInv s -> SourcesInv (step s e).
Proof.
  intros H.
  destruct e as [audio mic | mic | r | | inputData | msg t | msg | source
                 | | |]; cbn [step].
  - unfold startSession_setup.
    assert (H0 : SourcesInv (setError "" s)) by sources_neutral (@nil HostCall).
    clear H.
    destruct audio; cbn [fst]; [|apply SourcesInv_startSession_catch, H0].
    set (s0 := setError "" s) in *.
    set (inputCtx := {| contextId := fresh s0; contextRate := 16000 |}).
    set (outputCtx :=
           {| contextId := fresh (alloc (call (NewAudioContext inputCtx) s0));
              contextRate := 24000 |}).
    sources_neutral [NewAudioContext inputCtx; NewAudioContext outputCtx;
                     GetUserMedia mic].
  - destruct mic as [stream|]; cbn [startSession_media fst].
    + sources_neutral [ConnectLiveSession].
    + apply SourcesInv_startSession_catch, H.
  - destruct r; cbn [startSession_resume].
    + sources_neutral (@nil HostCall).
    + apply SourcesInv_startSession_catch, H.
  - unfold onopen. sources_neutral (@nil HostCall).
  - unfold onaudioprocess. destruct (createBlob inputData) as [pcmBlob|];
      [|exact H].
    sources_neutral [SendRealtimeInput pcmBlob].
  - unfold onmessage_begin.
    destruct (inlineData msg) as [b|];
      [|apply SourcesInv_after_audio, H].
    destruct (String.eqb b ""); [apply SourcesInv_after_audio, H|].
    cbn [setIsSpeaking outputContextRef].
    destruct (outputContextRef s); [destruct (decode b)|]; cbn [fst];
      sources_neutral (@nil HostCall).
  - unfold onmessage_resume.
    destruct (inlineData msg) as [b|]; [|exact H].
    destruct (match decode b with
              | Some bytes => decodeAudioData bytes 24000 1
              | None => None
              end) as [buffer|]; [|exact H].
    apply SourcesInv_after_audio, SourcesInv_scheduled, H.
  - apply SourcesInv_onended, H.
  - apply SourcesInv_stopSession. sources_neutral (@nil HostCall).
  - apply SourcesInv_stopSession. sources_neutral (@nil HostCall).
  - apply SourcesInv_stopSession, H.
Qed.

(** *** The audio contexts *)

Lemma ContextsInv_initial : ContextsInv initial.
Proof.
  unfold ContextsInv. cbn.
  split; [tauto|]. split; [intros c [H | H]; discriminate H|].
  split; [intros c c' H; discriminate H|]. split; [intros ? []|constructor].
Qed.

(** A close in a log of permitted calls follows the creation. *)
Lemma closed_was_created (l : list HostCall) :
  each_permitted close_permitted l ->
  forall c, In (ContextClose c) l -> In (NewAudioContext c) l.
Proof.
  induction 1 as [|l x Hl IH Hx]; intros c Hin; [destruct Hin|].
  apply in_app_iff in Hin. apply in_app_iff.
  destruct Hin as [Hin | [-> | []]]; left; [exact (IH c Hin) | exact (proj1 Hx)].
Qed.

(** A handler that leaves the contexts alone. *)
Lemma ContextsInv_neutral (s s' : State) (l : list HostCall) :
  inputContextRef s' = inputContextRef s ->
  outputContextRef s' = outputContextRef s ->
  calls s' = calls s ++ l -> Forall no_context_call l ->
  (fresh s <= fresh s')%nat ->
  ContextsInv s -> ContextsInv s'.
Proof.
  intros Hi Ho Hcalls Hl Hfr (I1 & I2 & I3 & I4 & I5).
  unfold ContextsInv. rewrite Hi, Ho, Hcalls.
  split; [exact I1|]. split; [|split; [exact I3|split]].
  - intros c Hc. destruct (I2 c Hc) as [A B]. split.
    + apply in_app_iff. left. exact A.
    + intros H. apply in_app_iff in H. destruct H as [H | H];
        [exact (B H) | exact (neutral_no_close l c Hl H)].
  - intros c H. apply in_app_iff in H. destruct H as [H | H].
    + pose proof (I4 c H). lia.
    + destruct (neutral_no_new l c Hl H).
  - apply each_permitted_app;
      [exact I5 | apply permitted_from_close_neutral, Hl].
Qed.

Lemma stops_no_context_call (sources : list AudioBufferSourceNode) :
  Forall no_context_call (map SourceStop sources).
Proof.
  induction sources; constructor; [exact I | assumption].
Qed.

(** The releases of [stopSession] are permitted. *)
Lemma releases_close_permitted (s : State) :
  ContextsInv s -> permitted_from close_permitted (calls s) (releases s).
Proof.
  intros (I1 & I2 & I3 & I4 & I5). unfold releases.
  assert (Hpair : forall l ci co,
             In (NewAudioContext ci) l -> ~ In (ContextClose ci) l ->
             In (NewAudioContext co) l -> ~ In (ContextClose co) l ->
             ci <> co ->
             permitted_from close_permitted l [ContextClose ci; ContextClose co]).
  { intros l ci co A B C D E. cbn. repeat split; try assumption.
    - apply in_app_iff. left. exact C.
    - intros H. apply in_app_iff in H. destruct H as [H | [H | []]];
        [exact (D H) | injection H as H; exact (E H)]. }
  destruct (inputContextRef s) as [ci|] eqn:Hi,
           (outputContextRef s) as [co|] eqn:Ho.
  - destruct (I2 ci (or_introl eq_refl)) as [A B].
    destruct (I2 co (or_intror eq_refl)) as [C D].
    pose proof (I3 ci co eq_refl eq_refl) as E.
    destruct (sessionRef s) as [x|]; cbn [app].
    + split; [exact I|]. apply Hpair.
      * apply in_app_iff. left. exact A.
      * intros H. apply in_app_iff in H. destruct H as [H | [H | []]];
          [exact (B H) | discriminate H].
      * apply in_app_iff. left. exact C.
      * intros H. apply in_app_iff in H. destruct H as [H | [H | []]];
          [exact (D H) | discriminate H].
      * exact E.
    + apply Hpair; assumption.
  - pose proof (proj2 I1 eq_refl) as X. discriminate X.
  - pose proof (proj1 I1 eq_refl) as X. discriminate X.
  - destruct (sessionRef s); cbn; tauto.
Qed.

Lemma ContextsInv_stopSession (s : State) :
  ContextsInv s -> ContextsInv (stopSession s).
Proof.
  intros H. pose proof (releases_close_permitted s H) as Hrel.
  destruct H as (I1 & I2 & I3 & I4 & I5).
  rewrite stopSession_eq. unfold ContextsInv.
  cbn [inputContextRef outputContextRef calls fresh].
  split; [tauto|]. split; [intros c [H | H]; discriminate H|].
  split; [intros c c' H; discriminate H|]. split.
  - intros c H. apply in_app_iff in H. destruct H as [H | H]; [exact (I4 c H)|].
    apply in_app_iff in H. destruct H as [H | H].
    + unfold releases in H.
      destruct (sessionRef s), (inputContextRef s), (outputContextRef s);
        cbn in H; intuition discriminate.
    + destruct (neutral_no_new _ c (stops_no_context_call _) H).
  - rewrite app_assoc. apply each_permitted_app.
    + apply each_permitted_app; [exact I5 | exact Hrel].
    + apply permitted_from_close_neutral, stops_no_context_call.
Qed.

(** [startSession] creates two contexts of its own. *)
Lemma ContextsInv_created (s s' : State) (ci co : AudioContext)
    (l : list HostCall) :
  contextId ci = fresh s -> contextId co = S (fresh s) ->
  inputContextRef s' = Some ci -> outputContextRef s' = Some co ->
  calls s' = calls s ++ [NewAudioContext ci; NewAudioContext co] ++ l ->
  Forall no_context_call l -> fresh s' = S (S (fresh s)) ->
  ContextsInv s -> ContextsInv s'.
Proof.
  intros Hci Hco Hi Ho Hcalls Hl Hfr (I1 & I2 & I3 & I4 & I5).
  assert (Hnew : forall c, (fresh s <= contextId c)%nat ->
                           ~ In (ContextClose c) (calls s)).
  { intros c Hc H. pose proof (I4 c (closed_was_created _ I5 c H)). lia. }
  unfold ContextsInv. rewrite Hi, Ho, Hcalls, Hfr.
  split; [split; discriminate|]. split; [|split; [|split]].
  - intros c Hc. split.
    + apply in_app_iff. right. cbn.
      destruct Hc as [Hc | Hc]; injection Hc as <-; tauto.
    + intros H. apply in_app_iff in H. destruct H as [H | H].
      * apply (Hnew c); [|exact H].
        destruct Hc as [Hc | Hc]; injection Hc as <-; lia.
      * cbn in H. destruct H as [H | [H | H]]; try discriminate H.
        exact (neutral_no_close l c Hl H).
  - intros c c' Hc Hc' E. injection Hc as <-. injection Hc' as <-.
    rewrite E in Hci. lia.
  - intros c H. apply in_app_iff in H. destruct H as [H | H].
    + pose proof (I4 c H). lia.
    + cbn in H. destruct H as [H | [H | H]].
      * injection H as <-. lia.
      * injection H as <-. lia.
      * destruct (neutral_no_new l c Hl H).
  - apply each_permitted_app; [exact I5|]. cbn [app permitted_from].
    split; [exact I|]. split; [exact I|].
    apply permitted_from_close_neutral, Hl.
Qed.

Ltac contexts_neutral l :=
  match goal with
  | H : ContextsInv ?s |- ContextsInv ?s' =>
      apply (ContextsInv_neutral s s' l);
      [ reflexivity | reflexivity
      | cbn; rewrite <- ?app_assoc, ?app_nil_r; reflexivity
      | repeat constructor | cbn; lia | exact H ]
  end.

Lemma ContextsInv_startSession_catch (s : State) :
  ContextsInv s -> ContextsInv (startSession_catch s).
Proof.
  intros H. apply ContextsInv_stopSession. contexts_neutral (@nil HostCall).
Qed.

Lemma ContextsInv_after_audio (msg : LiveServerMessage) (s : State) :
  ContextsInv s -> ContextsInv (after_audio msg s).
Proof.
  intros H. unfold after_audio. destruct (interrupted msg); [|exact H].
  apply (ContextsInv_neutral s (interrupt s) (map SourceStop (sourcesRef s)));
    try exact H; try apply stops_no_context_call;
    rewrite interrupt_eq; cbn [inputContextRef outputContextRef calls fresh];
    try reflexivity; lia.
Qed.

Lemma ContextsInv_step (s : State) (e : Event) :
  ContextsInv s -> ContextsInv (step s e).
Proof.
  intros H.
  destruct e as [audio mic | mic | r | | inputData | msg t | msg | source
                 | | |]; cbn [step].
  - unfold startSession_setup.
    assert (H0 : ContextsInv (setError "" s))
      by contexts_neutral (@nil HostCall).
    clear H.
    destruct audio; cbn [fst]; [|apply ContextsInv_startSession_catch, H0].
    set (s0 := setError "" s) in *.
    set (inputCtx := {| contextId := fresh s0; contextRate := 16000 |}).
    set (outputCtx :=
           {| contextId := fresh (alloc (call (NewAudioContext inputCtx) s0));
              contextRate := 24000 |}).
    revert H0.
    apply (ContextsInv_created s0 _ inputCtx outputCtx [GetUserMedia mic]);
      try reflexivity; [|repeat constructor].
    cbn. rewrite <- !app_assoc. reflexivity.
  - destruct mic as [stream|]; cbn [startSession_media fst].
    + contexts_neutral [ConnectLiveSession].
    + apply ContextsInv_startSession_catch, H.
  - destruct r; cbn [startSession_resume].
    + contexts_neutral (@nil HostCall).
    + apply ContextsInv_startSession_catch, H.
  - unfold onopen. contexts_neutral (@nil HostCall).
  - unfold onaudioprocess. destruct (createBlob inputData) as [pcmBlob|];
      [|exact H].
    contexts_neutral [SendRealtimeInput pcmBlob].
  - unfold onmessage_begin.
    destruct (inlineData msg) as [b|];
      [|apply ContextsInv_after_audio, H].
    destruct (String.eqb b ""); [apply ContextsInv_after_audio, H|].
    cbn [setIsSpeaking outputContextRef].
    destruct (outputContextRef s); [destruct (decode b)|]; cbn [fst];
      contexts_neutral (@nil HostCall).
  - unfold onmessage_resume.
    destruct (inlineData msg) as [b|]; [|exact H].
    destruct (match decode b with
              | Some bytes => decodeAudioData bytes 24000 1
              | None => None
              end) as [buffer|]; [|exact H].
    apply ContextsInv_after_audio.
    apply (ContextsInv_neutral s _
             [SourceStart {| nodeId := fresh s; buffer := buffer |}
                          (nextStartTimeRef s)]);
      try exact H; try reflexivity; [repeat constructor | cbn; lia].
  - unfold onended. cbn [set_sourcesRef sourcesRef].
    destruct (Nat.eqb _ 0); contexts_neutral (@nil HostCall).
  - apply ContextsInv_stopSession. contexts_neutral (@nil HostCall).
  - apply ContextsInv_stopSession. contexts_neutral (@nil HostCall).
  - apply ContextsInv_stopSession, H.
Qed.

(** *** The runs of the machine *)

(** The handlers of [LiveTutor] are their pieces, one after the other. *)
Lemma startSession_begin_cut (audio : AudioSetup) (mic : MicResult)
    (s : State) :
  startSession_begin audio mic s
  = let '(s1, suspended) := startSession_setup audio mic s in
    if suspended then startSession_media mic s1 else (s1, false).
Proof.
  unfold startSession_begin, startSession_setup, startSession_media.
  destruct audio, mic; reflexivity.
Qed.

Lemma onmessage_cut (msg : LiveServerMessage) (t : spec_float) (s : State) :
  onmessage msg t s
  = let '(s1, suspended) := onmessage_begin msg t s in
    if suspended then onmessage_resume msg s1 else s1.
Proof.
  unfold onmessage, onmessage_begin, onmessage_resume.
  destruct (inlineData msg) as [b|]; [|reflexivity].
  destruct (String.eqb b ""); [reflexivity|].
  cbn [setIsSpeaking outputContextRef].
  destruct (outputContextRef s); [|reflexivity].
  destruct (decode b) as [bytes|]; [|reflexivity].
  destruct (decodeAudioData bytes 24000 1); reflexivity.
Qed.

Lemma run_snoc (events : list Event) (e : Event) :
  run (events ++ [e]) = step (run events) e.
Proof. unfold run. rewrite fold_left_app. reflexivity. Qed.

Lemma run_invariants (events : list Event) :
  SourcesInv (run events) /\ ContextsInv (run events).
Proof.
  induction events as [|e events IH] using rev_ind.
  - split; [apply SourcesInv_initial | apply ContextsInv_initial].
  - rewrite run_snoc. destruct IH as [A B].
    split; [apply SourcesInv_step, A | apply ContextsInv_step, B].
Qed.

(** X4. Whatever happens to the component, in whatever order (the handlers
    and the pieces of the asynchronous ones between their suspensions):
    every [source.stop()] it calls is on a source that was started before
    and not stopped yet, and the sources it tracks are distinct, started
    and not stopped. *)
Theorem source_stops_permitted (events : list Event) :
  each_permitted stop_permitted (calls (run events))
  /\ NoDup (sourcesRef (run events))
  /\ forall source, In source (sourcesRef (run events)) ->
       (exists when, In (SourceStart source when) (calls (run events)))
       /\ ~ In (SourceStop source) (calls (run events)).
Proof.
  destruct (run_invariants events) as [(I2 & I3 & I4 & I5) _].
  split; [exact I5|]. split; [exact I2 | exact I3].
Qed.

(** X5. Whatever happens to the component, in whatever order: every
    [close()] it calls is on an audio context created before and not
    closed yet; the two context references are set together and cleared
    together; a referenced context is one that was created and is not
    closed, and the two references never hold the same context. *)
Theorem context_closes_permitted (events : list Event) :
  each_permitted close_permitted (calls (run events))
  /\ (inputContextRef (run events) = None
      <-> outputContextRef (run events) = None)
  /\ (forall c,
        inputContextRef (run events) = Some c
        \/ outputContextRef (run events) = Some c ->
        In (NewAudioContext c) (calls (run events))
        /\ ~ In (ContextClose c) (calls (run events)))
  /\ forall c c',
       inputContextRef (run events) = Some c ->
       outputContextRef (run events) = Some c' -> c <> c'.
Proof.
  destruct (run_invariants events) as [_ (I1 & I2 & I3 & I4 & I5)].
  split; [exact I5|]. split; [exact I1|]. split; [exact I2 | exact I3].
Qed.

(** A run from [initial] that stops a source and closes the contexts. *)
Example run_with_stop_and_close :
  calls (run [Start AudioContextAvailable (MicGranted stream0);
              Media (MicGranted stream0);
              Settle (SessionResolved session0); Open;
              Message chunk (number_of_Z 1); Decoded chunk; Stop])
  = [NewAudioContext {| contextId := 0; contextRate := 16000 |};
     NewAudioContext {| contextId := 1; contextRate := 24000 |};
     GetUserMedia (MicGranted stream0); ConnectLiveSession;
     SourceStart {| nodeId := 2; buffer := silence |} (number_of_Z 1);
     SessionClose session0;
     ContextClose {| contextId := 0; contextRate := 16000 |};
     ContextClose {| contextId := 1; contextRate := 24000 |};
     SourceStop {| nodeId := 2; buffer := silence |}].
Proof. vm_compute. reflexivity. Qed.

(** *** The end of playback *)

Lemma onended_sources (source : AudioBufferSourceNode) (s : State) :
  sourcesRef (onended source s)
  = List.filter (fun x => negb (Nat.eqb (nodeId x) (nodeId source)))
                (sourcesRef s).
Proof.
  unfold onended. cbn [set_sourcesRef sourcesRef].
  destruct (Nat.eqb _ 0); reflexivity.
Qed.

Lemma all_ended_snoc (l : list AudioBufferSourceNode)
    (source : AudioBufferSourceNode) (s : State) :
  all_ended (l ++ [source]) s = onended source (all_ended l s).
Proof. unfold all_ended. rewrite fold_left_app. reflexivity. Qed.

(** The sources tracked after the events are those that none of them
    names. *)
Lemma all_ended_sources (l : list AudioBufferSourceNode) (s : State)
    (x : AudioBufferSourceNode) :
  In x (sourcesRef (all_ended l s))
  <-> In x (sourcesRef s) /\ forall y, In y l -> nodeId y <> nodeId x.
Proof.
  induction l as [|y l IH] using rev_ind.
  - cbn. split; [intros H; split; [exact H | intros ? []] | tauto].
  - rewrite all_ended_snoc, onended_sources, filter_In, IH.
    rewrite negb_true_iff, Nat.eqb_neq. split.
    + intros [[Hx Hl] Hy]. split; [exact Hx|]. intros z Hz.
      apply in_app_iff in Hz. destruct Hz as [Hz | [<- | []]];
        [exact (Hl z Hz) | congruence].
    + intros [Hx Hl]. split; [split; [exact Hx|]|].
      * intros z Hz. apply Hl, in_app_iff. left. exact Hz.
      * intros E. apply (Hl y); [apply in_app_iff; right; left; reflexivity|].
        congruence.
Qed.

(** X6. The speaking flag and the end of playback. Once the ['ended']
    event of every tracked source has been handled, no source is tracked
    and the flag is off; as long as a tracked source has not ended, the
    events leave the flag as it is and the source tracked. No event makes
    a host call. *)
Theorem speaking_until_all_ended (l : list AudioBufferSourceNode) (s : State) :
  (l <> [] ->
   (forall x, In x (sourcesRef s) -> exists y, In y l /\ nodeId y = nodeId x) ->
   sourcesRef (all_ended l s) = [] /\ isSpeaking (all_ended l s) = false)
  /\ (forall x, In x (sourcesRef s) ->
        (forall y, In y l -> nodeId y <> nodeId x) ->
        In x (sourcesRef (all_ended l s))
        /\ isSpeaking (all_ended l s) = isSpeaking s)
  /\ calls (all_ended l s) = calls s.
Proof.
  split; [|split].
  - intros Hne Hall.
    assert (Hnil : sourcesRef (all_ended l s) = []).
    { destruct (sourcesRef (all_ended l s)) as [|x r] eqn:E; [reflexivity|].
      assert (Hx : In x (sourcesRef (all_ended l s)))
        by (rewrite E; left; reflexivity).
      apply all_ended_sources in Hx. destruct Hx as [Hx Hl].
      destruct (Hall x Hx) as (y & Hy & Hid). destruct (Hl y Hy Hid). }
    split; [exact Hnil|].
    destruct l as [|y l] using rev_ind; [congruence|]. clear IHl.
    rewrite all_ended_snoc in *. rewrite onended_sources in Hnil.
    unfold onended. cbn [set_sourcesRef sourcesRef]. rewrite Hnil.
    reflexivity.
  - intros x Hx Hl. split; [apply all_ended_sources; split; assumption|].
    induction l as [|y l IH] using rev_ind; [reflexivity|].
    rewrite all_ended_snoc.
    assert (Hl' : forall z, In z l -> nodeId z <> nodeId x)
      by (intros z Hz; apply Hl, in_app_iff; left; exact Hz).
    rewrite <- (IH Hl').
    assert (Hin : In x (sourcesRef (onended y (all_ended l s)))).
    { rewrite <- all_ended_snoc. apply all_ended_sources.
      split; assumption. }
    rewrite onended_sources in Hin.
    unfold onended. cbn [set_sourcesRef sourcesRef].
    destruct (List.filter _ (sourcesRef (all_ended l s))) as [|z r];
      [destruct Hin | reflexivity].
  - induction l as [|y l IH] using rev_ind; [reflexivity|].
    rewrite all_ended_snoc, <- IH.
    unfold onended. cbn [set_sourcesRef sourcesRef].
    destruct (Nat.eqb _ 0); reflexivity.
Qed.

(** The state [speaking] tracks one source, of identity 2: its ['ended']
    event turns the flag off, that of another source does not. *)
Lemma speaking_until_all_ended_witness :
  (sourcesRef (all_ended [{| nodeId := 2; buffer := silence |}] speaking) = []
   /\ isSpeaking (all_ended [{| nodeId := 2; buffer := silence |}] speaking)
      = false)
  /\ (In {| nodeId := 2; buffer := silence |}
         (sourcesRef (all_ended [{| nodeId := 7; buffer := silence |}] speaking))
      /\ isSpeaking (all_ended [{| nodeId := 7; buffer := silence |}] speaking)
         = isSpeaking speaking).
Proof.
  split.
  - apply (proj1 (speaking_until_all_ended
                    [{| nodeId := 2; buffer := silence |}] speaking));
      [discriminate|].
    intros x Hx. exists {| nodeId := 2; buffer := silence |}.
    split; [left; reflexivity|].
    vm_compute in Hx. destruct Hx as [<- | []]. reflexivity.
  - apply (proj1 (proj2 (speaking_until_all_ended
                           [{| nodeId := 7; buffer := silence |}] speaking))).
    + vm_compute. left. reflexivity.
    + intros y [<- | []]. cbn. lia.
Defined.

(** *** Chunks that arrive late *)

Lemma Math_max_upper (a b : spec_float) :
  SFcompare a b <> None ->
  SFleb a (Math_max a b) = true /\ SFleb b (Math_max a b) = true.
Proof.
  unfold SFleb, Math_max. intros H.
  destruct (SFcompare a b) as [c|] eqn:Hc; [|congruence].
  pose proof (SFcompare_antisym _ _ _ Hc) as Hc'.
  pose proof (SFcompare_refl _ _ _ Hc) as Ha.
  pose proof (SFcompare_refl _ _ _ Hc') as Hb.
  destruct c; cbn [CompOpp] in Hc'.
  - destruct a as [[|]| | |]; rewrite ?Hc, ?Ha, ?Hb, ?Hc'; split; reflexivity.
  - rewrite Hc, Hb. split; reflexivity.
  - rewrite Ha, Hc'. split; reflexivity.
Qed.

(** [Math.max(cursor, t)] is [t] when the cursor is before [t]. *)
Lemma Math_max_late (cursor t : spec_float) :
  SFltb cursor t = true -> Math_max cursor t = t.
Proof.
  unfold SFltb, Math_max.
  destruct (SFcompare cursor t) as [[| |]|]; try discriminate. reflexivity.
Qed.

(** In a schedule, a chunk starts at the later of its arrival and the end
    of its predecessor. *)
Lemma schedule_next (chunks : list (spec_float * spec_float)) :
  forall (cursor : spec_float) (k : nat) (start start' t d t' d' : spec_float),
    schedule cursor chunks !! k = Some start ->
    schedule cursor chunks !! S k = Some start' ->
    chunks !! k = Some (t, d) ->
    chunks !! S k = Some (t', d') ->
    start' = Math_max (number_add start d) t'.
Proof.
  induction chunks as [|[t0 d0] chunks IH];
    intros cursor k start start' t d t' d' Hs Hs' Hc Hc'; [discriminate|].
  destruct k as [|k].
  - cbn in Hs, Hc. injection Hs as <-. injection Hc as <- <-.
    destruct chunks as [|[t1 d1] rest]; [discriminate|].
    cbn in Hs', Hc'. injection Hs' as <-. injection Hc' as <- <-.
    reflexivity.
  - cbn [schedule] in Hs, Hs'. cbn in Hs, Hs', Hc, Hc'.
    exact (IH _ k _ _ _ _ _ _ Hs Hs' Hc Hc').
Qed.

(** X7. Playback never overlaps and never starts in the past. Of the
    chunks of a sequence of audio messages handled in arrival order with an
    output context, each one after the first is started no earlier than
    the end of its predecessor and no earlier than the clock time at which
    it is handled (these two being numbers that compare, as all but NaN
    do); and a chunk handled after its predecessor's end is started at that
    clock time: the gap is not closed. *)
Theorem chunks_never_overlap (s : State)
    (msgs : list (LiveServerMessage * spec_float))
    (buffers : list AudioBuffer) :
  outputContextRef s <> None ->
  Forall2 (fun mt buffer => is_chunk (fst mt) buffer) msgs buffers ->
  forall (k : nat) (start start' t' : spec_float) (buffer : AudioBuffer),
    scheduled_starts (issued s (handle_all msgs s)) !! k = Some start ->
    scheduled_starts (issued s (handle_all msgs s)) !! S k = Some start' ->
    buffers !! k = Some buffer ->
    map snd msgs !! S k = Some t' ->
    (SFcompare (number_add start (duration buffer)) t' <> None ->
     SFleb (number_add start (duration buffer)) start' = true
     /\ SFleb t' start' = true)
    /\ (SFltb (number_add start (duration buffer)) t' = true -> start' = t').
Proof.
  intros Ho Hc k start start' t' buffer Hk Hk' Hb Ht'.
  destruct (handle_all_chunks msgs buffers Hc s Ho) as (l & Hl & Hs).
  rewrite (issued_app _ _ _ Hl), Hs in Hk, Hk'.
  pose proof (Forall2_length _ _ _ Hc) as Hlen.
  assert (Hkl : (k < length msgs)%nat).
  { apply lookup_lt_Some in Hb. lia. }
  destruct (lookup_lt_is_Some_2 (map snd msgs) k) as [t Ht];
    [rewrite length_map; exact Hkl|].
  assert (HSk : (S k < length buffers)%nat).
  { apply lookup_lt_Some in Ht'. rewrite length_map in Ht'. lia. }
  destruct (lookup_lt_is_Some_2 buffers (S k) HSk) as [buffer' Hb'].
  assert (E : start' = Math_max (number_add start (duration buffer)) t').
  { apply (schedule_next _ (nextStartTimeRef s) k start start'
             t (duration buffer) t' (duration buffer') Hk Hk').
    - rewrite lookup_zip_with, Ht, list_lookup_fmap, Hb. reflexivity.
    - rewrite lookup_zip_with, Ht', list_lookup_fmap, Hb'. reflexivity. }
  rewrite E. split; [apply Math_max_upper | apply Math_max_late].
Qed.

(** Two chunks handled at clock times 1 and 2, each lasting 3/24000
    seconds: the second arrives after the first has ended and starts at
    2. *)
Lemma chunks_never_overlap_witness :
  (SFleb (number_add (number_of_Z 1) (duration silence)) (number_of_Z 2) = true
   /\ SFleb (number_of_Z 2) (number_of_Z 2) = true)
  /\ number_of_Z 2 = number_of_Z 2.
Proof.
  assert (Ho : outputContextRef connected <> None) by discriminate.
  assert (Hc : Forall2 (fun mt buffer => is_chunk (fst mt) buffer)
                 [(chunk, number_of_Z 1); (chunk, number_of_Z 2)]
                 [silence; silence])
    by (repeat constructor; exact chunk_is_chunk).
  destruct (chunks_never_overlap connected _ _ Ho Hc 0
              (number_of_Z 1) (number_of_Z 2) (number_of_Z 2) silence)
    as [A B]; try reflexivity.
  split; [apply A; vm_compute; discriminate | apply B; vm_compute; reflexivity].
Defined.

(** *** The cursor across sessions *)

Lemma step_cursor (s : State) (e : Event) :
  no_message e -> nextStartTimeRef (step s e) = nextStartTimeRef s.
Proof.
  destruct e as [audio mic | mic | r | | inputData | msg t | msg | source
                 | | |]; intros H; try destruct H; cbn [step].
  - unfold startSession_setup, startSession_catch.
    destruct audio; cbn [fst]; [reflexivity|].
    rewrite stopSession_eq. reflexivity.
  - unfold startSession_media, startSession_catch.
    destruct mic; cbn [fst]; [reflexivity|].
    rewrite stopSession_eq. reflexivity.
  - unfold startSession_resume, startSession_catch.
    destruct r; [reflexivity|]. rewrite stopSession_eq. reflexivity.
  - reflexivity.
  - unfold onaudioprocess. destruct (createBlob inputData); reflexivity.
  - unfold onended. cbn [set_sourcesRef sourcesRef].
    destruct (Nat.eqb _ 0); reflexivity.
  - unfold onclose. rewrite stopSession_eq. reflexivity.
  - unfold onerror. rewrite stopSession_eq. reflexivity.
  - rewrite stopSession_eq. reflexivity.
Qed.

(** X8. Only [onmessage] writes the playback cursor: stopping a session,
    starting one, its opening, its closing, an error, the microphone frames
    and the ends of sources leave it as it is. So the first chunk handled
    after any such events, a stop and a new start among them, is started at
    the maximum of the cursor the earlier chunks left and the clock of the
    output context, and not at that clock. *)
Theorem cursor_kept_without_messages (events : list Event) (s : State)
    (msg : LiveServerMessage) (buffer : AudioBuffer) (t : spec_float) :
  Forall no_message events ->
  nextStartTimeRef (fold_left step events s) = nextStartTimeRef s
  /\ (outputContextRef (fold_left step events s) <> None ->
      is_chunk msg buffer ->
      scheduled_starts
        (issued (fold_left step events s)
                (onmessage msg t (fold_left step events s)))
      = [Math_max (nextStartTimeRef s) t]).
Proof.
  intros Hev.
  assert (Hcur : nextStartTimeRef (fold_left step events s)
                 = nextStartTimeRef s).
  { revert s. induction Hev as [|e events He _ IH]; intros s; [reflexivity|].
    cbn [fold_left]. rewrite IH. apply step_cursor, He. }
  split; [exact Hcur|]. intros Ho Hc.
  rewrite (onmessage_chunk msg buffer t _ Hc Ho).
  erewrite issued_app; [|cbn [calls]; reflexivity].
  rewrite Hcur. reflexivity.
Qed.

(** After the chunk of [speaking], handled at clock time 1, the session is
    stopped and a new one started; its first chunk, handled when the new
    context's clock reads 0, is started at the old cursor. *)
Lemma cursor_kept_without_messages_witness :
  scheduled_starts
    (issued
       (fold_left step
          [Stop; Start AudioContextAvailable (MicGranted stream0);
           Media (MicGranted stream0); Settle (SessionResolved session0); Open]
          speaking)
       (onmessage chunk zero
          (fold_left step
             [Stop; Start AudioContextAvailable (MicGranted stream0);
              Media (MicGranted stream0); Settle (SessionResolved session0);
              Open]
             speaking)))
  = [Math_max (nextStartTimeRef speaking) zero]
  /\ Math_max (nextStartTimeRef speaking) zero
     = number_add (number_of_Z 1) (duration silence).
Proof.
  split; [|vm_compute; reflexivity].
  apply (proj2 (cursor_kept_without_messages
                  [Stop; Start AudioContextAvailable (MicGranted stream0);
                   Media (MicGranted stream0);
                   Settle (SessionResolved session0); Open]
                  speaking chunk silence zero
                  ltac:(repeat constructor))).
  - vm_compute. discriminate.
  - exact chunk_is_chunk.
Defined.

End LiveTutorExtra.

(** ** The replies of the model *)

Module GeminiServiceExtra.

Import GeminiService GeminiServicePlan.

Lemma strip_prefix_app (p t : list Z) : strip_prefix p (p ++ t) = Some t.
Proof.
  induction p as [|a p IH]; [reflexivity|].
  cbn [app strip_prefix]. rewrite Z.eqb_refl. exact IH.
Qed.

Lemma drop_spaces_app (ws t : list Z) :
  all_space ws = true -> drop_spaces (ws ++ t) = drop_spaces t.
Proof.
  induction ws as [|c ws IH]; [reflexivity|]. cbn [all_space forallb].
  intros H. apply andb_true_iff in H. destruct H as [Hc Hws].
  cbn [app drop_spaces]. rewrite Hc. exact (IH Hws).
Qed.

Lemma all_space_rev (ws : list Z) :
  all_space ws = true -> all_space (rev ws) = true.
Proof.
  unfold all_space. rewrite !forallb_forall. intros H c Hc.
  apply H, in_rev, Hc.
Qed.

Lemma plain_facts (c : Z) :
  plain c = true -> is_space c = false /\ c <> 96.
Proof.
  unfold plain. intros H. apply andb_true_iff in H. destruct H as [A B].
  apply negb_true_iff in A, B. apply Z.eqb_neq in B. split; assumption.
Qed.

(** A text that starts with a plain code unit or with white space does not
    start with a fence. *)
Lemma no_fence_plain (fence t : list Z) (c : Z) :
  c <> 96 -> strip_prefix (96 :: fence) (c :: t) = None.
Proof.
  intros Hc. cbn [strip_prefix].
  destruct (Z.eqb_spec 96 c); [congruence | reflexivity].
Qed.

Lemma space_not_backtick (c : Z) : is_space c = true -> c <> 96.
Proof. intros H ->. discriminate H. Qed.

Lemma no_fence_padded (fence ws t : list Z) (a : Z) :
  all_space ws = true -> a <> 96 ->
  strip_prefix (96 :: fence) (ws ++ a :: t) = None.
Proof.
  intros Hws Ha. destruct ws as [|c ws]; cbn [app].
  - apply no_fence_plain, Ha.
  - apply no_fence_plain, space_not_backtick.
    cbn [all_space forallb] in Hws. apply andb_true_iff in Hws. tauto.
Qed.

(** The two ends of a bare text. *)
Lemma bare_ends (body : list Z) :
  bare body = true ->
  (exists a t, body = a :: t /\ plain a = true)
  /\ (exists z r, rev body = z :: r /\ plain z = true).
Proof.
  destruct body as [|a t]; [discriminate|]. unfold bare. intros H.
  apply andb_true_iff in H. destruct H as [Ha Hz].
  split; [exists a, t; split; [reflexivity | exact Ha]|].
  exists (List.last (a :: t) a), (rev (List.removelast (a :: t))).
  split; [|exact Hz].
  rewrite (app_removelast_last a (l := a :: t)) at 1 by discriminate.
  rewrite rev_app_distr. reflexivity.
Qed.

Lemma trim_padded (ws1 body ws2 : list Z) :
  bare body = true -> all_space ws1 = true -> all_space ws2 = true ->
  trim (ws1 ++ body ++ ws2) = body.
Proof.
  intros Hb H1 H2.
  destruct (bare_ends body Hb) as [(a & t & Ea & Ha) (z & r & Ez & Hz)].
  apply plain_facts in Ha, Hz. destruct Ha as [Ha _], Hz as [Hz _].
  unfold trim. rewrite (drop_spaces_app ws1 _ H1).
  assert (E1 : drop_spaces (body ++ ws2) = body ++ ws2)
    by (rewrite Ea; cbn [app drop_spaces]; rewrite Ha; reflexivity).
  rewrite E1, rev_app_distr, (drop_spaces_app _ _ (all_space_rev _ H2)).
  rewrite Ez. cbn [drop_spaces]. rewrite Hz, <- Ez. apply rev_involutive.
Qed.

(** What [cleanJSON] makes of a bare text, padded with white space and
    fenced. *)
Lemma cleanJSON_bare (body ws1 ws2 : list Z) :
  bare body = true -> all_space ws1 = true -> all_space ws2 = true ->
  cleanJSON (ws1 ++ body ++ ws2) = body.
Proof.
  intros Hb H1 H2.
  destruct (bare_ends body Hb) as [(a & t & Ea & Ha) (z & r & Ez & Hz)].
  apply plain_facts in Ha, Hz. destruct Ha as [_ Ha], Hz as [_ Hz].
  assert (Hne : ws1 ++ body ++ ws2 <> [])
    by (rewrite Ea; destruct ws1; discriminate).
  unfold cleanJSON. destruct (ws1 ++ body ++ ws2) as [|c0 t0] eqn:E;
    [congruence|]. rewrite <- E. clear Hne.
  assert (L : forall fence, strip_prefix (96 :: fence) (ws1 ++ body ++ ws2)
                            = None).
  { intros fence. rewrite Ea. cbn [app].
    apply no_fence_padded; assumption. }
  unfold replace_leading.
  change (units "```json") with (96 :: [96; 96; 106; 115; 111; 110]).
  change (units "```") with (96 :: [96; 96]).
  rewrite !L. unfold replace_trailing.
  change (rev (96 :: [96; 96])) with (96 :: [96; 96]).
  rewrite !rev_app_distr, Ez, <- app_assoc. cbn [app].
  rewrite (no_fence_padded _ (rev ws2) _ z (all_space_rev _ H2) Hz).
  apply trim_padded; assumption.
Qed.

Lemma drop_spaces_bare (body rest : list Z) :
  bare body = true -> drop_spaces (body ++ rest) = body ++ rest.
Proof.
  intros Hb. destruct (bare_ends body Hb) as [(a & t & -> & Ha) _].
  apply plain_facts in Ha. cbn [app drop_spaces]. rewrite (proj1 Ha).
  reflexivity.
Qed.

Lemma no_fence_bare (fence body rest : list Z) :
  bare body = true -> strip_prefix (96 :: fence) (body ++ rest) = None.
Proof.
  intros Hb. destruct (bare_ends body Hb) as [(a & t & -> & Ha) _].
  apply plain_facts in Ha. apply no_fence_plain, Ha.
Qed.

(** The closing fence at the very end is removed with the white space
    before it. *)
Lemma closing_fence (body ws2 : list Z) :
  bare body = true -> all_space ws2 = true ->
  trim (replace_trailing (units "```") (body ++ ws2 ++ units "```")) = body.
Proof.
  intros Hb H2.
  destruct (bare_ends body Hb) as [_ (z & r & Ez & Hz)].
  apply plain_facts in Hz. unfold replace_trailing.
  change (units "```") with [96; 96; 96].
  change (rev [96; 96; 96]) with [96; 96; 96].
  replace (rev (body ++ ws2 ++ [96; 96; 96]))
    with ([96; 96; 96] ++ rev ws2 ++ rev body)
    by (rewrite !rev_app_distr, <- app_assoc; reflexivity).
  rewrite strip_prefix_app, (drop_spaces_app _ _ (all_space_rev _ H2)).
  rewrite Ez. cbn [drop_spaces]. rewrite (proj1 Hz), <- Ez, rev_involutive.
  pose proof (trim_padded [] body [] Hb eq_refl eq_refl) as T.
  rewrite app_nil_r in T. exact T.
Qed.

(** A closing fence followed by white space stays. *)
Lemma closing_fence_padded (body ws2 ws3 : list Z) :
  bare body = true -> ws3 <> [] -> all_space ws3 = true ->
  trim (replace_trailing (units "```")
          (body ++ ws2 ++ units "```" ++ ws3))
  = body ++ ws2 ++ units "```".
Proof.
  intros Hb Hne H3. change (units "```") with [96; 96; 96].
  assert (E : rev (body ++ ws2 ++ [96; 96; 96] ++ ws3)
              = rev ws3 ++ 96 :: [96; 96] ++ rev ws2 ++ rev body).
  { rewrite !rev_app_distr, <- !app_assoc. reflexivity. }
  unfold replace_trailing. change (rev [96; 96; 96]) with (96 :: [96; 96]).
  rewrite E.
  assert (N : strip_prefix (96 :: [96; 96])
                (rev ws3 ++ 96 :: [96; 96] ++ rev ws2 ++ rev body) = None).
  { destruct (rev ws3) as [|c w] eqn:Er.
    - apply (f_equal (@rev Z)) in Er. rewrite rev_involutive in Er.
      cbn in Er. congruence.
    - cbn [app]. apply no_fence_plain, space_not_backtick.
      pose proof (all_space_rev _ H3) as H. rewrite Er in H.
      cbn [all_space forallb] in H. apply andb_true_iff in H. tauto. }
  rewrite N. unfold trim. rewrite (drop_spaces_bare _ _ Hb), E.
  rewrite (drop_spaces_app _ _ (all_space_rev _ H3)).
  cbn [drop_spaces]. change (is_space 96) with false. cbv iota.
  replace (96 :: [96; 96] ++ rev ws2 ++ rev body)
    with (rev (body ++ ws2 ++ [96; 96; 96]))
    by (rewrite !rev_app_distr, <- !app_assoc; reflexivity).
  apply rev_involutive.
Qed.

Lemma opening_json_fence (ws1 rest body : list Z) :
  bare body = true -> all_space ws1 = true ->
  replace_leading (units "```")
    (replace_leading (units "```json")
       (units "```json" ++ ws1 ++ body ++ rest))
  = body ++ rest.
Proof.
  intros Hb H1. unfold replace_leading at 2.
  rewrite strip_prefix_app, (drop_spaces_app ws1 _ H1).
  rewrite (drop_spaces_bare _ _ Hb). unfold replace_leading.
  change (units "```") with (96 :: [96; 96]).
  rewrite (no_fence_bare _ _ _ Hb). reflexivity.
Qed.

Lemma opening_plain_fence (ws1 rest body : list Z) :
  bare body = true -> ws1 <> [] -> all_space ws1 = true ->
  replace_leading (units "```")
    (replace_leading (units "```json")
       (units "```" ++ ws1 ++ body ++ rest))
  = body ++ rest.
Proof.
  intros Hb Hne H1.
  assert (N : strip_prefix (units "```json")
                (units "```" ++ ws1 ++ body ++ rest) = None).
  { destruct ws1 as [|c ws1]; [congruence|].
    cbn [all_space forallb] in H1. apply andb_true_iff in H1.
    destruct H1 as [Hc _].
    change (units "```json") with ([96; 96; 96] ++ 106 :: [115; 111; 110]).
    change (units "```") with [96; 96; 96].
    cbn [app strip_prefix]. change (96 =? 96) with true. cbv iota.
    destruct (Z.eqb_spec 106 c) as [<-|_]; [discriminate Hc | reflexivity]. }
  unfold replace_leading at 2. rewrite N.
  unfold replace_leading.
  rewrite strip_prefix_app, (drop_spaces_app ws1 _ H1).
  apply drop_spaces_bare, Hb.
Qed.

Lemma cleanJSON_nonempty (c : Z) (t : list Z) :
  cleanJSON (c :: t)
  = trim (replace_trailing (units "```")
            (replace_leading (units "```")
               (replace_leading (units "```json") (c :: t)))).
Proof. reflexivity. Qed.

Lemma cleanJSON_json_fenced (body ws1 ws2 : list Z) :
  bare body = true -> all_space ws1 = true -> all_space ws2 = true ->
  cleanJSON (units "```json" ++ ws1 ++ body ++ ws2 ++ units "```") = body.
Proof.
  intros Hb H1 H2.
  change (units "```json" ++ ws1 ++ body ++ ws2 ++ units "```")
    with (96 :: [96; 96; 106; 115; 111; 110]
                ++ ws1 ++ body ++ ws2 ++ units "```").
  rewrite cleanJSON_nonempty.
  change (96 :: [96; 96; 106; 115; 111; 110]
             ++ ws1 ++ body ++ ws2 ++ units "```")
    with (units "```json" ++ ws1 ++ body ++ ws2 ++ units "```").
  rewrite (opening_json_fence _ _ _ Hb H1).
  apply closing_fence; assumption.
Qed.

Lemma cleanJSON_plain_fenced (body ws1 ws2 : list Z) :
  bare body = true -> all_space ws1 = true -> all_space ws2 = true ->
  ws1 <> [] ->
  cleanJSON (units "```" ++ ws1 ++ body ++ ws2 ++ units "```") = body.
Proof.
  intros Hb H1 H2 Hne.
  change (units "```" ++ ws1 ++ body ++ ws2 ++ units "```")
    with (96 :: [96; 96] ++ ws1 ++ body ++ ws2 ++ units "```").
  rewrite cleanJSON_nonempty.
  change (96 :: [96; 96] ++ ws1 ++ body ++ ws2 ++ units "```")
    with (units "```" ++ ws1 ++ body ++ ws2 ++ units "```").
  rewrite (opening_plain_fence _ _ _ Hb Hne H1).
  apply closing_fence; assumption.
Qed.

Lemma cleanJSON_fence_padded (body ws1 ws2 ws3 : list Z) :
  bare body = true -> all_space ws1 = true ->
  ws3 <> [] -> all_space ws3 = true ->
  cleanJSON (units "```json" ++ ws1 ++ body ++ ws2 ++ units "```" ++ ws3)
  = body ++ ws2 ++ units "```".
Proof.
  intros Hb H1 Hne H3.
  change (units "```json" ++ ws1 ++ body ++ ws2 ++ units "```" ++ ws3)
    with (96 :: [96; 96; 106; 115; 111; 110]
                ++ ws1 ++ body ++ ws2 ++ units "```" ++ ws3).
  rewrite cleanJSON_nonempty.
  change (96 :: [96; 96; 106; 115; 111; 110]
             ++ ws1 ++ body ++ ws2 ++ units "```" ++ ws3)
    with (units "```json" ++ ws1 ++ body ++ ws2 ++ units "```" ++ ws3).
  rewrite (opening_json_fence _ _ _ Hb H1).
  apply closing_fence_padded; assumption.
Qed.

(** X9. What [cleanJSON] unwraps. A text whose first and last code units
    are neither white space nor backticks comes back as it is: from any
    white space around it; from a [```json] fence closed by [```] at the
    very end, with any white space after the opening fence and before the
    closing one; and from a plain [```] fence followed by white space. But
    a closing fence followed by white space, a line break say, stays:
    only the opening fence and the white space at the end are removed. *)
Theorem cleanJSON_unwraps (body ws1 ws2 : list Z) :
  bare body = true -> all_space ws1 = true -> all_space ws2 = true ->
  cleanJSON (ws1 ++ body ++ ws2) = body
  /\ cleanJSON (units "```json" ++ ws1 ++ body ++ ws2 ++ units "```") = body
  /\ (ws1 <> [] ->
      cleanJSON (units "```" ++ ws1 ++ body ++ ws2 ++ units "```") = body)
  /\ forall ws3,
       ws3 <> [] -> all_space ws3 = true ->
       cleanJSON (units "```json" ++ ws1 ++ body ++ ws2 ++ units "```" ++ ws3)
       = body ++ ws2 ++ units "```".
Proof.
  intros Hb H1 H2. split; [apply cleanJSON_bare; assumption|].
  split; [apply cleanJSON_json_fenced; assumption|].
  split; [intros Hne; apply cleanJSON_plain_fenced; assumption|].
  intros ws3 Hne H3. apply cleanJSON_fence_padded; assumption.
Qed.

(** An array in a fence, with line breaks inside the fence and after it. *)
Lemma cleanJSON_unwraps_witness :
  cleanJSON (units "```json" ++ [10] ++ units "[1, 2]" ++ [10] ++ units "```")
  = units "[1, 2]"
  /\ cleanJSON (units "```json" ++ [10] ++ units "[1, 2]" ++ [10]
                ++ units "```" ++ [10])
     = units "[1, 2]" ++ [10] ++ units "```".
Proof.
  destruct (cleanJSON_unwraps (units "[1, 2]") [10] [10]
              eq_refl eq_refl eq_refl) as (_ & A & _ & B).
  split; [exact A|]. apply B; [discriminate | reflexivity].
Defined.

(** X10. [generateStudyPlan] and the reply of the model. It is rejected
    only when the request is: whatever the reply and whatever the host's
    [JSON.parse], it raises no exception. An absent or empty text, and a
    text that fails to parse once cleaned, give the empty plan. A reply in
    a [```json] fence gives what [JSON.parse] makes of the text inside (for
    a text with plain ends). A reply whose closing fence is followed by
    white space is parsed with that fence still there; where that fails,
    as it does for a parser of the JSON grammar, the plan is empty although
    the text inside the fence is a plan. *)
Theorem generateStudyPlan_reply (JSON_parse : list Z -> option JSON) :
  (forall api,
     generateStudyPlan JSON_parse api = Rejected <-> api = ApiRejected)
  /\ (forall text,
        (text = None \/ text = Some []
         \/ exists t, text = Some t /\ JSON_parse (cleanJSON t) = None) ->
        generateStudyPlan JSON_parse (ApiResponse text)
        = Fulfilled (JArray []))
  /\ (forall body ws1 ws2 plan,
        bare body = true -> all_space ws1 = true -> all_space ws2 = true ->
        JSON_parse body = Some plan ->
        generateStudyPlan JSON_parse
          (ApiResponse
             (Some (units "```json" ++ ws1 ++ body ++ ws2 ++ units "```")))
        = Fulfilled plan)
  /\ (forall body ws1 ws2 ws3,
        bare body = true -> all_space ws1 = true -> all_space ws2 = true ->
        ws3 <> [] -> all_space ws3 = true ->
        JSON_parse (body ++ ws2 ++ units "```") = None ->
        generateStudyPlan JSON_parse
          (ApiResponse
             (Some (units "```json" ++ ws1 ++ body ++ ws2 ++ units "```"
                    ++ ws3)))
        = Fulfilled (JArray [])).
Proof.
  split; [|split; [|split]].
  - intros [|[[|c t]|]]; cbn [generateStudyPlan];
      try (split; [discriminate | discriminate]); [tauto|].
    destruct (JSON_parse (cleanJSON (c :: t))); split; discriminate.
  - intros text [-> | [-> | (t & -> & Hp)]]; try reflexivity.
    cbn [generateStudyPlan]. destruct t; [reflexivity|].
    rewrite Hp. reflexivity.
  - intros body ws1 ws2 plan Hb H1 H2 Hp.
    pose proof (cleanJSON_json_fenced body ws1 ws2 Hb H1 H2) as E.
    revert E.
    change (units "```json" ++ ws1 ++ body ++ ws2 ++ units "```")
      with (96 :: [96; 96; 106; 115; 111; 110]
                  ++ ws1 ++ body ++ ws2 ++ units "```").
    intros E. cbn [generateStudyPlan]. rewrite E, Hp. reflexivity.
  - intros body ws1 ws2 ws3 Hb H1 H2 Hne H3 Hp.
    pose proof (cleanJSON_fence_padded body ws1 ws2 ws3 Hb H1 Hne H3) as E.
    revert E.
    change (units "```json" ++ ws1 ++ body ++ ws2 ++ units "```" ++ ws3)
      with (96 :: [96; 96; 106; 115; 111; 110]
                  ++ ws1 ++ body ++ ws2 ++ units "```" ++ ws3).
    intros E. cbn [generateStudyPlan]. rewrite E, Hp. reflexivity.
Qed.

(** With a parser of the JSON grammar: the fenced array is the plan; the
    same reply with a line break after the closing fence gives the empty
    plan. *)
Lemma generateStudyPlan_reply_witness :
  generateStudyPlan JSON_parse_grammar
    (ApiResponse
       (Some (units "```json" ++ [10] ++ units "[1, 2]" ++ [10]
              ++ units "```")))
  = Fulfilled (JArray [JNumber (units "1"); JNumber (units "2")])
  /\ generateStudyPlan JSON_parse_grammar
       (ApiResponse
          (Some (units "```json" ++ [10] ++ units "[1, 2]" ++ [10]
                 ++ units "```" ++ [10])))
     = Fulfilled (JArray [])
  /\ generateStudyPlan JSON_parse_grammar
       (ApiResponse (Some (units "```json [{")))
     = Fulfilled (JArray []).
Proof.
  destruct (generateStudyPlan_reply JSON_parse_grammar) as (_ & A & B & C).
  split; [|split].
  - apply B; reflexivity.
  - apply C; try reflexivity. discriminate.
  - apply A. right. right. eexists. split; reflexivity.
Defined.

End GeminiServiceExtra.

(** ** Answering a quiz *)

Module QuizGeneratorExtra.

Import QuizGenerator QuizSession.

Local Open Scope nat_scope.

(** The score of the questions [l], the first of which has index [idx]. *)
Lemma forEach_score (answers : gmap nat string) (l : list QuizQuestion) :
  forall idx score : nat,
    forEach (fun q i sc => if answered_correctly answers q i then S sc else sc)
            l idx score
    = (score
       + forEach (fun q i sc =>
                    if answered_correctly answers q i then S sc else sc)
                 l idx 0)%nat.
Proof.
  induction l as [|q l IH]; intros idx score; cbn [forEach]; [lia|].
  destruct (answered_correctly answers q idx);
    rewrite IH; [rewrite (IH _ 1%nat)|]; lia.
Qed.

Lemma forEach_bound (answers : gmap nat string) (l : list QuizQuestion) :
  forall idx : nat,
    (forEach (fun q i sc => if answered_correctly answers q i then S sc else sc)
             l idx 0 <= length l)%nat.
Proof.
  induction l as [|q l IH]; intros idx; cbn [forEach length]; [lia|].
  rewrite forEach_score. specialize (IH (S idx)).
  destruct (answered_correctly answers q idx); lia.
Qed.

(** An answer to a question before [idx] does not count from [idx] on. *)
Lemma forEach_insert_before (answers : gmap nat string) (option : string)
    (k : nat) (l : list QuizQuestion) :
  forall idx : nat,
    (k < idx)%nat ->
    forEach (fun q i sc =>
               if answered_correctly (<[k := option]> answers) q i
               then S sc else sc) l idx 0
    = forEach (fun q i sc =>
                 if answered_correctly answers q i then S sc else sc) l idx 0.
Proof.
  induction l as [|q l IH]; intros idx Hk; cbn [forEach]; [reflexivity|].
  rewrite forEach_score, (forEach_score answers), (IH (S idx)) by lia.
  unfold answered_correctly. rewrite lookup_insert_ne by lia. reflexivity.
Qed.

Lemma forEach_insert_after (answers : gmap nat string) (option : string)
    (k : nat) (l : list QuizQuestion) :
  forall idx : nat,
    (idx + length l <= k)%nat ->
    forEach (fun q i sc =>
               if answered_correctly (<[k := option]> answers) q i
               then S sc else sc) l idx 0
    = forEach (fun q i sc =>
                 if answered_correctly answers q i then S sc else sc) l idx 0.
Proof.
  induction l as [|q l IH]; intros idx Hk; cbn [forEach]; [reflexivity|].
  cbn [length] in Hk.
  rewrite forEach_score, (forEach_score answers), (IH (S idx)) by lia.
  unfold answered_correctly. rewrite lookup_insert_ne by lia. reflexivity.
Qed.

(** An answer to the question at [idx + k] changes its term of the
    score. *)
Lemma forEach_insert_at (answers : gmap nat string) (option : string)
    (l : list QuizQuestion) :
  forall (idx k : nat) (q : QuizQuestion),
    l !! k = Some q ->
    (forEach (fun q i sc =>
                if answered_correctly (<[(idx + k)%nat := option]> answers) q i
                then S sc else sc) l idx 0
     + (if answered_correctly answers q (idx + k) then 1 else 0)
     = forEach (fun q i sc =>
                  if answered_correctly answers q i then S sc else sc) l idx 0
       + (if String.eqb option (correctAnswer q) then 1 else 0))%nat.
Proof.
  induction l as [|q0 l IH]; intros idx k q Hq; [discriminate|].
  cbn [forEach].
  rewrite forEach_score, (forEach_score answers).
  destruct k as [|k].
  - injection Hq as ->. rewrite Nat.add_0_r.
    rewrite forEach_insert_before by lia.
    unfold answered_correctly at 1. rewrite lookup_insert_eq.
    destruct (String.eqb option (correctAnswer q));
      destruct (answered_correctly answers q idx); lia.
  - cbn in Hq. specialize (IH (S idx) k q Hq).
    replace (S idx + k)%nat with (idx + S k)%nat in IH by lia.
    unfold answered_correctly at 1. rewrite lookup_insert_ne by lia.
    fold (answered_correctly answers q0 idx).
    destruct (answered_correctly answers q0 idx); lia.
Qed.

(** X11. Selecting an option changes one term of the score, that of the
    question shown: the score gains one where the option is the correct
    answer and loses one where the answer stored so far was correct; so
    selecting the correct answer of a question not yet answered correctly
    adds exactly one, and selecting the same option again changes nothing.
    Where no question is shown (the index is not one of the quiz) the
    score does not change. The score is at most the number of
    questions. *)
Theorem select_changes_one_term (option : string) (s : State) :
  (forall q,
     quiz s !! currentQuestionIndex s = Some q ->
     calculateScore (handleOptionSelect option s)
     + (if answered_correctly (answers s) q (currentQuestionIndex s)
        then 1 else 0)
     = calculateScore s + (if String.eqb option (correctAnswer q) then 1 else 0))
  /\ (quiz s !! currentQuestionIndex s = None ->
      calculateScore (handleOptionSelect option s) = calculateScore s)
  /\ calculateScore s <= length (quiz s).
Proof.
  unfold calculateScore. cbn [handleOptionSelect quiz answers].
  split; [|split].
  - intros q Hq.
    exact (forEach_insert_at (answers s) option (quiz s) 0
             (currentQuestionIndex s) q Hq).
  - intros Hq. apply lookup_ge_None in Hq.
    apply forEach_insert_after. lia.
  - apply forEach_bound.
Qed.

(** The correct answer to the first question of [started], which has no
    answer yet. *)
Lemma select_changes_one_term_witness :
  calculateScore (handleOptionSelect "4" started)
  + (if answered_correctly (answers started) question1
                           (currentQuestionIndex started)
     then 1 else 0)
  = calculateScore started
    + (if String.eqb "4" (correctAnswer question1) then 1 else 0).
Proof.
  apply (proj1 (select_changes_one_term "4" started) question1).
  reflexivity.
Defined.

(** *** Moving through the questions *)

Lemma act_frame (s : State) (a : Action) :
  quiz (act s a) = quiz s /\ view (act s a) = view s
  /\ history (act s a) = history s /\ st_topic (act s a) = st_topic s
  /\ st_difficulty (act s a) = st_difficulty s.
Proof.
  destruct a; cbn [act]; unfold handleOptionSelect, nextQuestion, prevQuestion;
    repeat match goal with |- context [if ?b then _ else _] => destruct b end;
    cbn; repeat split; reflexivity.
Qed.

Lemma act_index (s : State) (a : Action) :
  currentQuestionIndex s < length (quiz s) ->
  currentQuestionIndex (act s a) < length (quiz s).
Proof.
  intros H. destruct a; cbn [act]; [exact H| |].
  - unfold nextQuestion.
    destruct (Z.ltb_spec (Z.of_nat (currentQuestionIndex s))
                         (Z.of_nat (length (quiz s)) - 1));
      cbn [setCurrentQuestionIndex currentQuestionIndex]; lia.
  - unfold prevQuestion.
    destruct (Z.ltb_spec 0 (Z.of_nat (currentQuestionIndex s)));
      cbn [setCurrentQuestionIndex currentQuestionIndex]; lia.
Qed.

Lemma act_answers (s : State) (a : Action) (k : nat) :
  currentQuestionIndex s < length (quiz s) ->
  (forall k, is_Some (answers s !! k) -> k < length (quiz s)) ->
  is_Some (answers (act s a) !! k) -> k < length (quiz s).
Proof.
  intros Hi Hk. destruct a; cbn [act].
  - cbn [handleOptionSelect answers].
    destruct (Nat.eq_dec (currentQuestionIndex s) k) as [<-|Hne];
      [intros _; exact Hi|].
    rewrite lookup_insert_ne by exact Hne. apply Hk.
  - unfold nextQuestion. destruct (_ <? _)%Z; apply Hk.
  - unfold prevQuestion. destruct (_ <? _)%Z; apply Hk.
Qed.

(** The index and the answers stay inside the quiz. *)
Lemma acts_invariant (actions : list Action) :
  forall s : State,
    currentQuestionIndex s < length (quiz s) ->
    (forall k, is_Some (answers s !! k) -> k < length (quiz s)) ->
    currentQuestionIndex (fold_left act actions s) < length (quiz s)
    /\ (forall k, is_Some (answers (fold_left act actions s) !! k) ->
                  k < length (quiz s))
    /\ quiz (fold_left act actions s) = quiz s
    /\ view (fold_left act actions s) = view s
    /\ history (fold_left act actions s) = history s
    /\ st_topic (fold_left act actions s) = st_topic s
    /\ st_difficulty (fold_left act actions s) = st_difficulty s.
Proof.
  induction actions as [|a actions IH]; intros s Hi Hk.
  - cbn. repeat split; try assumption.
  - cbn [fold_left].
    destruct (act_frame s a) as (Eq & Ev & Eh & Et & Ed).
    destruct (IH (act s a)) as (A & B & C & D & E & F & G).
    + rewrite Eq. apply act_index, Hi.
    + rewrite Eq. intros k. apply act_answers; assumption.
    + rewrite Eq in A, B, C. rewrite C, D, E, F, G.
      repeat split; assumption.
Qed.

(** X12. In a quiz with a question shown, whatever the user does in the
    quiz view (selecting options, next, previous, in any order): a question
    stays shown (the index stays one of the quiz), every stored answer
    belongs to a question of the quiz, and the questions, the view, the
    topic, the difficulty and the history do not change. On the last
    question, next does nothing; on the first one, previous does
    nothing. *)
Theorem quiz_navigation (actions : list Action) (s : State) :
  currentQuestionIndex s < length (quiz s) ->
  (forall k, is_Some (answers s !! k) -> k < length (quiz s)) ->
  (currentQuestionIndex (fold_left act actions s) < length (quiz s)
   /\ (forall k, is_Some (answers (fold_left act actions s) !! k) ->
                 k < length (quiz s))
   /\ quiz (fold_left act actions s) = quiz s
   /\ view (fold_left act actions s) = view s
   /\ history (fold_left act actions s) = history s
   /\ st_topic (fold_left act actions s) = st_topic s
   /\ st_difficulty (fold_left act actions s) = st_difficulty s)
  /\ (currentQuestionIndex s = length (quiz s) - 1 -> nextQuestion s = s)
  /\ (currentQuestionIndex s = 0 -> prevQuestion s = s).
Proof.
  intros Hi Hk. split; [|split].
  - apply acts_invariant; assumption.
  - intros E. unfold nextQuestion.
    destruct (Z.ltb_spec (Z.of_nat (currentQuestionIndex s))
                         (Z.of_nat (length (quiz s)) - 1));
      [lia | reflexivity].
  - intros E. unfold prevQuestion. rewrite E. reflexivity.
Qed.

(** In [started]: the correct answer, next, next again, the wrong answer,
    previous. *)
Lemma quiz_navigation_witness :
  currentQuestionIndex
    (fold_left act [Select "4"; Next; Next; Select "7"; Prev] started)
  < length (quiz started)
  /\ nextQuestion (nextQuestion started) = nextQuestion started.
Proof.
  assert (Hi : currentQuestionIndex started < length (quiz started))
    by (cbn; lia).
  assert (Hk : forall k, is_Some (answers started !! k) ->
                         k < length (quiz started)).
  { intros k [x Hx]. cbn in Hx. rewrite lookup_empty in Hx. discriminate. }
  split.
  - exact (proj1 (proj1 (quiz_navigation
                           [Select "4"; Next; Next; Select "7"; Prev]
                           started Hi Hk))).
  - assert (Hi' : currentQuestionIndex (nextQuestion started)
                   < length (quiz (nextQuestion started)))
      by (vm_compute; lia).
    apply (proj1 (proj2 (quiz_navigation [] (nextQuestion started) Hi' Hk))).
    reflexivity.
Defined.

(** *** The review *)

Lemma review_correct (answers : gmap nat string) (q : QuizQuestion)
    (idx : nat) :
  is_correct (review_mark answers q idx) = answered_correctly answers q idx.
Proof.
  unfold review_mark, answered_correctly.
  destruct (answers !! idx) as [a|]; [|reflexivity].
  destruct (String.eqb a (correctAnswer q)); [reflexivity|].
  destruct (String.eqb a ""); reflexivity.
Qed.

Lemma forEach_review (answers : gmap nat string) (l : list QuizQuestion) :
  forall idx : nat,
    forEach (fun q i sc => if answered_correctly answers q i then S sc else sc)
            l idx 0
    = length (List.filter is_correct
                (imap (fun i q => review_mark answers q (idx + i)) l)).
Proof.
  induction l as [|q l IH]; intros idx; [reflexivity|].
  cbn [forEach imap List.filter]. rewrite forEach_score, IH.
  rewrite Nat.add_0_r, review_correct.
  rewrite (imap_ext (fun i q0 => review_mark answers q0 (S idx + i))
                    ((fun i q0 => review_mark answers q0 (idx + i)) ∘ S) l)
    by (intros; cbn; f_equal; lia).
  destruct (answered_correctly answers q idx); cbn [length]; lia.
Qed.

(** X13. The score and the review of the results view agree: the score is
    the number of questions the review marks as correct (green), and the
    review has one mark for each question. A question is marked as skipped
    (gray) only if it has no answer or the empty one, and as wrong (red)
    only if it has an answer, not empty, that is not the correct one. *)
Theorem score_agrees_with_review (s : State) :
  calculateScore s = length (List.filter is_correct (review s))
  /\ length (review s) = length (quiz s)
  /\ forall idx q m,
       quiz s !! idx = Some q -> review s !! idx = Some m ->
       match m with
       | Correct => answers s !! idx = Some (correctAnswer q)
       | Skipped => (answers s !! idx = None
                     \/ answers s !! idx = Some ""%string)
                    /\ answers s !! idx <> Some (correctAnswer q)
       | Wrong => exists a, answers s !! idx = Some a /\ a <> ""%string
                            /\ a <> correctAnswer q
       end.
Proof.
  split; [|split].
  - unfold calculateScore, review. rewrite forEach_review. reflexivity.
  - unfold review. apply length_imap.
  - intros idx q m Hq Hm. unfold review in Hm.
    rewrite list_lookup_imap, Hq in Hm. cbn in Hm. injection Hm as <-.
    unfold review_mark. destruct (answers s !! idx) as [a|].
    + destruct (String.eqb_spec a (correctAnswer q)) as [->|Hc];
        [reflexivity|].
      destruct (String.eqb_spec a "") as [->|He].
      * split; [right; reflexivity | congruence].
      * exists a. repeat split; assumption.
    + split; [left; reflexivity | discriminate].
Qed.

(** In [started] with the first question answered correctly: a score of
    one, and the marks correct and skipped. *)
Lemma score_agrees_with_review_witness :
  review (handleOptionSelect "4" started) = [Correct; Skipped]
  /\ answers (handleOptionSelect "4" started) !! 0
     = Some (correctAnswer question1).
Proof.
  split; [vm_compute; reflexivity|].
  exact (proj2 (proj2 (score_agrees_with_review
                         (handleOptionSelect "4" started)))
               0 question1 Correct eq_refl eq_refl).
Defined.

(** *** The clock *)

Lemma append_String (c : ascii) (s t : string) :
  (String c s ++ t)%string = String c (s ++ t).
Proof. reflexivity. Qed.

Lemma length_append (s t : string) :
  String.length (s ++ t)%string = String.length s + String.length t.
Proof.
  induction s as [|c s IH]; [reflexivity|].
  rewrite append_String. cbn [String.length Nat.add]. f_equal. exact IH.
Qed.

Lemma append_cancel (s1 s2 t1 t2 : string) :
  (s1 ++ t1)%string = (s2 ++ t2)%string ->
  String.length t1 = String.length t2 ->
  s1 = s2 /\ t1 = t2.
Proof.
  revert s2. induction s1 as [|c s1 IH]; intros s2 E L.
  - destruct s2 as [|d s2]; [split; [reflexivity | exact E]|].
    apply (f_equal String.length) in E.
    rewrite !length_append in E. cbn [String.length] in E. lia.
  - destruct s2 as [|d s2].
    + apply (f_equal String.length) in E.
      rewrite !length_append in E. cbn [String.length] in E. lia.
    + rewrite !append_String in E. injection E as -> E.
      destruct (IH s2 E L) as [-> ->]. split; reflexivity.
Qed.

Lemma decimal_inj (a b : Z) : decimal a = decimal b -> a = b.
Proof.
  unfold decimal. intros E.
  assert (N : forall z, Z.to_int z <> Decimal.Pos Decimal.Nil
                        /\ Z.to_int z <> Decimal.Neg Decimal.Nil).
  { intros [|p|p]; cbn; split; try discriminate;
      intros [= H]; exact (DecimalPos.Unsigned.to_uint_nonnil p H). }
  apply DecimalZ.to_int_inj.
  pose proof (DecimalString.NilZero.isi (Z.to_int a)
                (proj1 (N a)) (proj2 (N a))) as Ha.
  pose proof (DecimalString.NilZero.isi (Z.to_int b)
                (proj1 (N b)) (proj2 (N b))) as Hb.
  rewrite E in Ha. congruence.
Qed.

Lemma digit_char_inj (a b : Z) :
  (0 <= a < 10)%Z -> (0 <= b < 10)%Z -> digit_char a = digit_char b -> a = b.
Proof.
  unfold digit_char. intros Ha Hb E.
  apply (f_equal nat_of_ascii) in E.
  rewrite !nat_ascii_embedding in E by lia. lia.
Qed.

(** Two times that differ have different clocks. *)
Lemma clock_inj (a b : Z) :
  (0 <= a)%Z -> (0 <= b)%Z -> clock a = clock b -> a = b.
Proof.
  unfold clock. intros Ha Hb E.
  apply append_cancel in E; [|reflexivity].
  destruct E as [Em Es]. apply decimal_inj in Em.
  injection Es as E1 E2.
  pose proof (Z.mod_pos_bound a 60 ltac:(lia)) as Ba.
  pose proof (Z.mod_pos_bound b 60 ltac:(lia)) as Bb.
  apply digit_char_inj in E1;
    [|split; [apply Z.div_pos; lia | apply Z.div_lt_upper_bound; lia]
     |split; [apply Z.div_pos; lia | apply Z.div_lt_upper_bound; lia]].
  apply digit_char_inj in E2; [|apply Z.mod_pos_bound; lia
                               |apply Z.mod_pos_bound; lia].
  rewrite (Z.div_mod a 60), (Z.div_mod b 60) by lia.
  rewrite (Z.div_mod (a mod 60) 10), (Z.div_mod (b mod 60) 10) by lia.
  rewrite Em, E1, E2. reflexivity.
Qed.

Lemma shows_clock_from_spec (count : nat) :
  forall first seconds : Z,
    shows_clock_from count first = true ->
    (first <= seconds < first + Z.of_nat count)%Z ->
    shows_clock seconds = true.
Proof.
  induction count as [|count IH]; intros first seconds H B; [lia|].
  cbn [shows_clock_from] in H. apply andb_true_iff in H. destruct H as [H0 H].
  destruct (Z.eq_dec seconds first) as [-> | Hne]; [exact H0|].
  apply (IH (first + 1)%Z); [exact H | lia].
Qed.

(** The binary64 computation, run on every whole number of seconds of an
    hour. *)
Lemma shows_clock_hour : shows_clock_from 3601 0 = true.
Proof. vm_compute. reflexivity. Qed.

Lemma formatTime_clock (seconds : Z) :
  (0 <= seconds <= 3600)%Z ->
  formatTime (LiveTutor.number_of_Z seconds) = Some (clock seconds).
Proof.
  intros B.
  pose proof (shows_clock_from_spec 3601 0 seconds shows_clock_hour
                ltac:(lia)) as H.
  unfold shows_clock in H.
  destruct (formatTime (LiveTutor.number_of_Z seconds)) as [text|];
    [|discriminate].
  apply String.eqb_eq in H. rewrite H. reflexivity.
Qed.

(** X14. The clock of the quiz view, computed in binary64. For a whole
    number of seconds from 0 to 3600 (the timer starts at fifteen minutes
    at most), [formatTime] shows the minutes in decimal, a colon, and the
    seconds below sixty with exactly two digits; and two such times that
    differ are shown differently. *)
Theorem formatTime_display (seconds : Z) :
  (0 <= seconds <= 3600)%Z ->
  formatTime (LiveTutor.number_of_Z seconds)
  = Some (decimal (seconds / 60) ++ ":"
          ++ String (digit_char (seconds mod 60 / 10))
               (String (digit_char (seconds mod 60 mod 10)) ""))%string
  /\ forall other : Z,
       (0 <= other <= 3600)%Z ->
       formatTime (LiveTutor.number_of_Z other)
       = formatTime (LiveTutor.number_of_Z seconds) ->
       other = seconds.
Proof.
  intros B. split; [exact (formatTime_clock seconds B)|].
  intros other Bo E.
  rewrite (formatTime_clock other Bo), (formatTime_clock seconds B) in E.
  injection E as E. apply clock_inj; [lia | lia | exact E].
Qed.

(** Five minutes, sixty-five seconds, five seconds. *)
Lemma formatTime_display_witness :
  formatTime (LiveTutor.number_of_Z 300) = Some "5:00"%string
  /\ formatTime (LiveTutor.number_of_Z 65) = Some "1:05"%string
  /\ formatTime (LiveTutor.number_of_Z 5) = Some "0:05"%string.
Proof.
  split; [|split].
  - rewrite (proj1 (formatTime_display 300 ltac:(lia))). reflexivity.
  - rewrite (proj1 (formatTime_display 65 ltac:(lia))). reflexivity.
  - rewrite (proj1 (formatTime_display 5 ltac:(lia))). reflexivity.
Defined.

(** *** Generating a quiz *)

(** X15. [handleGenerate] does nothing for a blank topic. Otherwise, when
    [generateQuiz] is rejected it alerts, and leaves the view with the quiz
    and the answers emptied; when it is fulfilled it opens the quiz view on
    the questions it got, at the first one, with no answer, and keeps the
    history. The quiz view then renders if and only if there is a
    question: for the empty list (which is what [generateQuiz] returns for
    a reply it cannot parse) reading the current question raises. With a
    question, the view keeps rendering whatever the user selects and
    however they move, the counter never exceeding the number of
    questions. *)
Theorem handleGenerate_opens_quiz (s : State) :
  (GeminiService.trim (GeminiService.units (st_topic s)) = [] ->
   forall r, handleGenerate r s = (s, []))
  /\ (GeminiService.trim (GeminiService.units (st_topic s)) <> [] ->
      (exists s',
         handleGenerate GeminiService.Rejected s
         = (s', ["Failed to generate quiz. Please try again."%string])
         /\ view s' = view s /\ quiz s' = [] /\ answers s' = ∅
         /\ history s' = history s)
      /\ forall questions,
           exists s',
             handleGenerate (GeminiService.Fulfilled questions) s = (s', [])
             /\ view s' = QUIZ /\ quiz s' = questions /\ answers s' = ∅
             /\ currentQuestionIndex s' = 0
             /\ history s' = history s
             /\ (renderQuiz s' = None <-> questions = [])
             /\ (questions <> [] ->
                 forall actions,
                   exists v,
                     renderQuiz (fold_left act actions s') = Some v
                     /\ fst (counter v) <= snd (counter v)
                     /\ snd (counter v) = length questions)).
Proof.
  unfold handleGenerate. split.
  - intros -> r. reflexivity.
  - intros Hne.
    destruct (GeminiService.trim (GeminiService.units (st_topic s)))
      as [|c t]; [congruence|]. split.
    + eexists. split; [reflexivity|]. repeat split.
    + intros questions. eexists. split; [reflexivity|].
      cbn [view quiz answers currentQuestionIndex history].
      split; [reflexivity|]. split; [reflexivity|]. split; [reflexivity|].
      split; [reflexivity|]. split; [reflexivity|]. split.
      * unfold renderQuiz. cbn [quiz currentQuestionIndex].
        destruct questions as [|q l]; cbn; split; congruence.
      * intros Hq actions.
        set (s' := {| st_topic := st_topic s;
                      st_difficulty := st_difficulty s; view := QUIZ;
                      quiz := questions; answers := ∅;
                      currentQuestionIndex := 0; history := history s |}).
        destruct (acts_invariant actions s') as (A & _ & C & _).
        { cbn. destruct questions; [congruence | cbn; lia]. }
        { intros k [x Hx]. cbn in Hx. rewrite lookup_empty in Hx.
          discriminate. }
        cbn [s' quiz] in A, C. unfold renderQuiz. rewrite C.
        destruct (lookup_lt_is_Some_2 questions _ A) as [q Hq'].
        rewrite Hq'. eexists. split; [reflexivity|].
        cbn [counter fst snd]. split; [lia | reflexivity].
Qed.

(** The topic "Sums": an empty reply opens a view that does not render; a
    reply with the two questions opens one that does, also after the
    moves. *)
Lemma handleGenerate_opens_quiz_witness :
  (exists s',
     handleGenerate (GeminiService.Fulfilled []) started = (s', [])
     /\ renderQuiz s' = None)
  /\ exists s' v,
       handleGenerate (GeminiService.Fulfilled [question1; question2]) started
       = (s', [])
       /\ renderQuiz (fold_left act [Select "4"; Next; Next] s') = Some v
       /\ snd (counter v) = 2.
Proof.
  assert (Hne : GeminiService.trim (GeminiService.units (st_topic started))
                <> []) by (vm_compute; discriminate).
  destruct (handleGenerate_opens_quiz started) as [_ H].
  destruct (H Hne) as [_ F]. split.
  - destruct (F []) as (s' & A & _ & _ & _ & _ & _ & R & _).
    exists s'. split; [exact A | apply R; reflexivity].
  - destruct (F [question1; question2])
      as (s' & A & _ & _ & _ & _ & _ & _ & K).
    destruct (K ltac:(discriminate) [Select "4"; Next; Next])
      as (v & V & _ & L).
    exists s', v. split; [exact A|]. split; [exact V | exact L].
Defined.

End QuizGeneratorExtra.

(** ** The planner's lists *)

Module ExamListExtra.

Import StudyPlanner ExamList StudyPlannerProofs.

Local Open Scope nat_scope.

Lemma removeExam_nonempty (idx : nat) (exams : list Exam) :
  removeExam idx exams <> [].
Proof.
  unfold removeExam. destruct (1 <? length exams) eqn:H; [|discriminate].
  apply Nat.ltb_lt in H. rewrite filter_index_delete, decide_True by lia.
  intros Hnil. apply (f_equal length) in Hnil.
  rewrite delete_take_drop, length_app, length_take, length_drop in Hnil.
  cbn in Hnil. lia.
Qed.

Lemma updateExam_length (idx : nat) (field : Field) (value : string)
    (exams exams' : list Exam) :
  updateExam idx field value exams = Some exams' ->
  length exams' = length exams.
Proof.
  unfold updateExam. destruct (exams !! idx); [|discriminate].
  intros [= <-]. apply length_insert.
Qed.

Lemma operate_nonempty (exams : list Exam) (op : Operation) :
  exams <> [] -> operate exams op <> [].
Proof.
  intros H. destruct op as [|idx|idx field value]; cbn [operate].
  - unfold addExam. destruct exams; discriminate.
  - apply removeExam_nonempty.
  - destruct (updateExam idx field value exams) as [exams'|] eqn:E;
      [|exact H].
    apply updateExam_length in E. destruct exams', exams; cbn in E;
      congruence.
Qed.

(** X16. The exam list under the user's operations. [updateExam] raises
    exactly where the list has no exam at the index; otherwise it sets the
    one field of that exam, keeps its other field, and leaves the other
    exams and the length as they are. Removing the entry that [addExam]
    has just added gives the list back. From a list that is not empty, no
    sequence of additions, removals and updates leads to the empty
    list. *)
Theorem exam_list_operations (exams : list Exam) :
  (forall idx field value,
     (updateExam idx field value exams = None <-> length exams <= idx)
     /\ forall exams' exam,
          updateExam idx field value exams = Some exams' ->
          exams !! idx = Some exam ->
          exams' !! idx
          = Some (match field with
                  | FieldName => {| name := value; date := date exam |}
                  | FieldDate => {| name := name exam; date := value |}
                  end)
          /\ length exams' = length exams
          /\ forall i, i <> idx -> exams' !! i = exams !! i)
  /\ (exams <> [] -> removeExam (length exams) (addExam exams) = exams)
  /\ (exams <> [] ->
      forall ops : list Operation, fold_left operate ops exams <> []).
Proof.
  split; [|split].
  - intros idx field value. split.
    + unfold updateExam. destruct (exams !! idx) eqn:E.
      * split; [discriminate|]. intros H.
        apply lookup_ge_None_2 in H. congruence.
      * split; [|reflexivity]. intros _. apply lookup_ge_None_1, E.
    + intros exams' exam Hu He. unfold updateExam in Hu. rewrite He in Hu.
      injection Hu as <-. split; [|split].
      * apply list_lookup_insert_eq. apply lookup_lt_Some in He. exact He.
      * apply length_insert.
      * intros i Hi. apply list_lookup_insert_ne. congruence.
  - intros Hne. rewrite removeExam_many.
    + unfold addExam. rewrite delete_take_drop.
      rewrite take_app_length, drop_ge, app_nil_r by
        (rewrite length_app; cbn; lia).
      reflexivity.
    + unfold addExam. rewrite length_app. cbn.
      destruct exams; [congruence | cbn; lia].
  - intros Hne ops. revert exams Hne.
    induction ops as [|op ops IH]; intros exams Hne; [exact Hne|].
    cbn [fold_left]. apply IH, operate_nonempty, Hne.
Qed.

(** One blank exam: it is named, a second exam is added and dated, the
    first one is removed. *)
Lemma exam_list_operations_witness :
  fold_left operate
    [UpdateExam 0 FieldName "Physics"; AddExam;
     UpdateExam 1 FieldDate "2025-03-01"; RemoveExam 0] [blank] <> []
  /\ removeExam (length [blank]) (addExam [blank]) = [blank]
  /\ [{| name := "Physics"; date := "" |}] !! 0
     = Some {| name := "Physics"; date := date blank |}.
Proof.
  assert (Hne : [blank] <> []) by discriminate.
  destruct (exam_list_operations [blank]) as (A & B & C).
  split; [apply C, Hne|]. split; [apply B, Hne|].
  exact (proj1 (proj2 (A 0 FieldName "Physics"%string)
                  [{| name := "Physics"; date := "" |}] blank
                  eq_refl eq_refl)).
Defined.

End ExamListExtra.

(** ** The tasks of a day *)

Module PlanTasksExtra.

Import PlanTasks.

Local Open Scope nat_scope.

Lemma filter_twice {A : Type} (p : A -> bool) (l : list A) :
  List.filter p (List.filter p l) = List.filter p l.
Proof.
  induction l as [|x l IH]; [reflexivity|]. cbn.
  destruct (p x) eqn:E; cbn; rewrite ?E, IH; reflexivity.
Qed.

Lemma filter_disjoint {A : Type} (p q : A -> bool) (l : list A) :
  (forall x, p x = true -> q x = false) ->
  List.filter q (List.filter p l) = [].
Proof.
  intros H. induction l as [|x l IH]; [reflexivity|]. cbn.
  destruct (p x) eqn:E; [cbn; rewrite (H x E)|]; exact IH.
Qed.

Lemma filter_split_length {A : Type} (p : A -> bool) (l : list A) :
  length (List.filter p l) + length (List.filter (fun x => negb (p x)) l)
  = length l.
Proof.
  induction l as [|x l IH]; [reflexivity|]. cbn.
  destruct (p x); cbn; lia.
Qed.

Lemma filter_all {A : Type} (p : A -> bool) (l : list A) :
  length (List.filter p l) = length l ->
  List.filter (fun x => negb (p x)) l = [].
Proof.
  intros H. pose proof (filter_split_length p l) as E.
  destruct (List.filter (fun x => negb (p x)) l); [reflexivity|].
  cbn in E. lia.
Qed.

(** X17. [clearCompletedForDay] raises exactly where the plan has no such
    day. Otherwise the day keeps its date and its tasks that are not
    completed, in their order: its completed count becomes zero and its
    total drops by the completed count it had; the plan keeps its length
    and its other days; clearing again changes nothing; and a day that was
    all done is left without a task. *)
Theorem clearCompletedForDay_day (dayIdx : nat) (plan : list StudyPlan) :
  (clearCompletedForDay dayIdx plan = None <-> length plan <= dayIdx)
  /\ forall day,
       plan !! dayIdx = Some day ->
       exists plan' day',
         clearCompletedForDay dayIdx plan = Some plan'
         /\ plan' !! dayIdx = Some day'
         /\ date day' = date day
         /\ tasks day'
            = List.filter (fun t => negb (is_completed t)) (tasks day)
         /\ completedCount day' = 0
         /\ totalTasks day' + completedCount day = totalTasks day
         /\ length plan' = length plan
         /\ (forall i, i <> dayIdx -> plan' !! i = plan !! i)
         /\ clearCompletedForDay dayIdx plan' = Some plan'
         /\ (isAllDone day = true -> tasks day' = []).
Proof.
  unfold clearCompletedForDay. split.
  - destruct (plan !! dayIdx) eqn:E.
    + split; [discriminate|]. intros H.
      apply lookup_ge_None_2 in H. congruence.
    + split; [|reflexivity]. intros _. apply lookup_ge_None_1, E.
  - intros day Hd. rewrite Hd.
    assert (Hlt : dayIdx < length plan) by (apply lookup_lt_Some in Hd; lia).
    eexists. eexists. split; [reflexivity|].
    split; [apply list_lookup_insert_eq, Hlt|].
    split; [reflexivity|]. split; [reflexivity|]. split; [|split; [|split]].
    + unfold completedCount. cbn [set_tasks tasks].
      rewrite filter_disjoint; [reflexivity|].
      intros t Ht. apply negb_true_iff in Ht. exact Ht.
    + unfold totalTasks, completedCount. cbn [set_tasks tasks].
      pose proof (filter_split_length is_completed (tasks day)). lia.
    + apply length_insert.
    + split; [intros i Hi; apply list_lookup_insert_ne; congruence|].
      split.
      * rewrite list_lookup_insert_eq by exact Hlt.
        rewrite list_insert_insert_eq. cbn [set_tasks tasks date].
        rewrite filter_twice. reflexivity.
      * unfold isAllDone, totalTasks, completedCount. intros H.
        apply andb_true_iff in H. destruct H as [_ H].
        apply Nat.eqb_eq in H. cbn [set_tasks tasks].
        apply filter_all, H.
Qed.

(** Monday has two completed tasks of four; Tuesday is left alone. *)
Lemma clearCompletedForDay_day_witness :
  exists plan' day',
    clearCompletedForDay 0 [monday; tuesday] = Some plan'
    /\ plan' !! 0 = Some day'
    /\ tasks day' = [task "Chemistry" High None;
                     task "Biology" Medium (Some false)]
    /\ plan' !! 1 = Some tuesday.
Proof.
  destruct (proj2 (clearCompletedForDay_day 0 [monday; tuesday])
              monday eq_refl)
    as (plan' & day' & A & B & _ & D & _ & _ & _ & H & _).
  exists plan', day'. split; [exact A|]. split; [exact B|].
  split; [exact D|]. rewrite (H 1) by lia. reflexivity.
Defined.

(** *** Sorting *)

Lemma insert_sorted_front {A : Type} (cmp : A -> A -> Z) (x : A) (l : list A) :
  (forall y, In y l -> (cmp x y <= 0)%Z) -> insert_sorted cmp x l = x :: l.
Proof.
  destruct l as [|y l]; [reflexivity|]. intros H. cbn.
  destruct (Z.leb_spec (cmp x y) 0) as [_|Hgt]; [reflexivity|].
  specialize (H y (or_introl eq_refl)). lia.
Qed.

Lemma insert_sorted_past {A : Type} (cmp : A -> A -> Z) (x : A)
    (l1 l2 : list A) :
  (forall y, In y l1 -> (0 < cmp x y)%Z) ->
  insert_sorted cmp x (l1 ++ l2) = l1 ++ insert_sorted cmp x l2.
Proof.
  induction l1 as [|y l1 IH]; intros H; [reflexivity|]. cbn.
  destruct (Z.leb_spec (cmp x y) 0) as [Hle|_].
  - specialize (H y (or_introl eq_refl)). lia.
  - rewrite IH; [reflexivity|]. intros z Hz. apply H. right. exact Hz.
Qed.

Lemma insert_sorted_perm {A : Type} (cmp : A -> A -> Z) (x : A) (l : list A) :
  Permutation (insert_sorted cmp x l) (x :: l).
Proof.
  induction l as [|y l IH]; [reflexivity|]. cbn.
  destruct (cmp x y <=? 0)%Z; [reflexivity|].
  rewrite IH. apply perm_swap.
Qed.

Lemma Array_sort_perm {A : Type} (cmp : A -> A -> Z) (l : list A) :
  Permutation (Array_sort cmp l) l.
Proof.
  induction l as [|x l IH]; [reflexivity|]. cbn.
  rewrite insert_sorted_perm, IH. reflexivity.
Qed.

Lemma filter_length_perm {A : Type} (p : A -> bool) (l l' : list A) :
  Permutation l l' -> length (List.filter p l) = length (List.filter p l').
Proof.
  induction 1 as [|x l l' _ IH|x y l|l l' l'' _ IH1 _ IH2]; cbn.
  - reflexivity.
  - destruct (p x); cbn; rewrite IH; reflexivity.
  - destruct (p x), (p y); reflexivity.
  - rewrite IH1. exact IH2.
Qed.

Lemma has_priority_In (p : Priority) (t : Task) (l : list Task) :
  In t (List.filter (has_priority p) l) -> priority t = p.
Proof.
  intros H. apply filter_In in H. destruct H as [_ H].
  unfold has_priority in H. destruct p, (priority t); congruence.
Qed.

(** Sorted by priority, the tasks are those of high priority, then those of
    medium, then those of low priority, each group in its order. *)
Lemma Array_sort_priority (l : list Task) :
  Array_sort (fun a b => weight (priority b) - weight (priority a))%Z l
  = List.filter (has_priority High) l
    ++ List.filter (has_priority Medium) l
    ++ List.filter (has_priority Low) l.
Proof.
  induction l as [|x l IH]; [reflexivity|].
  cbn [Array_sort]. rewrite IH. clear IH.
  cbn [List.filter].
  assert (Hx : forall p, has_priority p x
                         = match p, priority x with
                           | High, High | Medium, Medium | Low, Low => true
                           | _, _ => false
                           end) by reflexivity.
  rewrite !Hx. clear Hx.
  destruct (priority x) eqn:Hp; cbn [app].
  - apply insert_sorted_front. intros y _. rewrite Hp.
    destruct (priority y); cbn; lia.
  - rewrite insert_sorted_past.
    + f_equal. apply insert_sorted_front. intros y Hy. rewrite Hp.
      apply in_app_iff in Hy.
      destruct Hy as [Hy | Hy]; apply has_priority_In in Hy; rewrite Hy;
        cbn; lia.
    + intros y Hy. apply has_priority_In in Hy. rewrite Hp, Hy. cbn. lia.
  - rewrite insert_sorted_past.
    + f_equal. rewrite insert_sorted_past.
      * f_equal. apply insert_sorted_front. intros y Hy. rewrite Hp.
        apply has_priority_In in Hy. rewrite Hy. cbn. lia.
      * intros y Hy. apply has_priority_In in Hy. rewrite Hp, Hy. cbn. lia.
    + intros y Hy. apply has_priority_In in Hy. rewrite Hp, Hy. cbn. lia.
Qed.

Lemma filter_priority_groups (p : Priority) (l : list Task) :
  List.filter (has_priority p)
    (List.filter (has_priority High) l
     ++ List.filter (has_priority Medium) l
     ++ List.filter (has_priority Low) l)
  = List.filter (has_priority p) l.
Proof.
  rewrite !List.filter_app.
  destruct p.
  - rewrite filter_twice.
    rewrite (filter_disjoint (has_priority Medium) (has_priority High)),
            (filter_disjoint (has_priority Low) (has_priority High)).
    + rewrite !app_nil_r. reflexivity.
    + intros t. unfold has_priority. destruct (priority t); congruence.
    + intros t. unfold has_priority. destruct (priority t); congruence.
  - rewrite filter_twice.
    rewrite (filter_disjoint (has_priority High) (has_priority Medium)),
            (filter_disjoint (has_priority Low) (has_priority Medium)).
    + rewrite !app_nil_r. reflexivity.
    + intros t. unfold has_priority. destruct (priority t); congruence.
    + intros t. unfold has_priority. destruct (priority t); congruence.
  - rewrite filter_twice.
    rewrite (filter_disjoint (has_priority High) (has_priority Low)),
            (filter_disjoint (has_priority Medium) (has_priority Low)).
    + reflexivity.
    + intros t. unfold has_priority. destruct (priority t); congruence.
    + intros t. unfold has_priority. destruct (priority t); congruence.
Qed.

(** X18. [sortTasks] raises exactly where the plan has no such day.
    Otherwise, for either criterion and whatever [localeCompare] is, the
    day keeps its date and gets a rearrangement of its tasks: none is lost
    or doubled, the total and the completed count stay; the plan keeps its
    length and its other days. By priority, the tasks come out as those of
    high priority, then medium, then low, each group in the order it had;
    sorting by priority again changes nothing. *)
Theorem sortTasks_day (localeCompare : string -> string -> Z) (dayIdx : nat)
    (criterion : Criterion) (plan : list StudyPlan) :
  (sortTasks localeCompare dayIdx criterion plan = None
   <-> length plan <= dayIdx)
  /\ forall day,
       plan !! dayIdx = Some day ->
       exists plan' day',
         sortTasks localeCompare dayIdx criterion plan = Some plan'
         /\ plan' !! dayIdx = Some day'
         /\ date day' = date day
         /\ Permutation (tasks day') (tasks day)
         /\ totalTasks day' = totalTasks day
         /\ completedCount day' = completedCount day
         /\ length plan' = length plan
         /\ (forall i, i <> dayIdx -> plan' !! i = plan !! i)
         /\ (criterion = ByPriority ->
             tasks day'
             = List.filter (has_priority High) (tasks day)
               ++ List.filter (has_priority Medium) (tasks day)
               ++ List.filter (has_priority Low) (tasks day)
             /\ sortTasks localeCompare dayIdx ByPriority plan' = Some plan').
Proof.
  unfold sortTasks. split.
  - destruct (plan !! dayIdx) eqn:E.
    + split; [discriminate|]. intros H.
      apply lookup_ge_None_2 in H. congruence.
    + split; [|reflexivity]. intros _. apply lookup_ge_None_1, E.
  - intros day Hd. rewrite Hd.
    assert (Hlt : dayIdx < length plan) by (apply lookup_lt_Some in Hd; lia).
    set (sorted := match criterion with
                   | ByPriority => _
                   | Default => _
                   end).
    assert (Hperm : Permutation sorted (tasks day))
      by (subst sorted; destruct criterion; apply Array_sort_perm).
    exists (<[dayIdx := set_tasks sorted day]> plan), (set_tasks sorted day).
    split; [reflexivity|].
    split; [apply list_lookup_insert_eq, Hlt|].
    split; [reflexivity|]. split; [exact Hperm|].
    split; [apply Permutation_length, Hperm|].
    split; [apply filter_length_perm, Hperm|].
    split; [apply length_insert|].
    split; [intros i Hi; apply list_lookup_insert_ne; congruence|].
    intros ->. subst sorted. rewrite Array_sort_priority.
    split; [reflexivity|].
    rewrite list_lookup_insert_eq by exact Hlt.
    rewrite list_insert_insert_eq. cbn [set_tasks tasks date].
    rewrite Array_sort_priority, !filter_priority_groups. reflexivity.
Qed.

(** Monday by priority: Chemistry and Bangla, Biology, Physics. *)
Lemma sortTasks_day_witness :
  exists plan' day',
    sortTasks (fun _ _ => 0%Z) 0 ByPriority [monday; tuesday] = Some plan'
    /\ plan' !! 0 = Some day'
    /\ tasks day'
       = List.filter (has_priority High) (tasks monday)
         ++ List.filter (has_priority Medium) (tasks monday)
         ++ List.filter (has_priority Low) (tasks monday)
    /\ map subject (tasks day')
       = ["Chemistry"; "Bangla"; "Biology"; "Physics"]%string.
Proof.
  destruct (proj2 (sortTasks_day (fun _ _ => 0%Z) 0 ByPriority
                     [monday; tuesday]) monday eq_refl)
    as (plan' & day' & A & B & _ & _ & _ & _ & _ & _ & H).
  exists plan', day'. destruct (H eq_refl) as [E _].
  split; [exact A|]. split; [exact B|]. split; [exact E|].
  rewrite E. reflexivity.
Defined.

(** *** Ticking a task *)

Lemma filter_length_insert {A : Type} (p : A -> bool) (y : A) (l : list A) :
  forall (i : nat) (x : A),
    l !! i = Some x ->
    length (List.filter p (<[i := y]> l)) + (if p x then 1 else 0)
    = length (List.filter p l) + (if p y then 1 else 0).
Proof.
  induction l as [|z l IH]; intros i x Hx; [discriminate|].
  destruct i as [|i].
  - injection Hx as ->. cbn. destruct (p x), (p y); cbn; lia.
  - cbn in Hx. specialize (IH i x Hx).
    change (<[S i := y]> (z :: l)) with (z :: <[i := y]> l).
    cbn [List.filter].
    destruct (p z), (p x), (p y); cbn [length] in *; lia.
Qed.

(** X19. [toggleTaskCompletion] raises exactly where the plan has no such
    day; with the day but no such task it leaves the typed tasks (it stores
    an object that has only [completed: true] beyond the end of the
    array). Otherwise the task's completion is negated ([undefined]
    counting as false) and nothing else changes: the task keeps its other
    fields, the day its date and its other tasks, the plan its other days;
    the total stays and the completed count goes up or down by one. A
    second toggle gives back the completion of every task, and the plan
    itself where the task's [completed] was a boolean. *)
Theorem toggleTaskCompletion_task (dayIndex taskIndex : nat)
    (plan : list StudyPlan) :
  (toggleTaskCompletion dayIndex taskIndex plan = TypeError
   <-> length plan <= dayIndex)
  /\ forall day,
       plan !! dayIndex = Some day ->
       (toggleTaskCompletion dayIndex taskIndex plan = SparseTasks
        <-> length (tasks day) <= taskIndex)
       /\ forall t,
            tasks day !! taskIndex = Some t ->
            exists plan' day' t',
              toggleTaskCompletion dayIndex taskIndex plan = NewPlan plan'
              /\ plan' !! dayIndex = Some day'
              /\ tasks day' !! taskIndex = Some t'
              /\ completed t' = Some (negb (is_completed t))
              /\ (subject t', topic t', duration t', priority t', notes t')
                 = (subject t, topic t, duration t, priority t, notes t)
              /\ date day' = date day
              /\ (forall j, j <> taskIndex ->
                            tasks day' !! j = tasks day !! j)
              /\ totalTasks day' = totalTasks day
              /\ completedCount day' + (if is_completed t then 1 else 0)
                 = completedCount day + (if is_completed t then 0 else 1)
              /\ length plan' = length plan
              /\ (forall i, i <> dayIndex -> plan' !! i = plan !! i)
              /\ exists plan'' day'',
                   toggleTaskCompletion dayIndex taskIndex plan'
                   = NewPlan plan''
                   /\ plan'' !! dayIndex = Some day''
                   /\ map is_completed (tasks day'')
                      = map is_completed (tasks day)
                   /\ (completed t <> None -> plan'' = plan).
Proof.
  unfold toggleTaskCompletion. split.
  - destruct (plan !! dayIndex) as [day|] eqn:E.
    + split.
      * destruct (tasks day !! taskIndex); discriminate.
      * intros H. apply lookup_ge_None_2 in H. congruence.
    + split; [|reflexivity]. intros _. apply lookup_ge_None_1, E.
  - intros day Hd. rewrite Hd.
    assert (Hlt : dayIndex < length plan)
      by (apply lookup_lt_Some in Hd; lia).
    split.
    + destruct (tasks day !! taskIndex) eqn:E.
      * split; [discriminate|]. intros H.
        apply lookup_ge_None_2 in H. congruence.
      * split; [|reflexivity]. intros _. apply lookup_ge_None_1, E.
    + intros t Ht. rewrite Ht.
      assert (Hlt' : taskIndex < length (tasks day))
        by (apply lookup_lt_Some in Ht; lia).
      set (t' := {| subject := subject t; topic := topic t;
                    duration := duration t; priority := priority t;
                    completed := Some (negb (is_completed t));
                    notes := notes t |}).
      set (day' := set_tasks (<[taskIndex := t']> (tasks day)) day).
      exists (<[dayIndex := day']> plan), day', t'.
      split; [reflexivity|].
      split; [apply list_lookup_insert_eq, Hlt|].
      split; [apply list_lookup_insert_eq, Hlt'|].
      split; [reflexivity|]. split; [reflexivity|]. split; [reflexivity|].
      split; [intros j Hj; apply list_lookup_insert_ne; congruence|].
      split; [apply length_insert|]. split.
      { unfold completedCount. cbn [day' set_tasks tasks].
        pose proof (filter_length_insert is_completed t' (tasks day)
                      taskIndex t Ht) as H.
        change (is_completed t') with (negb (is_completed t)) in H.
        destruct (is_completed t); cbn [negb] in H; lia. }
      split; [apply length_insert|].
      split; [intros i Hi; apply list_lookup_insert_ne; congruence|].
      rewrite list_lookup_insert_eq by exact Hlt.
      cbn [day' set_tasks tasks].
      rewrite list_lookup_insert_eq by exact Hlt'.
      change (is_completed t') with (negb (is_completed t)).
      rewrite negb_involutive, !list_insert_insert_eq.
      cbn [set_tasks date].
      eexists. eexists. split; [reflexivity|].
      split; [apply list_lookup_insert_eq, Hlt|]. split.
      * cbn [set_tasks tasks]. rewrite list_fmap_insert.
        cbn [is_completed completed t' subject topic duration priority notes].
        apply list_insert_id. rewrite list_lookup_fmap, Ht. reflexivity.
      * intros Hc.
        assert (Et : {| subject := subject t; topic := topic t;
                        duration := duration t; priority := priority t;
                        completed := Some (is_completed t);
                        notes := notes t |} = t).
        { destruct t as [? ? ? ? [b|] ?]; [reflexivity|].
          cbn in Hc. congruence. }
        cbn [t' subject topic duration priority notes].
        rewrite Et, (list_insert_id (tasks day)) by exact Ht.
        apply list_insert_id. rewrite Hd. destruct day. reflexivity.
Qed.

(** Monday's second task has no [completed] field: ticking it sets the
    field to [true]; ticking it twice leaves [false], not the plan it
    was. *)
Lemma toggleTaskCompletion_task_witness :
  exists plan' day' t',
    toggleTaskCompletion 0 1 [monday; tuesday] = NewPlan plan'
    /\ plan' !! 0 = Some day'
    /\ tasks day' !! 1 = Some t'
    /\ completed t' = Some (negb (is_completed (task "Chemistry" High None)))
    /\ completedCount day' = 3.
Proof.
  destruct (proj2 (proj2 (toggleTaskCompletion_task 0 1 [monday; tuesday])
                     monday eq_refl)
              (task "Chemistry" High None) eq_refl)
    as (plan' & day' & t' & A & B & C & D & _ & _ & _ & _ & H & _).
  exists plan', day', t'.
  split; [exact A|]. split; [exact B|]. split; [exact C|].
  split; [exact D|]. cbn in H. lia.
Defined.

End PlanTasksExtra.

(** ** The notes *)

Module PlanNotesExtra.

Import PlanTasks PlanNotes PlanTasksExtra.

Local Open Scope nat_scope.

(** X20. A note is saved by position. [saveNote] without a note being
    edited does nothing. Otherwise it raises where the plan has no task at
    the recorded indices, and else sets the note of the task that is at
    these indices now, changes nothing else in the plan and closes the
    editor. So when the tasks of the day are sorted between the opening of
    the editor on a task and the saving, the note goes to the task the
    sort has put at that index, with the text taken from the task the
    editor was opened on. *)
Theorem note_saved_by_position (localeCompare : string -> string -> Z)
    (e : Editor) :
  (editingNote e = None -> saveNote e = Some e)
  /\ (forall d t,
        editingNote e = Some (d, t) ->
        (saveNote e = None
         <-> forall day, plan e !! d = Some day -> length (tasks day) <= t)
        /\ forall day x,
             plan e !! d = Some day -> tasks day !! t = Some x ->
             exists e' day',
               saveNote e = Some e'
               /\ editingNote e' = None /\ noteContent e' = ""%string
               /\ plan e' !! d = Some day'
               /\ date day' = date day
               /\ tasks day' = <[t := set_notes (noteContent e) x]> (tasks day)
               /\ length (plan e') = length (plan e)
               /\ forall i, i <> d -> plan e' !! i = plan e !! i)
  /\ forall d t criterion day x,
       plan e !! d = Some day -> tasks day !! t = Some x ->
       exists e1 day1 y e2 day2,
         setPlan (sortTasks localeCompare d criterion)
                 (startEditingNote d t (notes x) e) = Some e1
         /\ plan e1 !! d = Some day1
         /\ tasks day1 !! t = Some y
         /\ saveNote e1 = Some e2
         /\ plan e2 !! d = Some day2
         /\ tasks day2
            = <[t := set_notes (match notes x with
                                | Some n => n
                                | None => ""%string
                                end) y]> (tasks day1).
Proof.
  split; [|split].
  - intros H. unfold saveNote. rewrite H. reflexivity.
  - intros d t He. unfold saveNote. rewrite He. split.
    + destruct (plan e !! d) as [day|] eqn:Hd.
      * destruct (tasks day !! t) as [x|] eqn:Ht.
        -- split; [discriminate|]. intros H.
           specialize (H day eq_refl). apply lookup_ge_None_2 in H.
           congruence.
        -- split; [|reflexivity]. intros _ day' [= <-].
           apply lookup_ge_None_1, Ht.
      * split; [|reflexivity]. intros _ day' H. discriminate H.
    + intros day x Hd Ht. rewrite Hd, Ht.
      assert (Hlt : d < length (plan e))
        by (apply lookup_lt_Some in Hd; lia).
      eexists. eexists. split; [reflexivity|]. cbn [editingNote noteContent
                                                    plan].
      split; [reflexivity|]. split; [reflexivity|].
      split; [apply list_lookup_insert_eq, Hlt|].
      split; [reflexivity|]. split; [reflexivity|].
      split; [apply length_insert|].
      intros i Hi. apply list_lookup_insert_ne. congruence.
  - intros d t criterion day x Hd Ht.
    assert (Hlt : d < length (plan e))
      by (apply lookup_lt_Some in Hd; lia).
    unfold setPlan, startEditingNote, sortTasks. cbn [plan]. rewrite Hd.
    set (sorted := match criterion with
                   | ByPriority => _
                   | Default => _
                   end).
    assert (Hperm : Permutation sorted (tasks day))
      by (subst sorted; destruct criterion; apply Array_sort_perm).
    assert (Hy : exists y, sorted !! t = Some y).
    { apply lookup_lt_is_Some_2. rewrite (Permutation_length Hperm).
      apply lookup_lt_Some in Ht. exact Ht. }
    destruct Hy as [y Hy].
    eexists. exists (set_tasks sorted day), y.
    eexists. eexists.
    split; [reflexivity|]. cbn [plan editingNote noteContent].
    split; [apply list_lookup_insert_eq, Hlt|].
    split; [exact Hy|].
    unfold saveNote. cbn [plan editingNote noteContent].
    rewrite list_lookup_insert_eq by exact Hlt.
    cbn [set_tasks tasks]. rewrite Hy.
    split; [reflexivity|]. cbn [plan].
    split; [apply list_lookup_insert_eq; rewrite length_insert; exact Hlt|].
    reflexivity.
Qed.

(** The editor is opened on Monday's first task, Physics, whose note reads
    "ch. 3"; the day is sorted by priority; the note is saved: it is now
    the note of Chemistry. *)
Lemma note_saved_by_position_witness :
  let physics := {| subject := "Physics"; topic := ""; duration := "";
                    priority := Low; completed := None;
                    notes := Some "ch. 3"%string |} in
  let chemistry := task "Chemistry" High None in
  let e := {| plan := [{| date := "2025-01-06";
                          tasks := [physics; chemistry] |}];
              editingNote := None; noteContent := "" |} in
  exists e1 day1 y e2 day2,
    setPlan (sortTasks (fun _ _ => 0%Z) 0 ByPriority)
            (startEditingNote 0 0 (notes physics) e) = Some e1
    /\ plan e1 !! 0 = Some day1
    /\ tasks day1 !! 0 = Some y
    /\ saveNote e1 = Some e2
    /\ plan e2 !! 0 = Some day2
    /\ tasks day2 = [set_notes "ch. 3" chemistry; physics].
Proof.
  intros physics chemistry e.
  destruct (proj2 (proj2 (note_saved_by_position (fun _ _ => 0%Z) e))
              0 0 ByPriority
              {| date := "2025-01-06"; tasks := [physics; chemistry] |}
              physics eq_refl eq_refl)
    as (e1 & day1 & y & e2 & day2 & A & B & C & D & E & F).
  exists e1, day1, y, e2, day2.
  split; [exact A|]. split; [exact B|]. split; [exact C|].
  split; [exact D|]. split; [exact E|].
  rewrite F. cbn in A. injection A as <-. cbn in B. injection B as <-.
  cbn in C. injection C as <-. reflexivity.
Defined.

End PlanNotesExtra.

(** ** The countdown *)

Module ExamCountdownExtra.

Import StudyPlanner ExamCountdown.

Section Countdown.

Variable Date_getTime : string -> option Z.
Variable today : Z.

(** Where a filtered list splits, the list splits. *)
Lemma filter_split {A : Type} (p : A -> bool) (l : list A) :
  forall (l1 l2 : list A) (x : A),
    List.filter p l = l1 ++ x :: l2 ->
    exists b a,
      l = b ++ x :: a /\ List.filter p b = l1 /\ List.filter p a = l2
      /\ p x = true.
Proof.
  induction l as [|y l IH]; intros l1 l2 x E.
  - destruct l1; discriminate.
  - cbn [List.filter] in E. destruct (p y) eqn:Hy.
    + destruct l1 as [|z l1].
      * cbn in E. injection E as -> E.
        exists [], l. cbn. repeat split; assumption.
      * cbn in E. injection E as -> E.
        destruct (IH l1 l2 x E) as (b & a & -> & Hb & Ha & Hx).
        exists (z :: b), a. cbn [List.filter app]. rewrite Hy, Hb.
        repeat split; assumption.
    + destruct (IH l1 l2 x E) as (b & a & -> & Hb & Ha & Hx).
      exists (y :: b), a. cbn [List.filter app]. rewrite Hy.
      repeat split; assumption.
Qed.

(** The head of a list sorted by a key: the first of the elements with the
    least key. *)
Lemma Array_sort_head {A : Type} (key : A -> Z) (l : list A) :
  match PlanTasks.Array_sort (fun a b => key a - key b) l with
  | [] => l = []
  | next :: _ =>
      exists l1 l2,
        l = l1 ++ next :: l2
        /\ (forall e, In e l1 -> key next < key e)
        /\ (forall e, In e l2 -> key next <= key e)
  end.
Proof.
  induction l as [|x l IH]; [reflexivity|].
  cbn [PlanTasks.Array_sort].
  destruct (PlanTasks.Array_sort (fun a b => key a - key b) l) as [|y r].
  - subst l. cbn. exists [], []. repeat split; intros e [].
  - destruct IH as (l1 & l2 & -> & H1 & H2).
    cbn [PlanTasks.insert_sorted].
    destruct (Z.leb_spec (key x - key y) 0) as [Hle|Hgt].
    + exists [], (l1 ++ y :: l2). split; [reflexivity|].
      split; [intros e []|]. intros e He. apply in_app_iff in He.
      destruct He as [He | [<- | He]].
      * specialize (H1 e He). lia.
      * lia.
      * specialize (H2 e He). lia.
    + exists (x :: l1), l2. split; [reflexivity|]. split; [|exact H2].
      intros e [<- | He]; [lia | exact (H1 e He)].
Qed.

Lemma insert_sorted_In {A : Type} (cmp : A -> A -> Z) (u y : A) (k : list A) :
  In y (PlanTasks.insert_sorted cmp u k) -> y = u \/ In y k.
Proof.
  induction k as [|w k IH]; cbn [PlanTasks.insert_sorted].
  - intros [<- | []]. left. reflexivity.
  - destruct (cmp u w <=? 0).
    + intros [<- | H]; [left; reflexivity | right; exact H].
    + intros [<- | H]; [right; left; reflexivity|].
      destruct (IH H) as [-> | H']; [left; reflexivity|].
      right. right. exact H'.
Qed.

Lemma Array_sort_In {A : Type} (cmp : A -> A -> Z) (y : A) (l : list A) :
  In y (PlanTasks.Array_sort cmp l) -> In y l.
Proof.
  induction l as [|x l IH]; cbn [PlanTasks.Array_sort]; [intros []|].
  intros H. destruct (insert_sorted_In _ _ _ _ H) as [-> | H'];
    [left; reflexivity | right; apply IH, H'].
Qed.

Lemma insert_sorted_ext {A : Type} (cmp cmp' : A -> A -> Z) (x : A)
    (k : list A) :
  (forall w, In w k -> cmp x w = cmp' x w) ->
  PlanTasks.insert_sorted cmp x k = PlanTasks.insert_sorted cmp' x k.
Proof.
  induction k as [|w k IH]; intros H; [reflexivity|].
  cbn [PlanTasks.insert_sorted].
  rewrite (H w (or_introl eq_refl)), IH; [reflexivity|].
  intros y Hy. apply H. right. exact Hy.
Qed.

Lemma Array_sort_ext {A : Type} (cmp cmp' : A -> A -> Z) (l : list A) :
  (forall a b, In a l -> In b l -> cmp a b = cmp' a b) ->
  PlanTasks.Array_sort cmp l = PlanTasks.Array_sort cmp' l.
Proof.
  induction l as [|x l IH]; intros H; [reflexivity|].
  cbn [PlanTasks.Array_sort]. rewrite IH
    by (intros a b Ha Hb; apply H; right; assumption).
  apply insert_sorted_ext. intros w Hw.
  apply H; [left; reflexivity|]. right. exact (Array_sort_In _ _ _ Hw).
Qed.

Lemma upcoming_spec (e : Exam) :
  upcoming Date_getTime today e = true
  <-> date e <> ""%string
      /\ exists t, Date_getTime (date e) = Some t /\ today <= t.
Proof.
  unfold upcoming. rewrite andb_true_iff, negb_true_iff.
  destruct (String.eqb_spec (date e) "") as [E|E].
  - split; [intros [H _]; discriminate | intros [H _]; congruence].
  - destruct (Date_getTime (date e)) as [t|].
    + rewrite Z.leb_le. split.
      * intros [_ H]. split; [exact E|]. exists t. split; [reflexivity|exact H].
      * intros [_ (t' & [= <-] & H)]. split; [reflexivity | exact H].
    + split; [intros [_ H]; discriminate|].
      intros [_ (t' & H & _)]. discriminate H.
Qed.

(** X21. [getNextExam], whatever the host's calendar is. It returns
    [null] exactly where no exam is upcoming, that is, has a date that is
    not empty and that the host reads as a time not before today's
    midnight. Otherwise it returns an upcoming exam of the list with the
    earliest time: every upcoming exam before it in the list is strictly
    later, every one after it is no earlier; exams without a date, or with
    one the host cannot read, play no part. Its [daysLeft] is the ceiling
    of the binary64 quotient of the distance to today's midnight by the
    milliseconds of a day. *)
Theorem getNextExam_earliest (exams : list Exam) :
  (getNextExam Date_getTime today exams = None
   <-> forall e, In e exams -> upcoming Date_getTime today e = false)
  /\ forall next daysLeft,
       getNextExam Date_getTime today exams = Some (next, daysLeft) ->
       exists before after t,
         exams = before ++ next :: after
         /\ date next <> ""%string
         /\ Date_getTime (date next) = Some t /\ today <= t
         /\ (forall e, In e before -> upcoming Date_getTime today e = true ->
               exists t', Date_getTime (date e) = Some t' /\ t < t')
         /\ (forall e, In e after -> upcoming Date_getTime today e = true ->
               exists t', Date_getTime (date e) = Some t' /\ t <= t')
         /\ daysLeft
            = Math_ceil
                (LiveTutor.number_div
                   (Math_abs (number_sub (LiveTutor.number_of_Z t)
                                         (LiveTutor.number_of_Z today)))
                   (LiveTutor.number_of_Z 86400000)).
Proof.
  set (key := fun e : Exam => match Date_getTime (date e) with
                              | Some t => t
                              | None => 0
                              end).
  assert (Hsort : PlanTasks.Array_sort (by_date Date_getTime) (List.filter (upcoming Date_getTime today) exams)
                  = PlanTasks.Array_sort (fun a b => key a - key b)
                      (List.filter (upcoming Date_getTime today) exams)).
  { apply Array_sort_ext. intros a b Ha Hb.
    apply filter_In in Ha, Hb. destruct Ha as [_ Ha], Hb as [_ Hb].
    apply upcoming_spec in Ha, Hb.
    destruct Ha as (_ & ta & Ea & _), Hb as (_ & tb & Eb & _).
    unfold by_date, key. rewrite Ea, Eb. reflexivity. }
  pose proof (Array_sort_head key (List.filter (upcoming Date_getTime today) exams)) as Hhead.
  unfold getNextExam. rewrite Hsort.
  destruct (PlanTasks.Array_sort (fun a b => key a - key b)
              (List.filter (upcoming Date_getTime today) exams)) as [|next r].
  - split.
    + split; [|destruct (length exams =? 0)%nat; reflexivity].
      intros _ e He. destruct (upcoming Date_getTime today e) eqn:Hu; [|reflexivity].
      assert (Hin : In e (List.filter (upcoming Date_getTime today) exams))
        by (apply filter_In; split; assumption).
      rewrite Hhead in Hin. destruct Hin.
    + intros next daysLeft H.
      destruct (length exams =? 0)%nat; discriminate H.
  - destruct Hhead as (l1 & l2 & Hl & H1 & H2).
    destruct (filter_split _ _ _ _ _ Hl) as (b & a & -> & Hb & Ha & Hx).
    pose proof (proj1 (upcoming_spec next) Hx) as (Hd & t & Et & Ht).
    assert (Hlen : (length (b ++ next :: a) =? 0)%nat = false).
    { apply Nat.eqb_neq. rewrite length_app. cbn. lia. }
    rewrite Hlen. split.
    + split; [discriminate|]. intros H.
      assert (Hin : In next (b ++ next :: a))
        by (apply in_app_iff; right; left; reflexivity).
      specialize (H next Hin). congruence.
    + intros next' daysLeft [= <- <-].
      exists b, a, t. split; [reflexivity|]. split; [exact Hd|].
      split; [exact Et|]. split; [exact Ht|]. split; [|split].
      * intros e He Hu.
        pose proof (proj1 (upcoming_spec e) Hu) as (_ & t' & Et' & _).
        exists t'. split; [exact Et'|].
        assert (Hin : In e l1) by (rewrite <- Hb; apply filter_In; tauto).
        specialize (H1 e Hin). unfold key in H1. rewrite Et, Et' in H1.
        exact H1.
      * intros e He Hu.
        pose proof (proj1 (upcoming_spec e) Hu) as (_ & t' & Et' & _).
        exists t'. split; [exact Et'|].
        assert (Hin : In e l2) by (rewrite <- Ha; apply filter_In; tauto).
        specialize (H2 e Hin). unfold key in H2. rewrite Et, Et' in H2.
        exact H2.
      * unfold time_value. rewrite Et. reflexivity.
Qed.

End Countdown.

(** In Dhaka on 6 January 2025: of a blank entry, an exam on the 8th and
    one on the 6th, the next exam is the one on the 6th; the host reads
    its date as midnight UTC, six hours after the local midnight, and the
    exam of today has one day left, not zero. *)
Lemma getNextExam_earliest_witness :
  getNextExam calendar midnight_in_Dhaka
    [blank; {| name := "Physics"; date := "2025-01-08" |};
     {| name := "Bangla"; date := "2025-01-06" |}]
  = Some ({| name := "Bangla"; date := "2025-01-06" |},
          LiveTutor.number_of_Z 1)
  /\ exists before after t,
       [blank; {| name := "Physics"; date := "2025-01-08" |};
        {| name := "Bangla"; date := "2025-01-06" |}]
       = before ++ {| name := "Bangla"; date := "2025-01-06" |} :: after
       /\ calendar "2025-01-06" = Some t /\ midnight_in_Dhaka <= t.
Proof.
  assert (E : getNextExam calendar midnight_in_Dhaka
                [blank; {| name := "Physics"; date := "2025-01-08" |};
                 {| name := "Bangla"; date := "2025-01-06" |}]
              = Some ({| name := "Bangla"; date := "2025-01-06" |},
                      LiveTutor.number_of_Z 1))
    by (vm_compute; reflexivity).
  split; [exact E|].
  destruct (proj2 (getNextExam_earliest calendar midnight_in_Dhaka _) _ _ E)
    as (before & after & t & A & _ & B & C & _).
  exists before, after, t. split; [exact A|]. split; [exact B | exact C].
Defined.

End ExamCountdownExtra.

(** ** The image generator *)

Module VisualAidsExtra.

Import VisualAids.

Lemma first_inline_spec (parts : list Part) :
  match first_inline parts with
  | Some url =>
      exists before part after data,
        parts = before ++ part :: after
        /\ Forall (fun p => inlineData p = None) before
        /\ inlineData part = Some data
        /\ url = ("data:image/png;base64," ++ data)%string
  | None => Forall (fun p => inlineData p = None) parts
  end.
Proof.
  induction parts as [|p parts IH]; [constructor|].
  cbn [first_inline]. destruct (inlineData p) as [data|] eqn:Hp.
  - exists [], p, parts, data. repeat split; [constructor | exact Hp].
  - destruct (first_inline parts) as [url|].
    + destruct IH as (before & part & after & data & -> & Hb & Hd & ->).
      exists (p :: before), part, after, data.
      repeat split; [constructor; assumption | exact Hd].
    + constructor; assumption.
Qed.

(** X22. The image generator, once the request has settled for a prompt
    that is not empty: the loading flag is off, and the view has either an
    image and no error, or an error message and no image, never both and
    never neither. It has an image exactly where the response has a part
    with inline data; the image is then the PNG data URL of the first such
    part. A rejection shows its message, or "Generation failed." where it
    has none. With an empty prompt nothing happens. *)
Theorem image_or_error (api : ImageApi) (s : State) :
  (prompt s = ""%string -> handleGenerate api s = s)
  /\ (prompt s <> ""%string ->
      loading (handleGenerate api s) = false
      /\ prompt (handleGenerate api s) = prompt s
      /\ highQuality (handleGenerate api s) = highQuality s
      /\ ((exists parts before part after data,
             api = ImageApiResponse (Some parts)
             /\ parts = before ++ part :: after
             /\ Forall (fun p => inlineData p = None) before
             /\ inlineData part = Some data
             /\ resultUrl (handleGenerate api s)
                = Some ("data:image/png;base64," ++ data)%string
             /\ error (handleGenerate api s) = ""%string)
          \/ (resultUrl (handleGenerate api s) = None
              /\ error (handleGenerate api s) <> ""%string
              /\ match api with
                 | ImageApiResponse (Some parts) =>
                     Forall (fun p => inlineData p = None) parts
                     /\ error (handleGenerate api s)
                        = "Failed to generate image."%string
                 | ImageApiResponse None =>
                     error (handleGenerate api s)
                     = "Failed to generate image."%string
                 | ImageApiRejected (Some m) =>
                     error (handleGenerate api s)
                     = (if String.eqb m "" then "Generation failed."%string
                        else m)
                 | ImageApiRejected None =>
                     error (handleGenerate api s)
                     = "Generation failed."%string
                 end))).
Proof.
  unfold handleGenerate. split.
  - intros ->. reflexivity.
  - intros Hp. apply String.eqb_neq in Hp. rewrite Hp.
    destruct api as [[m|]|[parts|]]; cbn [generateEducationalImage].
    + repeat split. right. cbn [resultUrl error].
      split; [reflexivity|]. split; [|reflexivity].
      destruct (String.eqb_spec m ""); [discriminate | assumption].
    + repeat split. right. cbn. repeat split. discriminate.
    + pose proof (first_inline_spec parts) as H.
      destruct (first_inline parts) as [url|].
      * destruct H as (before & part & after & data & -> & Hb & Hd & ->).
        change (String.eqb ("data:image/png;base64," ++ data) "")
          with false.
        cbv iota. repeat split. left.
        exists (before ++ part :: after), before, part, after, data.
        repeat split; assumption.
      * repeat split. right. cbn.
        repeat split; [discriminate | exact H].
    + repeat split. right. cbn. repeat split. discriminate.
Qed.

(** A response with a text part and two images: the first image is
    shown. *)
Lemma image_or_error_witness :
  let s := {| prompt := "A plant cell"; resultUrl := None; loading := true;
              error := ""; highQuality := false |} in
  prompt s <> ""%string
  /\ resultUrl (handleGenerate
                  (ImageApiResponse
                     (Some [{| inlineData := None |};
                            {| inlineData := Some "AAAA"%string |};
                            {| inlineData := Some "BBBB"%string |}])) s)
     = Some "data:image/png;base64,AAAA"%string
  /\ loading (handleGenerate (ImageApiRejected None) s) = false.
Proof.
  intros s. assert (Hp : prompt s <> ""%string) by discriminate.
  split; [exact Hp|]. split; [reflexivity|].
  exact (proj1 (proj2 (image_or_error (ImageApiRejected None) s) Hp)).
Defined.

End VisualAidsExtra.

(** ** The study spots *)

Module StudySpotsExtra.

Import StudySpots.

Local Open Scope nat_scope.

Lemma places_of_spec (chunks : list Chunk) :
  places_of chunks = omap maps chunks.
Proof.
  induction chunks as [|c chunks IH]; [reflexivity|].
  cbn [places_of omap list_omap]. destruct (maps c); rewrite IH; reflexivity.
Qed.

(** X23. The search for study spots, once it has ended: the loading flag
    is off. When it succeeds the spots are the [maps] entries of the
    grounding chunks that have one, in their order, the error is empty and
    the text is kept; when it fails (no geolocation, no position, a
    rejected request) the spots and the text stay as they were and an
    error is shown. When it succeeds without a place, a response without
    grounding chunks say, the view shows neither results nor an error:
    the text of the answer is not shown, and the button to search is
    back. *)
Theorem study_spots_search (search : Search) (s : State) :
  loading (handleFindSpots search s) = false
  /\ (forall text chunks,
        search = Position (SpotsApiResponse text chunks) ->
        spots (handleFindSpots search s)
        = omap maps (match chunks with Some l => l | None => [] end)
        /\ introText (handleFindSpots search s) = text
        /\ locationError (handleFindSpots search s) = ""%string
        /\ (omap maps (match chunks with Some l => l | None => [] end) = [] ->
            render (handleFindSpots search s)
            = {| locateButton := true; errorShown := None;
                 resultsShown := None |}))
  /\ ((forall text chunks, search <> Position (SpotsApiResponse text chunks)) ->
      spots (handleFindSpots search s) = spots s
      /\ introText (handleFindSpots search s) = introText s
      /\ locationError (handleFindSpots search s) <> ""%string
      /\ errorShown (render (handleFindSpots search s))
         = Some (locationError (handleFindSpots search s))).
Proof.
  split; [|split].
  - destruct search as [| |[|text chunks]]; reflexivity.
  - intros text chunks ->.
    cbn [handleFindSpots findStudySpots spots introText locationError places
         StudySpots.text].
    rewrite places_of_spec. repeat split.
    intros E. unfold render.
    cbn [spots loading locationError introText]. rewrite E. reflexivity.
  - intros H. destruct search as [| |[|text chunks]];
      try (repeat split; discriminate).
    destruct (H text chunks eq_refl).
Qed.

(** A request that is rejected after a search that found a library; and an
    answer without grounding chunks. *)
Lemma study_spots_search_witness :
  let found := {| spots := ["Central Library"%string];
                  introText := Some "One place."%string;
                  loading := true; locationError := "" |} in
  let fresh := {| spots := []; introText := None; loading := true;
                  locationError := "" |} in
  spots (handleFindSpots (Position SpotsApiRejected) found)
  = ["Central Library"%string]
  /\ render (handleFindSpots
               (Position (SpotsApiResponse (Some "Try the library."%string)
                                           None)) fresh)
     = {| locateButton := true; errorShown := None; resultsShown := None |}.
Proof.
  intros found fresh. split.
  - apply (proj2 (proj2 (study_spots_search (Position SpotsApiRejected)
                           found))).
    intros text chunks. discriminate.
  - apply (proj2 (proj2 (proj2 (proj1 (proj2 (study_spots_search
             (Position (SpotsApiResponse (Some "Try the library."%string)
                                         None)) fresh))
             (Some "Try the library."%string) None eq_refl)))).
    reflexivity.
Defined.

End StudySpotsExtra.
